(** * OTDR simulator: physics, acquisition and analysis core of [index.tsx]

    A shallow embedding of the engine functions of the [App] component:
    the auto-mode effect, [calculateAttenuation], [calculateSingleTrace],
    the acquisition loop with its accumulator, the display effect and
    [analyzeTrace].

    Numbers.  JavaScript numbers are rendered as exact rationals [Q]:
    rounding, overflow and the non-finite values of IEEE arithmetic are
    not part of this model, and the [Float32Array] that stores a shot is a
    plain list.  [Math.log10] has no rational counterpart and is a
    parameter of the engine; every call of [Math.random] is an explicit
    input.  Where the range of the numbers matters, the shot is embedded
    a second time, in module [Double], on numbers that have the
    infinities and NaN; the two agree on inputs of moderate size. *)

From Stdlib Require Import String QArith Qminmax Qround Qabs Lqa ZArith List Bool Lia Sorted.
Import ListNotations.
Open Scope Q_scope.

(** ** Numeric conventions of the host language *)

(** [x > y] and [x < y] on numbers. *)
Definition Qgtb (x y : Q) : bool := negb (Qle_bool x y).
Definition Qltb (x y : Q) : bool := negb (Qle_bool y x).
(** [x >= y]. *)
Definition Qgeb (x y : Q) : bool := Qle_bool y x.

(** [x || d] on numbers: [0] is the only falsy finite number. *)
Definition js_or (x d : Q) : Q := if Qeq_bool x 0 then d else x.

(** ** Types *)

Inductive EventType : Type :=
  | T_connector | T_splice | T_bend | T_end | T_cut | T_start | T_degradation.

Definition EventType_eqb (a b : EventType) : bool :=
  match a, b with
  | T_connector, T_connector | T_splice, T_splice | T_bend, T_bend
  | T_end, T_end | T_cut, T_cut | T_start, T_start
  | T_degradation, T_degradation => true
  | _, _ => false
  end.

Record FiberEvent : Type := mkEvent {
  id : string;
  type : EventType;
  distance : Q;      (* km *)
  loss : Q;          (* dB *)
  reflectance : Q    (* dB *)
}.

Record SimulationConfig : Type := mkConfig {
  range : Q;         (* km *)
  pulseWidth : Q;    (* ns *)
  wavelength : Z;    (* nm *)
  ior : Q;
  averaging : Q;
  noiseFloor : Q;    (* dB *)
  autoMode : bool;
  testDuration : Q   (* seconds, 0 = continuous *)
}.

Record TracePoint : Type := mkPoint { x : Q; y : Q }.

(** The initial [useState] values of [App]. *)
Definition initialConfig : SimulationConfig :=
  {| range := 20; pulseWidth := 100; wavelength := 1550; ior := 1.4682;
     averaging := 1; noiseFloor := -60; autoMode := true; testDuration := 15 |}.

Definition initialEvents : list FiberEvent :=
  [ mkEvent "start" T_start 0 0.5 (-35);
    mkEvent "e1" T_splice 5.2 0.1 (-99);
    mkEvent "e2" T_connector 12.5 0.5 (-40);
    mkEvent "end" T_end 18.0 0 (-14) ].

(** ** [Array.prototype.sort] with the comparator [a.distance - b.distance]

    The host sort is stable; a stable insertion sort gives the same array. *)

Fixpoint insertByDistance (e : FiberEvent) (l : list FiberEvent) : list FiberEvent :=
  match l with
  | [] => [e]
  | h :: t => if Qle_bool (distance e) (distance h) then e :: h :: t
              else h :: insertByDistance e t
  end.

Fixpoint sortByDistance (l : list FiberEvent) : list FiberEvent :=
  match l with
  | [] => []
  | e :: t => insertByDistance e (sortByDistance t)
  end.

(** Ascending distance, the order the sort establishes. *)
Definition dle (a b : FiberEvent) : Prop := distance a <= distance b.

(** ** [calculateAttenuation] *)

Definition calculateAttenuation (wavelength : Z) : Q :=
  if Z.eqb wavelength 1310 then 0.35 else 0.20.

(** ** [analyzeTrace] *)

(** The loss cell of the table: the text ["> 50.0"] for a cut, the number
    otherwise.  Numeric cells hold the number that [toFixed] prints. *)
Inductive LossCell : Type :=
  | LossAbove50
  | LossValue (v : Q).

Record AnalysisRecord : Type := mkRecord {
  rec_no : nat;
  rec_type : EventType;
  rec_location : Q;
  rec_reflectance : option Q;   (* [None] is the text "---" *)
  rec_loss : LossCell;
  rec_cumLoss : Q
}.

(** The event list the analyzer works on: the cut overlay, then the sort. *)
Definition analyzerCutEvent (d : Q) : FiberEvent :=
  mkEvent "cut" T_cut d 0 (-14).

Definition actualEvents (events : list FiberEvent) (activeCut : option Q)
  : list FiberEvent :=
  sortByDistance
    match activeCut with
    | Some d => filter (fun e => Qltb (distance e) d) events ++ [analyzerCutEvent d]
    | None => events
    end.

Definition mkAnalysisRecord (i : nat) (e : FiberEvent) (cum : Q) : AnalysisRecord :=
  {| rec_no := i;
     rec_type := type e;
     rec_location := distance e;
     rec_reflectance := if Qgtb (reflectance e) (-60) then Some (reflectance e) else None;
     rec_loss := if EventType_eqb (type e) T_cut then LossAbove50 else LossValue (loss e);
     rec_cumLoss := cum |}.

(** One iteration of the [for] loop, on the pair
    ([currentLossTotal], [detected]). *)
Definition analyzeStep (coeff : Q) (evs : list FiberEvent)
  (acc : Q * list AnalysisRecord) (i : nat) : Q * list AnalysisRecord :=
  match nth_error evs i with
  | None => acc
  | Some e =>
    if EventType_eqb (type e) T_start then acc
    else
      let currentLossTotal := fst acc + loss e in
      let prevDist :=
        if Nat.eqb i 0 then 0
        else match nth_error evs (i - 1) with
             | Some p => distance p
             | None => 0
             end in
      let sectionLen := distance e - prevDist in
      let sectionLoss := sectionLen * coeff in
      let currentLossTotal := currentLossTotal + sectionLoss in
      (currentLossTotal, snd acc ++ [mkAnalysisRecord i e currentLossTotal])
  end.

Definition analyzeTrace (config : SimulationConfig) (events : list FiberEvent)
  (activeCut : option Q) : list AnalysisRecord :=
  let evs := actualEvents events activeCut in
  snd (fold_left (analyzeStep (calculateAttenuation (wavelength config)) evs)
                 (seq 0 (length evs)) (0, [])).

(** The same loop by recursion on the remaining events, carrying the index,
    the distance of the previous array element and the running total. *)
Fixpoint analyzeFrom (coeff : Q) (i : nat) (prevDist total : Q)
  (evs : list FiberEvent) : list AnalysisRecord :=
  match evs with
  | [] => []
  | e :: rest =>
    if EventType_eqb (type e) T_start
    then analyzeFrom coeff (S i) (distance e) total rest
    else
      let total' := total + loss e + (distance e - prevDist) * coeff in
      mkAnalysisRecord i e total' :: analyzeFrom coeff (S i) (distance e) total' rest
  end.

(** ** Auto mode: the effect that derives range and pulse width *)

Definition isEnd (e : FiberEvent) : bool := EventType_eqb (type e) T_end.

Definition availableRanges : list Q := [5; 10; 20; 40; 80; 160; 300].

(** [maxDist] after the two [if] statements. *)
Definition autoMaxDist (events : list FiberEvent) (activeCut : option Q) : Q :=
  let maxDist :=
    match find isEnd events with
    | Some lastEvent => distance lastEvent
    | None => 0
    end in
  match activeCut with
  | Some d => if Qltb d maxDist then d else maxDist
  | None => maxDist
  end.

Definition bestRange (maxDist : Q) : Q :=
  match find (fun r => Qgtb r (maxDist * 1.2)) availableRanges with
  | Some r => js_or r 300
  | None => 300
  end.

Definition bestPulse (bestRange : Q) : Q :=
  if Qle_bool bestRange 5 then 10
  else if Qle_bool bestRange 20 then 100
  else if Qle_bool bestRange 40 then 500
  else if Qle_bool bestRange 80 then 1000
  else if Qle_bool bestRange 160 then 10000
  else 20000.

(** The pair (range, pulse width) the effect computes. *)
Definition autoSelect (events : list FiberEvent) (activeCut : option Q) : Q * Q :=
  let r := bestRange (autoMaxDist events activeCut) in (r, bestPulse r).

(** The effect on the configuration: applied only in auto mode and only
    when one of the two values differs. *)
Definition autoModeEffect (config : SimulationConfig) (events : list FiberEvent)
  (activeCut : option Q) : SimulationConfig :=
  if autoMode config then
    let (r, p) := autoSelect events activeCut in
    if negb (Qeq_bool (range config) r) || negb (Qeq_bool (pulseWidth config) p)
    then {| range := r; pulseWidth := p; wavelength := wavelength config;
            ior := ior config; averaging := averaging config;
            noiseFloor := noiseFloor config; autoMode := autoMode config;
            testDuration := testDuration config |}
    else config
  else config.

(** ** [calculateSingleTrace] *)

Definition numPoints : nat := 4000.

Definition stepSize (config : SimulationConfig) : Q :=
  range config / inject_Z (Z.of_nat numPoints).

Definition speedOfLightKmS : Q := 299792.458.
Definition pulseWidthSeconds (config : SimulationConfig) : Q :=
  pulseWidth config * 1e-9.
Definition pulseLengthKm (config : SimulationConfig) : Q :=
  (speedOfLightKmS * pulseWidthSeconds config) / ior config.
Definition eventDeadZone (config : SimulationConfig) : Q :=
  pulseLengthKm config * 1.5.

(** The denominator of the ring-down ratio, [eventDeadZone || 0.001]. *)
Definition deadZoneDenominator (config : SimulationConfig) : Q :=
  js_or (eventDeadZone config) 0.001.

(** The cut overlay of the synthesizer: sort, then filter and push. *)
Definition synthCutEvent (d : Q) : FiberEvent :=
  mkEvent "cut-point" T_cut d 50 (-14).

Definition sortedEvents (events : list FiberEvent) (activeCut : option Q)
  : list FiberEvent :=
  let sorted := sortByDistance events in
  match activeCut with
  | Some d => filter (fun e => Qltb (distance e) d) sorted ++ [synthCutEvent d]
  | None => sorted
  end.

Definition effectiveEndDistance (config : SimulationConfig)
  (events : list FiberEvent) (activeCut : option Q) : Q :=
  let fromTopology :=
    match find isEnd (sortByDistance events) with
    | Some e => js_or (distance e) (range config)
    | None => range config
    end in
  match activeCut with
  | Some d => d
  | None => fromTopology
  end.

(** The variables that live across iterations of the sample loop. *)
Record LoopState : Type := mkLoop {
  currentPower : Q;
  eventIndex : nat;
  deadZoneActiveUntil : Q;
  powerAtSaturation : Q
}.

Definition initialLoopState : LoopState := mkLoop 0 0 (-1) 0.

(** The first [if] of the loop body: the event at [eventIndex] is consumed
    when the sample has reached it. *)
Record Triggered : Type := mkTriggered {
  afterTrigger : LoopState;
  idealPower : Q;
  reflectionAdd : Q;
  justTriggeredEvent : bool
}.

Definition triggerEvent (config : SimulationConfig) (evs : list FiberEvent)
  (st : LoopState) (d : Q) : Triggered :=
  let idealPower := currentPower st
                    - calculateAttenuation (wavelength config) * d in
  match nth_error evs (eventIndex st) with
  | Some activeEvent =>
    if Qgeb d (distance activeEvent) then
      let currentPower' := currentPower st - loss activeEvent in
      let idealPower' := idealPower - loss activeEvent in
      if Qgtb (reflectance activeEvent) (-65) then
        let spikeHeight := reflectance activeEvent + 75 in
        mkTriggered
          (mkLoop currentPower' (S (eventIndex st))
                  (distance activeEvent + eventDeadZone config)
                  (idealPower' + spikeHeight))
          idealPower' spikeHeight true
      else
        mkTriggered
          (mkLoop currentPower' (S (eventIndex st))
                  (deadZoneActiveUntil st) (powerAtSaturation st))
          idealPower' 0 true
    else mkTriggered st idealPower 0 false
  | None => mkTriggered st idealPower 0 false
  end.

(** The second [if]: the ring-down blend inside the dead zone; outside it
    the window is closed.  Returns [traceValue] and the state. *)
Definition deadZoneBlend (config : SimulationConfig) (t : Triggered) (d : Q)
  : Q * LoopState :=
  let st := afterTrigger t in
  if Qltb d (deadZoneActiveUntil st) then
    let remainingDist := deadZoneActiveUntil st - d in
    let ratio := remainingDist / deadZoneDenominator config in
    let decay := ratio ^ 4 * (powerAtSaturation st - idealPower t) in
    (idealPower t + decay, st)
  else
    (idealPower t,
     mkLoop (currentPower st) (eventIndex st) (-1) (powerAtSaturation st)).

(** The past-terminal test [d > effectiveEndDistance]. *)
Definition pastTerminal (d effectiveEnd : Q) : bool := Qgtb d effectiveEnd.

(** [traceValue] just before the noise is added. *)
Definition traceValueOf (config : SimulationConfig) (t : Triggered)
  (blended : Q) (d effectiveEnd : Q) : Q :=
  let traceValue :=
    if justTriggeredEvent t then blended + reflectionAdd t else blended in
  if pastTerminal d effectiveEnd then noiseFloor config else traceValue.

(** The last lines of the body: noise, and the floor rule. *)
Definition addNoise (config : SimulationConfig) (noiseAmplitude : Q)
  (traceValue rnd : Q) : Q :=
  let noise := (rnd - 0.5) * noiseAmplitude in
  let finalPower := traceValue + noise in
  if Qltb finalPower (noiseFloor config) then noiseFloor config + noise
  else finalPower.

Definition sampleDistance (config : SimulationConfig) (i : nat) : Q :=
  inject_Z (Z.of_nat i) * stepSize config.

(** One iteration without its noise: the next loop state and [traceValue]. *)
Definition sampleStep (config : SimulationConfig) (evs : list FiberEvent)
  (effectiveEnd : Q) (st : LoopState) (i : nat) : LoopState * Q :=
  let d := sampleDistance config i in
  let t := triggerEvent config evs st d in
  let (blended, st') := deadZoneBlend config t d in
  (st', traceValueOf config t blended d effectiveEnd).

(** The loop state on entry of iteration [i]. *)
Fixpoint loopStateAt (config : SimulationConfig) (evs : list FiberEvent)
  (effectiveEnd : Q) (i : nat) : LoopState :=
  match i with
  | O => initialLoopState
  | S j => fst (sampleStep config evs effectiveEnd
                           (loopStateAt config evs effectiveEnd j) j)
  end.

(** [traceValue] of iteration [i] of a shot, before its noise. *)
Definition traceValueAt (config : SimulationConfig) (events : list FiberEvent)
  (activeCut : option Q) (i : nat) : Q :=
  let evs := sortedEvents events activeCut in
  let effectiveEnd := effectiveEndDistance config events activeCut in
  snd (sampleStep config evs effectiveEnd (loopStateAt config evs effectiveEnd i) i).

Section Engine.

(** [Math.log10]. *)
Variable log10 : Q -> Q.

Definition baseNoiseAmp : Q := 5.0.

Definition noiseReductionFactor (config : SimulationConfig) : Q :=
  log10 (pulseWidth config) / 2.

Definition noiseAmplitude (config : SimulationConfig) : Q :=
  Qmax 0.5 (baseNoiseAmp / js_or (noiseReductionFactor config) 1).

(** Iterations [i], [i+1], ..., [i+n-1] of the sample loop; [rnd k] is
    the value [Math.random] returns in iteration [k]. *)
Fixpoint traceLoop (config : SimulationConfig) (evs : list FiberEvent)
  (effectiveEnd : Q) (rnd : nat -> Q) (n i : nat) (st : LoopState) : list Q :=
  match n with
  | O => []
  | S n' =>
    let (st', traceValue) := sampleStep config evs effectiveEnd st i in
    addNoise config (noiseAmplitude config) traceValue (rnd i)
      :: traceLoop config evs effectiveEnd rnd n' (S i) st'
  end.

Definition calculateSingleTrace (config : SimulationConfig)
  (events : list FiberEvent) (activeCut : option Q) (rnd : nat -> Q) : list Q :=
  traceLoop config (sortedEvents events activeCut)
            (effectiveEndDistance config events activeCut)
            rnd numPoints 0 initialLoopState.

End Engine.

(** ** The accumulator, the acquisition loop and the display effect *)

(** [arr.map((val, i) => ...)]. *)
Fixpoint mapi_from {A B : Type} (f : A -> nat -> B) (i : nat) (l : list A) : list B :=
  match l with
  | [] => []
  | a :: t => f a i :: mapi_from f (S i) t
  end.

Definition mapi {A B : Type} (f : A -> nat -> B) (l : list A) : list B :=
  mapi_from f 0 l.

(** The updater passed to [setAccumulatedY].  Both arrays have [numPoints]
    elements whenever [prev] is not empty, so [newRawTrace[i]] is always
    an element of the shot. *)
Definition accumulate (prev newRawTrace : list Q) : list Q :=
  match prev with
  | [] => newRawTrace
  | _ :: _ => mapi (fun val i => val + nth i newRawTrace 0) prev
  end.

(** The [displayData] array built from [ys], each value mapped by [f]. *)
Definition displayData (range : Q) (f : Q -> Q) (ys : list Q) : list TracePoint :=
  let stepSize := range / inject_Z (Z.of_nat (length ys)) in
  mapi (fun v i => mkPoint (inject_Z (Z.of_nat i) * stepSize) (f v)) ys.

(** The part of the component state the engine reads and writes. *)
Record AppState : Type := mkApp {
  config : SimulationConfig;
  events : list FiberEvent;
  activeCut : option Q;
  isSimulating : bool;
  traceData : list TracePoint;
  detectedEvents : list AnalysisRecord;
  elapsedTime : Q;
  accumulatedY : list Q;
  sampleCount : nat
}.

Definition initialAppState : AppState :=
  mkApp initialConfig initialEvents None false [] [] 0 [] 0.

Definition startSimulation (s : AppState) : AppState :=
  mkApp (config s) (events s) (activeCut s) true (traceData s)
        (detectedEvents s) 0 [] 0.

Definition stopSimulation (s : AppState) : AppState :=
  mkApp (config s) (events s) (activeCut s) false (traceData s)
        (analyzeTrace (config s) (events s) (activeCut s))
        (elapsedTime s) (accumulatedY s) (sampleCount s).

(** The time check at the head of the animation frame. *)
Definition timeLimitReached (cfg : SimulationConfig) (deltaSeconds : Q) : bool :=
  Qgtb (testDuration cfg) 0 && Qgeb deltaSeconds (testDuration cfg).

Section Acquisition.

Variable log10 : Q -> Q.

(** One animation frame at [deltaSeconds] after the start; [rnd] feeds
    the shot taken in this frame. *)
Definition loopFrame (deltaSeconds : Q) (rnd : nat -> Q) (s : AppState) : AppState :=
  if negb (isSimulating s) then s
  else if timeLimitReached (config s) deltaSeconds then
    stopSimulation
      (mkApp (config s) (events s) (activeCut s) (isSimulating s) (traceData s)
             (detectedEvents s) (testDuration (config s))
             (accumulatedY s) (sampleCount s))
  else
    let newRawTrace :=
      calculateSingleTrace log10 (config s) (events s) (activeCut s) rnd in
    mkApp (config s) (events s) (activeCut s) (isSimulating s) (traceData s)
          (detectedEvents s) deltaSeconds
          (accumulate (accumulatedY s) newRawTrace)
          (S (sampleCount s)).

(** The trace the fallback branch of the display effect shows. *)
Definition staticTrace (rnd : nat -> Q) (s : AppState) : list TracePoint :=
  displayData (range (config s)) (fun v => v)
    (calculateSingleTrace log10 (config s) (events s) (activeCut s) rnd).

(** The effect that computes the displayed trace from the accumulator;
    [rnd] feeds the shot of its second branch. *)
Definition displayEffect (rnd : nat -> Q) (s : AppState) : AppState :=
  if Nat.ltb 0 (length (accumulatedY s)) && Nat.ltb 0 (sampleCount s) then
    mkApp (config s) (events s) (activeCut s) (isSimulating s)
          (displayData (range (config s))
             (fun v => v / inject_Z (Z.of_nat (sampleCount s)))
             (accumulatedY s))
          (detectedEvents s) (elapsedTime s) (accumulatedY s) (sampleCount s)
  else if negb (isSimulating s) && Nat.eqb (length (traceData s)) 0 then
    mkApp (config s) (events s) (activeCut s) (isSimulating s)
          (staticTrace rnd s)
          (analyzeTrace (config s) (events s) (activeCut s))
          (elapsedTime s) (accumulatedY s) (sampleCount s)
  else s.

(** What happens to the component between two runs of the display effect:
    the start/stop button, an animation frame, a change of the
    configuration, the topology or the cut by one of the handlers or by
    the auto-mode effect, or a render that changes none of these. *)
Inductive Action : Type :=
  | Start
  | Stop
  | Frame (deltaSeconds : Q) (rnd : nat -> Q)
  | SetInputs (cfg : SimulationConfig) (evs : list FiberEvent) (cut : option Q)
  | Rerender.

Definition act (a : Action) (s : AppState) : AppState :=
  match a with
  | Start => startSimulation s
  | Stop => stopSimulation s
  | Frame deltaSeconds rnd => loopFrame deltaSeconds rnd s
  | SetInputs cfg evs cut =>
    mkApp cfg evs cut (isSimulating s) (traceData s) (detectedEvents s)
          (elapsedTime s) (accumulatedY s) (sampleCount s)
  | Rerender => s
  end.

(** The shot an action adds to the accumulator, if it adds one. *)
Definition shotTaken (a : Action) (s : AppState) : option (list Q) :=
  match a with
  | Frame deltaSeconds rnd =>
    if isSimulating s && negb (timeLimitReached (config s) deltaSeconds)
    then Some (calculateSingleTrace log10 (config s) (events s) (activeCut s) rnd)
    else None
  | _ => None
  end.

(** The shots accumulated since the last start, oldest first. *)
Definition shotsAfter (a : Action) (s : AppState) (shots : list (list Q))
  : list (list Q) :=
  match a with
  | Start => []
  | _ => match shotTaken a s with
         | Some shot => shots ++ [shot]
         | None => shots
         end
  end.

(** An action followed by the display effect, which draws from
    [rndDisplay] if it takes its own shot; the second component records the
    accumulated shots and is not part of the program. *)
Definition step (ar : Action * (nat -> Q)) (sl : AppState * list (list Q))
  : AppState * list (list Q) :=
  (displayEffect (snd ar) (act (fst ar) (fst sl)),
   shotsAfter (fst ar) (fst sl) (snd sl)).

Definition run (l : list (Action * (nat -> Q))) (sl : AppState * list (list Q))
  : AppState * list (list Q) :=
  fold_left (fun sl ar => step ar sl) l sl.

(** The states the component commits while it handles a list of actions,
    in their order.  The state updates of a handler or of an animation
    frame are committed first; the display effect runs after that commit,
    and what it sets is committed next.  [step] goes through both. *)
Inductive CommitKind : Type := ByAction | ByEffect.

Fixpoint commits (l : list (Action * (nat -> Q))) (sl : AppState * list (list Q))
  : list (CommitKind * (AppState * list (list Q))) :=
  match l with
  | [] => []
  | ar :: l' =>
    (ByAction, (act (fst ar) (fst sl), shotsAfter (fst ar) (fst sl) (snd sl)))
    :: (ByEffect, step ar sl)
    :: commits l' (step ar sl)
  end.

End Acquisition.

(** Sample [i] summed over a list of shots. *)
Definition sumAt (i : nat) (shots : list (list Q)) : Q :=
  fold_left (fun acc shot => acc + nth i shot 0) shots 0.

(** The accumulator holds the element-wise sum of [shots] and the counter
    their number. *)
Definition Summed (s : AppState) (shots : list (list Q)) : Prop :=
  sampleCount s = length shots /\
  (shots = [] -> accumulatedY s = []) /\
  (shots <> [] ->
   length (accumulatedY s) = numPoints /\
   forall i, (i < numPoints)%nat -> nth i (accumulatedY s) 0 == sumAt i shots).

(** Once the counter is positive the displayed trace is the accumulator
    divided by the counter. *)
Definition Displayed (s : AppState) : Prop :=
  (0 < sampleCount s)%nat ->
  traceData s =
  displayData (range (config s))
    (fun v => v / inject_Z (Z.of_nat (sampleCount s))) (accumulatedY s).

(** ** Inputs for closed scenarios *)

(** A rational function standing in for [Math.log10] where a scenario has
    to be evaluated: the decimal order of magnitude of the integer part,
    which is [log10] itself on the powers of ten 1, 10, 100, ... *)
Fixpoint orderOfMagnitude (fuel : nat) (n : Z) : Z :=
  match fuel with
  | O => 0
  | S fuel' => if (n <? 10)%Z then 0%Z else (1 + orderOfMagnitude fuel' (n / 10))%Z
  end.

Definition log10_magnitude (v : Q) : Q :=
  let n := Qfloor v in
  inject_Z (orderOfMagnitude (S (Z.to_nat (Z.log2 n))) n).

(** Oracles for [Math.random]: a constant value on every call. *)
Definition constantRandom (v : Q) : nat -> Q := fun _ => v.

(** A session: the first render, a start, two frames, a stop and a
    second start. *)
Definition session : list (Action * (nat -> Q)) :=
  [ (Rerender, constantRandom 0.5);
    (Start, constantRandom 0.5);
    (Frame 1 (constantRandom 0), constantRandom 0.5);
    (Frame 2 (constantRandom 0.5), constantRandom 0.5);
    (Stop, constantRandom 0.5);
    (Start, constantRandom 0.5) ].

Definition sessionEnd : AppState * list (list Q) :=
  run log10_magnitude session (initialAppState, []).

(** The y-value of the first point of a trace equals [v]. *)
Definition firstYIs (l : list TracePoint) (v : Q) : bool :=
  match nth_error l 0 with
  | Some p => Qeq_bool (y p) v
  | None => false
  end.

(** What the session ends in, as one decidable test: the counter is 0,
    the simulation runs, the accumulator is empty, the displayed trace
    starts at 78.25 dB and a fresh shot would start at 79.5 dB. *)
Definition sessionCheck : bool :=
  let s := fst sessionEnd in
  Nat.eqb (sampleCount s) 0 && isSimulating s
  && Nat.eqb (length (accumulatedY s)) 0
  && firstYIs (traceData s) 78.25
  && firstYIs (staticTrace log10_magnitude (constantRandom 0.5) s) 79.5.

(** The commit of one more frame after the session, before the display
    effect has run: the counter is 1, the accumulator starts at 80.75 dB
    and the displayed trace still starts at 78.25 dB. *)
Definition frameCommit : AppState :=
  act log10_magnitude (Frame 1 (constantRandom 0.75)) (fst sessionEnd).

Definition frameCommitCheck : bool :=
  Nat.eqb (sampleCount frameCommit) 1
  && Qeq_bool (nth 0 (accumulatedY frameCommit) 0) 80.75
  && firstYIs (traceData frameCommit) 78.25.

(** ** The topology handlers *)

(** [parseFloat(v.toFixed(3))]: the nearest multiple of 1/1000, a tie going
    away from zero.  (The exponent notation [toFixed] switches to at 1e21
    is not modelled.) *)
Definition toFixed3 (v : Q) : Q :=
  if Qltb v 0
  then - (inject_Z (Qfloor (- v * 1000 + (1 # 2))) / 1000)
  else inject_Z (Qfloor (v * 1000 + (1 # 2))) / 1000.

(** [arr.findIndex(p)], [None] for -1. *)
Fixpoint findIndex {A : Type} (p : A -> bool) (l : list A) : option nat :=
  match l with
  | [] => None
  | a :: t => if p a then Some 0%nat else option_map S (findIndex p t)
  end.

(** [arr.splice(i, 0, v)]. *)
Definition spliceInsert {A : Type} (i : nat) (v : A) (l : list A) : list A :=
  firstn i l ++ v :: skipn i l.

(** [maxDist] of [handleAddEvent]. *)
Definition addMaxDist (events : list FiberEvent) (activeCut : option Q) : Q :=
  let lastEvent :=
    match find isEnd events with
    | Some e => Some e
    | None => nth_error events (length events - 1)
    end in
  let maxDist :=
    match lastEvent with
    | Some e => distance e
    | None => 20
    end in
  match activeCut with
  | Some d => d
  | None => maxDist
  end.

(** The event [handleAddEvent] builds; [rnd] is the value of [Math.random]
    and [newId] the result of [generateId]. *)
Definition newEventOf (events : list FiberEvent) (activeCut : option Q)
  (ty : EventType) (rnd : Q) (newId : string) : FiberEvent :=
  let maxDist := addMaxDist events activeCut in
  let newDist := rnd * (maxDist * 0.8) + maxDist * 0.1 in
  {| id := newId;
     type := ty;
     distance := toFixed3 newDist;
     loss := match ty with
             | T_splice => 0.05
             | T_degradation => 1.5
             | _ => 0.5
             end;
     reflectance := match ty with
                    | T_connector => -40
                    | _ => -99
                    end |}.

Definition handleAddEvent (events : list FiberEvent) (activeCut : option Q)
  (ty : EventType) (rnd : Q) (newId : string) : list FiberEvent :=
  let newEvent := newEventOf events activeCut ty rnd newId in
  match findIndex isEnd events with
  | Some endIndex => spliceInsert endIndex newEvent events
  | None => events ++ [newEvent]
  end.

(** The new value of [activeCut]. *)
Definition handleCutFiber (config : SimulationConfig) (events : list FiberEvent)
  (activeCut : option Q) : option Q :=
  match activeCut with
  | Some _ => None
  | None =>
    let endDist :=
      match find isEnd events with
      | Some e => js_or (distance e) (range config)
      | None => range config
      end in
    Some (endDist * 0.6)
  end.

(** The numeric fields the event editor writes. *)
Inductive NumericField : Type := F_distance | F_loss | F_reflectance.

(** [{ ...e, [field]: value }]. *)
Definition setField (e : FiberEvent) (field : NumericField) (value : Q) : FiberEvent :=
  match field with
  | F_distance => mkEvent (id e) (type e) value (loss e) (reflectance e)
  | F_loss => mkEvent (id e) (type e) (distance e) value (reflectance e)
  | F_reflectance => mkEvent (id e) (type e) (distance e) (loss e) value
  end.

Definition getField (e : FiberEvent) (field : NumericField) : Q :=
  match field with
  | F_distance => distance e
  | F_loss => loss e
  | F_reflectance => reflectance e
  end.

Definition handleUpdateEvent (events : list FiberEvent) (id0 : string)
  (field : NumericField) (value : Q) : list FiberEvent :=
  map (fun e => if String.eqb (id e) id0 then setField e field value else e) events.

Definition handleDeleteEvent (events : list FiberEvent) (id0 : string)
  : list FiberEvent :=
  if String.eqb id0 "start" || String.eqb id0 "end" then events
  else filter (fun e => negb (String.eqb (id e) id0)) events.

(** A call of one of the three editing handlers. *)
Inductive Edit : Type :=
  | AddEvent (ty : EventType) (rnd : Q) (newId : string)
  | UpdateEvent (id0 : string) (field : NumericField) (value : Q)
  | DeleteEvent (id0 : string).

Definition applyEdit (activeCut : option Q) (events : list FiberEvent) (ed : Edit)
  : list FiberEvent :=
  match ed with
  | AddEvent ty rnd newId => handleAddEvent events activeCut ty rnd newId
  | UpdateEvent id0 field value => handleUpdateEvent events id0 field value
  | DeleteEvent id0 => handleDeleteEvent events id0
  end.

(** [visualizationEvents]: the list the fiber view and the markers draw. *)
Definition visualCutEvent (d : Q) : FiberEvent :=
  mkEvent "active-cut" T_cut d 50 (-14).

Definition visualizationEvents (events : list FiberEvent) (activeCut : option Q)
  : list FiberEvent :=
  sortByDistance
    match activeCut with
    | Some d => filter (fun e => Qltb (distance e) d) events ++ [visualCutEvent d]
    | None => events
    end.

(** ** The graph view: zoom, scroll and cursor *)

Record ViewState : Type := mkView { view_start : Q; view_end : Q }.

Inductive ZoomDirection : Type := ZoomIn | ZoomOut.

Definition handleZoom (config : SimulationConfig) (viewState : ViewState)
  (direction : ZoomDirection) : ViewState :=
  let currentRange := view_end viewState - view_start viewState in
  let center := view_start viewState + currentRange / 2 in
  let newRange :=
    match direction with
    | ZoomIn => currentRange / 1.5
    | ZoomOut => currentRange * 1.5
    end in
  let newRange := if Qltb newRange 0.1 then 0.1 else newRange in
  let newRange := if Qgtb newRange (range config) then range config else newRange in
  let newStart := center - newRange / 2 in
  let newEnd := center + newRange / 2 in
  let bounds1 := if Qltb newStart 0 then (0, newRange) else (newStart, newEnd) in
  let bounds2 :=
    if Qgtb (snd bounds1) (range config)
    then (range config - newRange, range config) else bounds1 in
  let bounds3 :=
    if Qgeb newRange (range config) then (0, range config) else bounds2 in
  mkView (fst bounds3) (snd bounds3).

Definition handleScroll (config : SimulationConfig) (viewState : ViewState)
  (centerPerc : Q) : ViewState :=
  let currentRange := view_end viewState - view_start viewState in
  let rangeCenter := range config * centerPerc in
  let newStart := rangeCenter - currentRange / 2 in
  let newEnd := rangeCenter + currentRange / 2 in
  let bounds1 := if Qltb newStart 0 then (0, currentRange) else (newStart, newEnd) in
  let bounds2 :=
    if Qgtb (snd bounds1) (range config)
    then (range config - currentRange, range config) else bounds1 in
  mkView (fst bounds2) (snd bounds2).

Definition resetZoom (config : SimulationConfig) : ViewState :=
  mkView 0 (range config).

Definition GRAPH_WIDTH : Q := 1000.

Definition viewRange (viewState : ViewState) : Q :=
  view_end viewState - view_start viewState.

Definition xScale (viewState : ViewState) : Q := GRAPH_WIDTH / viewRange viewState.

Definition kmToPx (viewState : ViewState) (km : Q) : Q :=
  (km - view_start viewState) * xScale viewState.

(** [dist] of [handleChartMouseMove]: the pointer at [xPx] pixels from the
    left of a chart that is [rectWidth] pixels wide. *)
Definition cursorDistance (viewState : ViewState) (xPx rectWidth : Q) : Q :=
  (xPx / rectWidth) * viewRange viewState + view_start viewState.

(** [Math.min(Math.max(0, idx), traceData.length - 1)]. *)
Definition cursorIndex (config : SimulationConfig) (len : nat) (dist : Q) : Z :=
  let step := range config / 4000 in
  let idx := Qfloor (dist / step) in
  Z.min (Z.max 0 idx) (Z.of_nat len - 1).

(** [arr[i]] for an integer [i]: nothing at a negative index or past the
    end. *)
Definition arrayGet {A : Type} (l : list A) (i : Z) : option A :=
  if (i <? 0)%Z then None else nth_error l (Z.to_nat i).

(** The new value of [cursor]. *)
Definition handleChartMouseMove (config : SimulationConfig) (viewState : ViewState)
  (traceData : list TracePoint) (xPx rectWidth : Q) (cursor : option TracePoint)
  : option TracePoint :=
  let dist := cursorDistance viewState xPx rectWidth in
  match arrayGet traceData (cursorIndex config (length traceData) dist) with
  | Some point => Some (mkPoint dist (y point))
  | None => cursor
  end.

(** ** The physics panel *)

Definition pulseWidthS (config : SimulationConfig) : Q := pulseWidth config * 1e-9.
Definition speedOfLightFiber (config : SimulationConfig) : Q := 299792458 / ior config.
Definition pulseLengthM (config : SimulationConfig) : Q :=
  speedOfLightFiber config * pulseWidthS config.
Definition resolutionM (config : SimulationConfig) : Q := pulseLengthM config / 2.
Definition eventDeadZoneM (config : SimulationConfig) : Q := pulseLengthM config * 1.5.
Definition attenDeadZoneM (config : SimulationConfig) : Q := pulseLengthM config * 4.0.
Definition samplingResM (config : SimulationConfig) : Q := (range config * 1000) / 4000.

(** ** The status column of the analysis table *)

Inductive RowStatus : Type := EndOfFiber | Warn | Pass.

(** [isHighLoss]: [parseFloat] of the loss cell, which is [NaN] for the
    text of a cut. *)
Definition isHighLoss (r : AnalysisRecord) : bool :=
  match rec_loss r with
  | LossAbove50 => false
  | LossValue v => Qgtb (toFixed3 v) 0.8 && negb (EventType_eqb (rec_type r) T_cut)
  end.

Definition rowStatus (r : AnalysisRecord) : RowStatus :=
  if EventType_eqb (rec_type r) T_cut then EndOfFiber
  else if isHighLoss r then Warn else Pass.

(** The sum of the losses of a list of events. *)
Definition totalLoss (evs : list FiberEvent) : Q :=
  fold_right (fun e acc => loss e + acc) 0 evs.

(** The events that are not of type start. *)
Definition notStart (e : FiberEvent) : bool := negb (EventType_eqb (type e) T_start).

(** An animation frame as an action: the time since the start, the random
    source of its shot and that of the display effect after it. *)
Definition frameAction (f : Q * (nat -> Q) * (nat -> Q)) : Action * (nat -> Q) :=
  (Frame (fst (fst f)) (snd (fst f)), snd f).

(** ** The signal animation of the acquisition loop *)

Inductive SignalType : Type := S_pulse | S_reflection.

Record Signal : Type := mkSignal {
  sig_id : string;
  sig_x : Q;            (* percentage 0-100 *)
  direction : Z;        (* 1 = forward, -1 = backward *)
  sig_type : SignalType;
  opacity : Q
}.

(** The two references the loop keeps: [signalRef] and [nextPulseTime]. *)
Record SignalStore : Type := mkSignalStore {
  signalRef : list Signal;
  nextPulseTime : Q
}.

(** The test of the [filter] call. *)
Definition signalAlive (s : Signal) : bool :=
  Qgeb (sig_x s) 0 && Qle_bool (sig_x s) 100 && Qgtb (opacity s) 0.05.

(** The two assignments at the head of the [forEach] body. *)
Definition moveSignal (speed : Q) (s : Signal) : Signal :=
  mkSignal (sig_id s) (sig_x s + inject_Z (direction s) * speed) (direction s)
           (sig_type s) (opacity s - 0.002).

(** [eventsList], as the pairs (distance, reflectance) the loop reads. *)
Definition collisionEvents (events : list FiberEvent) (activeCut : option Q)
  : list (Q * Q) :=
  match activeCut with
  | Some d =>
    map (fun e => (distance e, reflectance e))
        (filter (fun e => Qltb (distance e) d) events) ++ [(d, -14)]
  | None => map (fun e => (distance e, reflectance e)) events
  end.

Definition isForwardPulse (s : Signal) : bool :=
  Z.eqb (direction s) 1
  && match sig_type s with S_pulse => true | S_reflection => false end.

(** The reflections the inner [forEach] pushes for the signal [s] (given
    before its move), each still waiting for its identifier. *)
Definition reflectionsAt (config : SimulationConfig) (eventsList : list (Q * Q))
  (speed : Q) (s : Signal) : list (string -> Signal) :=
  if isForwardPulse s then
    let moved := moveSignal speed s in
    let distKm := sig_x moved / 100 * range config in
    let oldDistKm := sig_x s / 100 * range config in
    map (fun (e : Q * Q) (newId : string) =>
           mkSignal newId (sig_x moved) (-1) S_reflection
                    (Qmin 1 ((snd e + 70) / 40)))
        (filter (fun e : Q * Q =>
                   Qgtb (snd e) (-60) && Qgeb (fst e) oldDistKm
                   && Qle_bool (fst e) distKm) eventsList)
  else [].

(** The outcome of the signal part of one frame: the references, the array
    given to [setSignals], and the array [signalRef] pointed to during the
    frame, which receives the pushes and is dropped by the assignment
    [signalRef.current = activeSignals]. *)
Record SignalFrame : Type := mkSignalFrame {
  sf_store : SignalStore;
  sf_signals : list Signal;
  sf_abandoned : list Signal
}.

(** [ids k] is the result of the k-th call of [generateId] in the frame. *)
Definition signalFrame (config : SimulationConfig) (events : list FiberEvent)
  (activeCut : option Q) (now dt : Q) (ids : nat -> string) (st : SignalStore)
  : SignalFrame :=
  let spawn := Qgtb now (nextPulseTime st) in
  let pushed :=
    if spawn then signalRef st ++ [mkSignal (ids 0%nat) 0 1 S_pulse 1]
    else signalRef st in
  let nextPulseTime' := if spawn then now + 800 else nextPulseTime st in
  let speed := 0.05 * (dt / 16) in
  let activeSignals := filter signalAlive pushed in
  let eventsList := collisionEvents events activeCut in
  let offset := if spawn then 1%nat else 0%nat in
  let reflections :=
    mapi (fun (mk : string -> Signal) k => mk (ids (offset + k)%nat))
         (flat_map (reflectionsAt config eventsList speed) activeSignals) in
  let moved := map (moveSignal speed) activeSignals in
  {| sf_store := mkSignalStore moved nextPulseTime';
     sf_signals := moved;
     sf_abandoned :=
       map (fun s => if signalAlive s then moveSignal speed s else s) pushed
       ++ reflections |}.

(** The store after a run of frames, each (now, dt, ids). *)
Definition runSignalFrames (config : SimulationConfig) (events : list FiberEvent)
  (activeCut : option Q) (frames : list (Q * Q * (nat -> string)))
  (st : SignalStore) : SignalStore :=
  fold_left
    (fun st f => sf_store (signalFrame config events activeCut
                                       (fst (fst f)) (snd (fst f)) (snd f) st))
    frames st.

(** A signal that is a pulse moving forward, as the loop spawns them, at an
    opacity of at most [top]. *)
Definition ForwardPulse (top : Q) (s : Signal) : Prop :=
  sig_type s = S_pulse /\ direction s = 1%Z /\ opacity s <= top.

(** ** Numbers with the non-finite values of the host language

    The shot once more, on numbers that can be infinite or NaN.  A finite
    number is still an exact rational: rounding, underflow and the sign
    of zero are left out.  What is kept is the range: an operation whose
    exact result lies beyond the largest double gives an infinity, and the
    arithmetic of infinities and NaN is that of the host language.  The
    fields of the configuration and of the events are finite numbers. *)

Inductive JsNum : Type :=
  | Fin (q : Q)
  | PInf
  | NInf
  | NaN.

(** The exact values from which rounding to nearest gives an infinity:
    2^1024 - 2^970 for a double, 2^128 - 2^103 for an element of a
    [Float32Array]. *)
Definition DOUBLE_LIMIT : Q := inject_Z (2 ^ 1024 - 2 ^ 970).
Definition FLOAT32_LIMIT : Q := inject_Z (2 ^ 128 - 2 ^ 103).

Definition rangeCheck (limit q : Q) : JsNum :=
  if Qle_bool limit q then PInf
  else if Qle_bool q (- limit) then NInf
  else Fin q.

(** The double that an exact result becomes. *)
Definition double (q : Q) : JsNum := rangeCheck DOUBLE_LIMIT q.

(** The store [yValues[i] = v] into a [Float32Array]. *)
Definition toFloat32 (v : JsNum) : JsNum :=
  match v with
  | Fin q => rangeCheck FLOAT32_LIMIT q
  | _ => v
  end.

Definition isFinite (v : JsNum) : bool :=
  match v with
  | Fin _ => true
  | _ => false
  end.

Definition infinityOfSign (positive : bool) : JsNum :=
  if positive then PInf else NInf.

Definition jneg (x : JsNum) : JsNum :=
  match x with
  | Fin q => Fin (- q)
  | PInf => NInf
  | NInf => PInf
  | NaN => NaN
  end.

Definition jadd (x y : JsNum) : JsNum :=
  match x, y with
  | Fin a, Fin b => double (a + b)
  | NaN, _ | _, NaN => NaN
  | PInf, NInf | NInf, PInf => NaN
  | PInf, _ | _, PInf => PInf
  | NInf, _ | _, NInf => NInf
  end.

Definition jsub (x y : JsNum) : JsNum :=
  match x, y with
  | Fin a, Fin b => double (a - b)
  | _, _ => jadd x (jneg y)
  end.

Definition jmul (x y : JsNum) : JsNum :=
  match x, y with
  | Fin a, Fin b => double (a * b)
  | NaN, _ | _, NaN => NaN
  | Fin a, PInf | PInf, Fin a =>
    if Qeq_bool a 0 then NaN else infinityOfSign (Qltb 0 a)
  | Fin a, NInf | NInf, Fin a =>
    if Qeq_bool a 0 then NaN else infinityOfSign (Qltb a 0)
  | PInf, PInf | NInf, NInf => PInf
  | PInf, NInf | NInf, PInf => NInf
  end.

(** A zero denominator is the positive zero. *)
Definition jdiv (x y : JsNum) : JsNum :=
  match x, y with
  | Fin a, Fin b =>
    if Qeq_bool b 0
    then (if Qeq_bool a 0 then NaN else infinityOfSign (Qltb 0 a))
    else double (a / b)
  | NaN, _ | _, NaN => NaN
  | Fin _, _ => Fin 0
  | PInf, Fin b => infinityOfSign (Qle_bool 0 b)
  | NInf, Fin b => infinityOfSign (Qltb b 0)
  | _, _ => NaN
  end.

(** [Math.pow(x, 4)]. *)
Definition jpow4 (x : JsNum) : JsNum :=
  match x with
  | Fin a => double (a ^ 4)
  | NaN => NaN
  | _ => PInf
  end.

(** [Math.max(x, y)]. *)
Definition jmax (x y : JsNum) : JsNum :=
  match x, y with
  | Fin a, Fin b => Fin (Qmax a b)
  | NaN, _ | _, NaN => NaN
  | PInf, _ | _, PInf => PInf
  | NInf, v | v, NInf => v
  end.

(** [x || d]: zero and NaN are the falsy numbers. *)
Definition jor (x d : JsNum) : JsNum :=
  match x with
  | Fin q => if Qeq_bool q 0 then d else x
  | NaN => d
  | _ => x
  end.

(** [x < y] and [x <= y]; a comparison with NaN is false. *)
Definition jlt (x y : JsNum) : bool :=
  match x, y with
  | Fin a, Fin b => Qltb a b
  | NaN, _ | _, NaN => false
  | NInf, NInf | PInf, _ => false
  | NInf, _ | _, PInf => true
  | _, NInf => false
  end.

Definition jle (x y : JsNum) : bool :=
  match x, y with
  | Fin a, Fin b => Qle_bool a b
  | NaN, _ | _, NaN => false
  | NInf, _ | _, PInf => true
  | _, _ => false
  end.

Definition jgt (x y : JsNum) : bool := jlt y x.
Definition jge (x y : JsNum) : bool := jle y x.

(** [Math.log10] of a finite number: NaN below zero, minus infinity at
    zero, and the value of the parameter [log10] above. *)
Definition Math_log10 (log10 : Q -> Q) (x : Q) : JsNum :=
  if Qltb x 0 then NaN
  else if Qeq_bool x 0 then NInf
  else Fin (log10 x).

(** [calculateSingleTrace] on these numbers, expression by expression. *)
Module Double.

Definition stepSize (config : SimulationConfig) : JsNum :=
  jdiv (Fin (range config)) (Fin (inject_Z (Z.of_nat numPoints))).

Definition pulseWidthSeconds (config : SimulationConfig) : JsNum :=
  jmul (Fin (pulseWidth config)) (Fin 1e-9).
Definition pulseLengthKm (config : SimulationConfig) : JsNum :=
  jdiv (jmul (Fin speedOfLightKmS) (pulseWidthSeconds config)) (Fin (ior config)).
Definition eventDeadZone (config : SimulationConfig) : JsNum :=
  jmul (pulseLengthKm config) (Fin 1.5).
Definition deadZoneDenominator (config : SimulationConfig) : JsNum :=
  jor (eventDeadZone config) (Fin 0.001).

Record LoopState : Type := mkLoop {
  currentPower : JsNum;
  eventIndex : nat;
  deadZoneActiveUntil : JsNum;
  powerAtSaturation : JsNum
}.

Definition initialLoopState : LoopState := mkLoop (Fin 0) 0 (Fin (-1)) (Fin 0).

Record Triggered : Type := mkTriggered {
  afterTrigger : LoopState;
  idealPower : JsNum;
  reflectionAdd : JsNum;
  justTriggeredEvent : bool
}.

Definition triggerEvent (config : SimulationConfig) (evs : list FiberEvent)
  (st : LoopState) (d : JsNum) : Triggered :=
  let idealPower :=
    jsub (currentPower st)
         (jmul (Fin (calculateAttenuation (wavelength config))) d) in
  match nth_error evs (eventIndex st) with
  | Some activeEvent =>
    if jge d (Fin (distance activeEvent)) then
      let currentPower' := jsub (currentPower st) (Fin (loss activeEvent)) in
      let idealPower' := jsub idealPower (Fin (loss activeEvent)) in
      if Qgtb (reflectance activeEvent) (-65) then
        let spikeHeight := jadd (Fin (reflectance activeEvent)) (Fin 75) in
        mkTriggered
          (mkLoop currentPower' (S (eventIndex st))
                  (jadd (Fin (distance activeEvent)) (eventDeadZone config))
                  (jadd idealPower' spikeHeight))
          idealPower' spikeHeight true
      else
        mkTriggered
          (mkLoop currentPower' (S (eventIndex st))
                  (deadZoneActiveUntil st) (powerAtSaturation st))
          idealPower' (Fin 0) true
    else mkTriggered st idealPower (Fin 0) false
  | None => mkTriggered st idealPower (Fin 0) false
  end.

Definition deadZoneBlend (config : SimulationConfig) (t : Triggered) (d : JsNum)
  : JsNum * LoopState :=
  let st := afterTrigger t in
  if jlt d (deadZoneActiveUntil st) then
    let remainingDist := jsub (deadZoneActiveUntil st) d in
    let ratio := jdiv remainingDist (deadZoneDenominator config) in
    let decay := jmul (jpow4 ratio) (jsub (powerAtSaturation st) (idealPower t)) in
    (jadd (idealPower t) decay, st)
  else
    (idealPower t,
     mkLoop (currentPower st) (eventIndex st) (Fin (-1)) (powerAtSaturation st)).

Definition traceValueOf (config : SimulationConfig) (t : Triggered)
  (blended : JsNum) (d : JsNum) (effectiveEnd : Q) : JsNum :=
  let traceValue :=
    if justTriggeredEvent t then jadd blended (reflectionAdd t) else blended in
  if jgt d (Fin effectiveEnd) then Fin (noiseFloor config) else traceValue.

Definition addNoise (config : SimulationConfig) (noiseAmplitude : JsNum)
  (traceValue : JsNum) (rnd : Q) : JsNum :=
  let noise := jmul (jsub (Fin rnd) (Fin 0.5)) noiseAmplitude in
  let finalPower := jadd traceValue noise in
  if jlt finalPower (Fin (noiseFloor config))
  then jadd (Fin (noiseFloor config)) noise
  else finalPower.

Definition sampleDistance (config : SimulationConfig) (i : nat) : JsNum :=
  jmul (Fin (inject_Z (Z.of_nat i))) (stepSize config).

Definition sampleStep (config : SimulationConfig) (evs : list FiberEvent)
  (effectiveEnd : Q) (st : LoopState) (i : nat) : LoopState * JsNum :=
  let d := sampleDistance config i in
  let t := triggerEvent config evs st d in
  let (blended, st') := deadZoneBlend config t d in
  (st', traceValueOf config t blended d effectiveEnd).

Section Engine.

Variable log10 : Q -> Q.

Definition noiseReductionFactor (config : SimulationConfig) : JsNum :=
  jdiv (Math_log10 log10 (pulseWidth config)) (Fin 2).

Definition noiseAmplitude (config : SimulationConfig) : JsNum :=
  jmax (Fin 0.5) (jdiv (Fin baseNoiseAmp) (jor (noiseReductionFactor config) (Fin 1))).

(** The sample loop; each value is stored into the [Float32Array]. *)
Fixpoint traceLoop (config : SimulationConfig) (evs : list FiberEvent)
  (effectiveEnd : Q) (rnd : nat -> Q) (n i : nat) (st : LoopState)
  : list JsNum :=
  match n with
  | O => []
  | S n' =>
    let (st', traceValue) := sampleStep config evs effectiveEnd st i in
    toFloat32 (addNoise config (noiseAmplitude config) traceValue (rnd i))
      :: traceLoop config evs effectiveEnd rnd n' (S i) st'
  end.

Definition calculateSingleTrace (config : SimulationConfig)
  (events : list FiberEvent) (activeCut : option Q) (rnd : nat -> Q)
  : list JsNum :=
  traceLoop config (sortedEvents events activeCut)
            (effectiveEndDistance config events activeCut)
            rnd numPoints 0 initialLoopState.

End Engine.

End Double.

(** A loop state of finite numbers. *)
Definition finiteState (st : LoopState) : Double.LoopState :=
  Double.mkLoop (Fin (currentPower st)) (eventIndex st)
                (Fin (deadZoneActiveUntil st)) (Fin (powerAtSaturation st)).

(** The sum of the magnitudes of the losses of a list of events. *)
Definition totalAbsLoss (evs : list FiberEvent) : Q :=
  fold_right (fun e acc => Qabs (loss e) + acc) 0 evs.

(** Inputs of moderate size: magnitudes of at most 10^6, an index of
    refraction of at least 10^-6, and a value of [Math.log10] at the pulse
    width that is zero or of a magnitude between 10^-20 and 10^6. *)
Definition ModerateInputs (log10 : Q -> Q) (config : SimulationConfig)
  (events : list FiberEvent) (activeCut : option Q) : Prop :=
  range config <= 1000000 /\
  pulseWidth config <= 1000000 /\
  (1 # 1000000) <= ior config /\
  -1000000 <= noiseFloor config /\
  Forall (fun e => (-1000000 <= distance e /\ distance e <= 1000000) /\
                   (-1000000 <= reflectance e /\ reflectance e <= 1000000))
         events /\
  totalAbsLoss events <= 1000000 /\
  (forall d, activeCut = Some d -> -1000000 <= d /\ d <= 1000000) /\
  (log10 (pulseWidth config) == 0 \/
   log10 (pulseWidth config) <= - (1 # 100000000000000000000) \/
   (1 # 100000000000000000000) <= log10 (pulseWidth config)) /\
  (-1000000 <= log10 (pulseWidth config) /\
   log10 (pulseWidth config) <= 1000000).

(** The bound below which the proofs keep every intermediate result:
    10^30, inside the range of a double and of a [Float32Array] element. *)
Definition BIG : Q := 1000000000000000000000000000000.

Definition Small (q : Q) : Prop := - BIG <= q /\ q <= BIG.

(** The outcome of the event test, in finite numbers. *)
Definition finiteTriggered (t : Triggered) : Double.Triggered :=
  Double.mkTriggered (finiteState (afterTrigger t)) (Fin (idealPower t))
                     (Fin (reflectionAdd t)) (justTriggeredEvent t).

(** What the proofs know of a loop state on entry of iteration [i]. *)
Definition ModerateState (cfg : SimulationConfig) (st : LoopState) (i : nat) : Prop :=
  (-1000050 <= currentPower st /\ currentPower st <= 1000050) /\
  (-10000000 <= powerAtSaturation st /\ powerAtSaturation st <= 10000000) /\
  deadZoneActiveUntil st <= sampleDistance cfg i + eventDeadZone cfg.

(** What they know of the outcome of the event test of iteration [i]. *)
Definition ModerateTriggered (cfg : SimulationConfig) (t : Triggered) (i : nat)
  : Prop :=
  (-10000000 <= powerAtSaturation (afterTrigger t) /\
   powerAtSaturation (afterTrigger t) <= 10000000) /\
  deadZoneActiveUntil (afterTrigger t)
  <= sampleDistance cfg i + eventDeadZone cfg /\
  (-2350100 <= idealPower t /\ idealPower t <= 2350100) /\
  (-1000075 <= reflectionAdd t /\ reflectionAdd t <= 1000075).

(** The initial topology with losses of 1e308 dB at its first two
    events. *)
Definition hugeLossEvents : list FiberEvent :=
  [ mkEvent "start" T_start 0 (inject_Z (10 ^ 308)) (-35);
    mkEvent "e1" T_splice 5.2 (inject_Z (10 ^ 308)) (-99);
    mkEvent "e2" T_connector 12.5 0.5 (-40);
    mkEvent "end" T_end 18.0 0 (-14) ].

(** Case analysis on the next comparison of a ladder rung in the goal. *)
Ltac ladder_case E :=
  match goal with
  | |- context [Qgtb ?r ?t] => destruct (Qgtb r t) eqn:E
  end.

(** * Properties *)

(** ** Comparisons and the zero guard *)

Lemma Qgtb_true a b : Qgtb a b = true <-> b < a.
Proof.
  unfold Qgtb. rewrite negb_true_iff. split; intro H.
  - apply Qnot_le_lt. intro Hle. apply Qle_bool_iff in Hle. congruence.
  - destruct (Qle_bool a b) eqn:E; [|reflexivity].
    apply Qle_bool_iff in E. exfalso. apply (Qlt_not_le _ _ H E).
Qed.

Lemma Qgtb_false a b : Qgtb a b = false <-> a <= b.
Proof. unfold Qgtb. rewrite negb_false_iff. apply Qle_bool_iff. Qed.

Lemma Qltb_true a b : Qltb a b = true <-> a < b.
Proof. unfold Qltb. apply (Qgtb_true b a). Qed.

Lemma Qltb_false a b : Qltb a b = false <-> b <= a.
Proof. unfold Qltb. apply (Qgtb_false b a). Qed.

Lemma Qgeb_true a b : Qgeb a b = true <-> b <= a.
Proof. unfold Qgeb. apply Qle_bool_iff. Qed.

Lemma Qgeb_false a b : Qgeb a b = false <-> a < b.
Proof.
  unfold Qgeb. split; intro H.
  - apply Qnot_le_lt. intro Hle. apply Qle_bool_iff in Hle. congruence.
  - destruct (Qle_bool b a) eqn:E; [|reflexivity].
    apply Qle_bool_iff in E. exfalso. apply (Qlt_not_le _ _ H E).
Qed.

Lemma Qle_bool_false a b : Qle_bool a b = false <-> b < a.
Proof. apply (Qgeb_false b a). Qed.

Lemma js_or_nonzero v d : ~ d == 0 -> ~ js_or v d == 0.
Proof.
  intros Hd. unfold js_or. destruct (Qeq_bool v 0) eqn:E; [exact Hd|].
  apply Qeq_bool_neq. exact E.
Qed.

Lemma EventType_eqb_eq a b : EventType_eqb a b = true <-> a = b.
Proof. destruct a, b; simpl; split; intro H; congruence. Qed.

Lemma calculateAttenuation_pos w : 0 < calculateAttenuation w.
Proof. unfold calculateAttenuation. destruct (Z.eqb w 1310); reflexivity. Qed.

(** ** The sort *)

Lemma insertByDistance_In e a l :
  In e (insertByDistance a l) <-> e = a \/ In e l.
Proof.
  induction l as [|h t IH]; simpl.
  - intuition congruence.
  - destruct (Qle_bool (distance a) (distance h)); simpl.
    + intuition congruence.
    + rewrite IH. intuition congruence.
Qed.

Lemma sortByDistance_In e l : In e (sortByDistance l) <-> In e l.
Proof.
  induction l as [|a t IH]; simpl; [tauto|].
  rewrite insertByDistance_In, IH. intuition congruence.
Qed.

Lemma insertByDistance_sorted a l :
  StronglySorted dle l -> StronglySorted dle (insertByDistance a l).
Proof.
  induction 1 as [|h t Hs IH Hall]; simpl.
  - constructor; constructor.
  - destruct (Qle_bool (distance a) (distance h)) eqn:E.
    + apply Qle_bool_iff in E. constructor.
      * constructor; assumption.
      * constructor; [exact E|].
        eapply Forall_impl; [|exact Hall].
        intros b Hb. unfold dle in *. eapply Qle_trans; eassumption.
    + apply Qle_bool_false in E. constructor; [exact IH|].
      apply Forall_forall. intros b Hb.
      apply insertByDistance_In in Hb. destruct Hb as [->|Hb].
      * unfold dle. apply Qlt_le_weak. exact E.
      * rewrite Forall_forall in Hall. apply Hall. exact Hb.
Qed.

Lemma sortByDistance_sorted l : StronglySorted dle (sortByDistance l).
Proof.
  induction l as [|a t IH]; simpl; [constructor|].
  apply insertByDistance_sorted. exact IH.
Qed.

Lemma insertByDistance_first a l :
  Forall (dle a) l -> insertByDistance a l = a :: l.
Proof.
  destruct l as [|h t]; simpl; [reflexivity|].
  intro H. inversion H as [|? ? Hh Ht]; subst.
  apply Qle_bool_iff in Hh. rewrite Hh. reflexivity.
Qed.

Lemma insertByDistance_snoc a c l :
  distance a < distance c ->
  insertByDistance a (l ++ [c]) = insertByDistance a l ++ [c].
Proof.
  intro Hac. induction l as [|h t IH]; simpl.
  - assert (E : Qle_bool (distance a) (distance c) = true)
      by (apply Qle_bool_iff, Qlt_le_weak, Hac).
    rewrite E. reflexivity.
  - destruct (Qle_bool (distance a) (distance h)); simpl; [reflexivity|].
    rewrite IH. reflexivity.
Qed.

(** An element that lies beyond all others stays last. *)
Lemma sortByDistance_snoc c l :
  Forall (fun a => distance a < distance c) l ->
  sortByDistance (l ++ [c]) = sortByDistance l ++ [c].
Proof.
  induction 1 as [|a t Ha Ht IH]; simpl; [reflexivity|].
  rewrite IH. apply insertByDistance_snoc. exact Ha.
Qed.

Lemma filter_insertByDistance (p : FiberEvent -> bool) a l :
  StronglySorted dle l ->
  filter p (insertByDistance a l) =
  if p a then insertByDistance a (filter p l) else filter p l.
Proof.
  induction 1 as [|h t Hs IH Hall]; simpl.
  - destruct (p a); reflexivity.
  - destruct (Qle_bool (distance a) (distance h)) eqn:E; simpl.
    + destruct (p a) eqn:Pa; [|reflexivity].
      destruct (p h) eqn:Ph; simpl.
      * rewrite E. reflexivity.
      * symmetry. apply insertByDistance_first.
        apply Qle_bool_iff in E.
        apply Forall_forall. intros b Hb. apply filter_In in Hb.
        rewrite Forall_forall in Hall. unfold dle in *.
        eapply Qle_trans; [exact E|]. apply Hall. tauto.
    + rewrite IH. destruct (p h) eqn:Ph; simpl.
      * destruct (p a); [|reflexivity]. rewrite E. reflexivity.
      * reflexivity.
Qed.

(** Filtering commutes with the sort: the two consumers, which filter before
    and after sorting, keep the same events in the same order. *)
Lemma filter_sortByDistance (p : FiberEvent -> bool) l :
  filter p (sortByDistance l) = sortByDistance (filter p l).
Proof.
  induction l as [|a t IH]; simpl; [reflexivity|].
  rewrite filter_insertByDistance by apply sortByDistance_sorted.
  rewrite IH. destruct (p a); reflexivity.
Qed.

(** ** The analyzer *)

(** The [for] loop of [analyzeTrace] is [analyzeFrom]. *)
Lemma analyze_fold coeff rest : forall pre prev tot det,
  (if Nat.eqb (length pre) 0 then 0
   else match nth_error (pre ++ rest) (length pre - 1) with
        | Some p => distance p
        | None => 0
        end) = prev ->
  snd (fold_left (analyzeStep coeff (pre ++ rest))
                 (seq (length pre) (length rest)) (tot, det)) =
  det ++ analyzeFrom coeff (length pre) prev tot rest.
Proof.
  induction rest as [|e rest IH]; intros pre prev tot det Hprev; simpl.
  - rewrite app_nil_r. reflexivity.
  - assert (Hnth : nth_error (pre ++ e :: rest) (length pre) = Some e).
    { rewrite nth_error_app2 by lia. rewrite Nat.sub_diag. reflexivity. }
    assert (Hnext :
      (if Nat.eqb (length (pre ++ [e])) 0 then 0
       else match nth_error ((pre ++ [e]) ++ rest) (length (pre ++ [e]) - 1) with
            | Some p => distance p
            | None => 0
            end) = distance e).
    { rewrite length_app. simpl.
      replace (length pre + 1 - 1)%nat with (length pre) by lia.
      rewrite <- app_assoc. simpl. rewrite Hnth.
      destruct (Nat.eqb (length pre + 1) 0) eqn:E; [|reflexivity].
      apply Nat.eqb_eq in E. lia. }
    specialize (IH (pre ++ [e]) (distance e)).
    rewrite <- app_assoc in IH. simpl in IH.
    rewrite length_app in IH. simpl in IH.
    replace (length pre + 1)%nat with (S (length pre)) in IH by lia.
    unfold analyzeStep at 2. rewrite Hnth.
    destruct (EventType_eqb (type e) T_start) eqn:Es.
    + apply IH. rewrite <- Hnext. rewrite length_app. simpl.
      replace (length pre + 1)%nat with (S (length pre)) by lia.
      rewrite <- app_assoc. reflexivity.
    + cbv zeta. simpl fst. simpl snd. rewrite Hprev.
      rewrite IH.
      * rewrite <- app_assoc. reflexivity.
      * rewrite <- Hnext. rewrite length_app. simpl.
        replace (length pre + 1)%nat with (S (length pre)) by lia.
        rewrite <- app_assoc. reflexivity.
Qed.

Lemma analyzeTrace_unfold cfg evs cut :
  analyzeTrace cfg evs cut =
  analyzeFrom (calculateAttenuation (wavelength cfg)) 0 0 0 (actualEvents evs cut).
Proof.
  unfold analyzeTrace. cbv zeta.
  apply (analyze_fold (calculateAttenuation (wavelength cfg))
                      (actualEvents evs cut) [] 0 0 []).
  reflexivity.
Qed.

Lemma last_cons_default {A : Type} (l : list A) : forall (a d : A),
  last (a :: l) d = last l a.
Proof.
  induction l as [|b r IH]; intros a d; [reflexivity|].
  change (last (a :: b :: r) d) with (last (b :: r) d).
  rewrite (IH b d), (IH b a). reflexivity.
Qed.

(** Splitting the loop at an array position. *)
Lemma analyzeFrom_app coeff l2 : forall l1 i prev tot,
  analyzeFrom coeff i prev tot (l1 ++ l2) =
  analyzeFrom coeff i prev tot l1 ++
  analyzeFrom coeff (i + length l1)
    (last (map distance l1) prev)
    (last (map rec_cumLoss (analyzeFrom coeff i prev tot l1)) tot) l2.
Proof.
  induction l1 as [|e t IH]; intros i prev tot.
  - simpl. rewrite Nat.add_0_r. reflexivity.
  - cbn [app analyzeFrom length map].
    replace (i + S (length t))%nat with (S i + length t)%nat by lia.
    rewrite last_cons_default.
    destruct (EventType_eqb (type e) T_start).
    + apply IH.
    + cbv zeta. rewrite IH. cbn [app map]. rewrite last_cons_default.
      reflexivity.
Qed.

Lemma section_loss_nonneg coeff prev d :
  0 <= coeff -> prev <= d -> 0 <= (d - prev) * coeff.
Proof.
  intros Hc Hd. apply Qmult_le_0_compat; [|exact Hc]. lra.
Qed.

(** Past the first array element every step adds a non-negative amount. *)
Lemma analyzeFrom_mono coeff : 0 <= coeff -> forall evs i prev tot,
  StronglySorted dle evs ->
  Forall (fun e => prev <= distance e) evs ->
  Forall (fun e => 0 <= loss e) evs ->
  Forall (fun c => tot <= c) (map rec_cumLoss (analyzeFrom coeff i prev tot evs)) /\
  StronglySorted Qle (map rec_cumLoss (analyzeFrom coeff i prev tot evs)).
Proof.
  intros Hc. induction evs as [|e rest IH]; intros i prev tot Hs Hprev Hloss.
  - simpl. split; constructor.
  - inversion Hs as [|? ? Hs' Hall]; subst.
    inversion Hprev as [|? ? Hpe Hprest]; subst.
    inversion Hloss as [|? ? Hle Hlrest]; subst.
    simpl. destruct (EventType_eqb (type e) T_start).
    + apply IH; assumption.
    + cbv zeta. set (t' := tot + loss e + (distance e - prev) * coeff).
      assert (Ht : tot <= t').
      { pose proof (section_loss_nonneg coeff prev (distance e) Hc Hpe).
        unfold t'. lra. }
      destruct (IH (S i) (distance e) t' Hs' Hall Hlrest) as [Hge Hsorted].
      simpl. split.
      * constructor; [exact Ht|].
        eapply Forall_impl; [|exact Hge]. intros c Hcge. cbv beta in *. lra.
      * constructor; assumption.
Qed.

Lemma analyzeFrom_locations coeff : forall evs i prev tot,
  StronglySorted dle evs ->
  Forall (fun e => prev <= distance e) evs ->
  Forall (fun c => prev <= c) (map rec_location (analyzeFrom coeff i prev tot evs)) /\
  StronglySorted Qle (map rec_location (analyzeFrom coeff i prev tot evs)).
Proof.
  induction evs as [|e rest IH]; intros i prev tot Hs Hprev.
  - simpl. split; constructor.
  - inversion Hs as [|? ? Hs' Hall]; subst.
    inversion Hprev as [|? ? Hpe Hprest]; subst.
    simpl. destruct (EventType_eqb (type e) T_start).
    + destruct (IH (S i) (distance e) tot Hs' Hall) as [Hge Hsorted].
      split; [|exact Hsorted].
      eapply Forall_impl; [|exact Hge]. intros c Hcge. cbv beta in *. lra.
    + cbv zeta.
      destruct (IH (S i) (distance e)
                   (tot + loss e + (distance e - prev) * coeff) Hs' Hall)
        as [Hge Hsorted].
      simpl. split.
      * constructor; [exact Hpe|].
        eapply Forall_impl; [|exact Hge]. intros c Hcge. cbv beta in *. lra.
      * constructor; assumption.
Qed.

Lemma actualEvents_loss evs cut :
  (forall e, In e evs -> 0 <= loss e) ->
  Forall (fun e => 0 <= loss e) (actualEvents evs cut).
Proof.
  intros H. apply Forall_forall. intros e He.
  unfold actualEvents in He. apply (proj1 (sortByDistance_In _ _)) in He.
  destruct cut as [d|]; [|apply H; exact He].
  apply in_app_or in He. destruct He as [He|He].
  - apply filter_In in He. apply H. tauto.
  - destruct He as [<-|[]]. simpl. lra.
Qed.

Lemma StronglySorted_tail_sorted (R : FiberEvent -> FiberEvent -> Prop) e l :
  StronglySorted R (e :: l) -> StronglySorted R l /\ Forall (R e) l.
Proof. intro H. inversion H; subst. split; assumption. Qed.

(** C6: when every event of the topology has a non-negative loss, the
    cumulative-loss column of the analysis table never decreases from one
    record to the next, and the records come in ascending distance. *)
Theorem cumulative_loss_nondecreasing cfg evs cut :
  (forall e, In e evs -> 0 <= loss e) ->
  StronglySorted Qle (map rec_cumLoss (analyzeTrace cfg evs cut)) /\
  StronglySorted Qle (map rec_location (analyzeTrace cfg evs cut)).
Proof.
  intros Hloss. rewrite analyzeTrace_unfold.
  pose proof (sortByDistance_sorted
    match cut with
    | Some d => filter (fun e => Qltb (distance e) d) evs ++ [analyzerCutEvent d]
    | None => evs
    end) as Hs.
  pose proof (actualEvents_loss evs cut Hloss) as Hl.
  fold (actualEvents evs cut) in Hs.
  assert (Hc : 0 <= calculateAttenuation (wavelength cfg))
    by (apply Qlt_le_weak, calculateAttenuation_pos).
  destruct (actualEvents evs cut) as [|e rest]; [split; constructor|].
  apply StronglySorted_tail_sorted in Hs. destruct Hs as [Hs Hall].
  inversion Hl as [|? ? Hle Hlrest]; subst.
  simpl. destruct (EventType_eqb (type e) T_start).
  - split.
    + apply analyzeFrom_mono; assumption.
    + apply analyzeFrom_locations; assumption.
  - cbv zeta. simpl. split.
    + constructor; apply analyzeFrom_mono; assumption.
    + constructor; [apply analyzeFrom_locations; assumption|].
      eapply Forall_impl;
        [|apply (analyzeFrom_locations _ rest 1%nat (distance e)); assumption].
      intros c Hcge. exact Hcge.
Qed.

(** The initial topology, cut at 10 km, meets the premise of C6. *)
Lemma cumulative_loss_nondecreasing_witness :
  (forall e, In e initialEvents -> 0 <= loss e) /\
  StronglySorted Qle (map rec_cumLoss (analyzeTrace initialConfig initialEvents (Some 10))).
Proof.
  assert (H : forall e, In e initialEvents -> 0 <= loss e).
  { intros e He. simpl in He.
    destruct He as [<-|[<-|[<-|[<-|[]]]]]; simpl; unfold Qle; simpl; lia. }
  split; [exact H|].
  exact (proj1 (cumulative_loss_nondecreasing initialConfig initialEvents (Some 10) H)).
Defined.

(** C5: for the topology start@0 (loss 0.5), splice@5.2 (loss 0.1),
    connector@12.5 (loss 0.5), end@18 (loss 0) at 1550 nm (0.20 dB/km)
    without a cut, whatever the identifiers and reflectances, the table
    has one record per non-start event and the cumulative loss at the end
    record is 4.20 dB; each record adds its loss and the section loss
    since the previous event, and the 0.5 dB of the start event is not
    counted. *)
Theorem cumulative_loss_reference_scenario :
  forall (cfg : SimulationConfig) (i0 i1 i2 i3 : string) (f0 f1 f2 f3 : Q),
  let topology := [ mkEvent i0 T_start 0 0.5 f0; mkEvent i1 T_splice 5.2 0.1 f1;
                    mkEvent i2 T_connector 12.5 0.5 f2; mkEvent i3 T_end 18 0 f3 ] in
  let at1550 := mkConfig (range cfg) (pulseWidth cfg) 1550 (ior cfg)
                  (averaging cfg) (noiseFloor cfg) (autoMode cfg)
                  (testDuration cfg) in
  calculateAttenuation (wavelength at1550) == 0.20 /\
  exists r1 r2 r3,
    analyzeTrace at1550 topology None = [r1; r2; r3] /\
    (rec_type r1 = T_splice /\ rec_cumLoss r1 == 0.1 + (5.2 - 0) * 0.20) /\
    (rec_type r2 = T_connector /\
     rec_cumLoss r2 == rec_cumLoss r1 + 0.5 + (12.5 - 5.2) * 0.20) /\
    (rec_type r3 = T_end /\
     rec_cumLoss r3 == rec_cumLoss r2 + 0 + (18 - 12.5) * 0.20) /\
    rec_cumLoss r3 == 4.20.
Proof.
  intros cfg i0 i1 i2 i3 f0 f1 f2 f3 topology at1550.
  split; [reflexivity|].
  rewrite analyzeTrace_unfold.
  unfold actualEvents, topology. cbn.
  do 3 eexists. split; [reflexivity|].
  cbn. repeat split; reflexivity.
Qed.

(** C3 (as the code has it): with a cut at distance [d] the synthesizer
    and the analyzer work on the same kept events, those at a distance
    below [d] in ascending order, followed by one synthetic cut event at
    [d] with reflectance -14.  The synthesizer gives that event a loss of
    50 dB, the analyzer a loss of 0 dB: the cut record shows the text
    "> 50.0" and its cumulative loss is the total before the cut plus the
    attenuation of the last section only. *)
Theorem cut_overlay_consumers :
  forall (cfg : SimulationConfig) (evs : list FiberEvent) (d : Q),
  let below := filter (fun e => Qltb (distance e) d) evs in
  let kept := sortByDistance below in
  let coeff := calculateAttenuation (wavelength cfg) in
  sortedEvents evs (Some d) = kept ++ [synthCutEvent d] /\
  actualEvents evs (Some d) = kept ++ [analyzerCutEvent d] /\
  (forall e, In e kept <-> In e evs /\ distance e < d) /\
  (distance (synthCutEvent d) = d /\ loss (synthCutEvent d) == 50 /\
   reflectance (synthCutEvent d) == -14) /\
  (distance (analyzerCutEvent d) = d /\ loss (analyzerCutEvent d) == 0 /\
   reflectance (analyzerCutEvent d) == -14) /\
  exists r,
    analyzeTrace cfg evs (Some d) = analyzeTrace cfg below None ++ [r] /\
    rec_type r = T_cut /\ rec_location r = d /\ rec_loss r = LossAbove50 /\
    rec_cumLoss r ==
      last (map rec_cumLoss (analyzeTrace cfg below None)) 0
      + (d - last (map distance kept) 0) * coeff.
Proof.
  intros cfg evs d below kept coeff.
  assert (Hact : actualEvents evs (Some d) = kept ++ [analyzerCutEvent d]).
  { unfold actualEvents. apply sortByDistance_snoc.
    apply Forall_forall. intros a Ha. apply filter_In in Ha.
    destruct Ha as [_ Ha]. apply Qltb_true in Ha. exact Ha. }
  split; [|split; [exact Hact|split; [|split; [|split]]]].
  - unfold sortedEvents. cbv zeta. rewrite filter_sortByDistance. reflexivity.
  - intro e. unfold kept, below.
    rewrite sortByDistance_In, filter_In, Qltb_true. tauto.
  - simpl. repeat split; reflexivity.
  - simpl. repeat split; reflexivity.
  - rewrite !analyzeTrace_unfold, Hact.
    change (actualEvents below None) with kept.
    rewrite analyzeFrom_app. fold coeff.
    cbn [analyzeFrom analyzerCutEvent type EventType_eqb].
    eexists. split; [reflexivity|].
    cbn. repeat split; try reflexivity.
    fold coeff. lra.
Qed.

(** C3, the claim as written fails: on the initial topology cut at 10 km
    the analyzer's cut record carries a cumulative loss of 2.1 dB, which is
    the 1.14 dB of the splice record plus 4.8 km of fiber at 0.20 dB/km;
    no event of the analyzer's list has the 50 dB loss. *)
Lemma cut_loss_not_in_cumulative_column :
  map (fun r => (rec_type r, rec_loss r, Qred (rec_cumLoss r)))
      (analyzeTrace initialConfig initialEvents (Some 10))
  = [ (T_splice, LossValue 0.1, Qred 1.14); (T_cut, LossAbove50, Qred 2.1) ] /\
  ~ (exists e, In e (actualEvents initialEvents (Some 10)) /\ loss e == 50) /\
  (exists e, In e (sortedEvents initialEvents (Some 10)) /\ loss e == 50).
Proof.
  split; [vm_compute; reflexivity|]. split.
  - intros [e [He Hl]]. vm_compute in He.
    destruct He as [<-|[<-|[<-|[]]]]; vm_compute in Hl; discriminate.
  - exists (synthCutEvent 10). split; [vm_compute; tauto|reflexivity].
Qed.

(** ** Auto mode *)

Lemma autoMaxDist_min evs cut :
  autoMaxDist evs cut ==
  let endDistance :=
    match find isEnd evs with Some e => distance e | None => 0 end in
  match cut with
  | Some d => Qmin endDistance d
  | None => endDistance
  end.
Proof.
  unfold autoMaxDist. cbv zeta.
  destruct cut as [d|]; [|reflexivity].
  set (m := match find isEnd evs with Some e => distance e | None => 0 end).
  destruct (Qltb d m) eqn:E.
  - apply Qltb_true in E. symmetry. apply Q.min_r. lra.
  - apply Qltb_false in E. symmetry. apply Q.min_l. exact E.
Qed.

(** The range the effect picks is the smallest rung of the ladder above
    1.2 times [m], or 300 when no rung is above. *)
Lemma bestRange_spec m :
  (In (bestRange m) availableRanges /\ m * 1.2 < bestRange m /\
   forall r', In r' availableRanges -> m * 1.2 < r' -> bestRange m <= r')
  \/ ((forall r', In r' availableRanges -> r' <= m * 1.2) /\ bestRange m = 300).
Proof.
  unfold bestRange, availableRanges. cbn [find].
  ladder_case E5; [|ladder_case E10; [|ladder_case E20; [|ladder_case E40;
    [|ladder_case E80; [|ladder_case E160; [|ladder_case E300]]]]]];
  repeat match goal with
         | H : Qgtb _ _ = true |- _ => apply Qgtb_true in H
         | H : Qgtb _ _ = false |- _ => apply Qgtb_false in H
         end;
  try (left; cbn;
       split; [simpl; tauto|split; [assumption|]];
       intros r' Hr' Hgt; simpl in Hr';
       repeat (destruct Hr' as [<-|Hr']; [lra|]); destruct Hr').
  right. split; [|reflexivity].
  intros r' Hr'. simpl in Hr'.
  repeat (destruct Hr' as [<-|Hr']; [assumption|]). destruct Hr'.
Qed.

Lemma bestPulse_table r :
  (r <= 5 -> bestPulse r = 10) /\
  (5 < r -> r <= 20 -> bestPulse r = 100) /\
  (20 < r -> r <= 40 -> bestPulse r = 500) /\
  (40 < r -> r <= 80 -> bestPulse r = 1000) /\
  (80 < r -> r <= 160 -> bestPulse r = 10000) /\
  (160 < r -> bestPulse r = 20000).
Proof.
  unfold bestPulse.
  destruct (Qle_bool r 5) eqn:E5; [apply Qle_bool_iff in E5|apply Qle_bool_false in E5];
  (destruct (Qle_bool r 20) eqn:E20; [apply Qle_bool_iff in E20|apply Qle_bool_false in E20]);
  (destruct (Qle_bool r 40) eqn:E40; [apply Qle_bool_iff in E40|apply Qle_bool_false in E40]);
  (destruct (Qle_bool r 80) eqn:E80; [apply Qle_bool_iff in E80|apply Qle_bool_false in E80]);
  (destruct (Qle_bool r 160) eqn:E160;
   [apply Qle_bool_iff in E160|apply Qle_bool_false in E160]);
  repeat split; intros; try reflexivity; exfalso; lra.
Qed.

(** C4: for every topology and optional cut, with [m] the distance of the
    end event lowered to the cut distance when a cut lies before it, the
    effect selects the smallest of 5, 10, 20, 40, 80, 160, 300 km that is
    strictly above 1.2 m, or 300 when none is, and pairs it with the pulse
    width of the step table; for m = 18 km (1.2 m = 21.6 km) the selection
    is 40 km with 500 ns. *)
Theorem auto_range_selection :
  forall (evs : list FiberEvent) (cut : option Q),
  let m := autoMaxDist evs cut in
  let r := fst (autoSelect evs cut) in
  let p := snd (autoSelect evs cut) in
  (forall e, find isEnd evs = Some e ->
     m == match cut with Some d => Qmin (distance e) d | None => distance e end) /\
  ((In r availableRanges /\ m * 1.2 < r /\
    forall r', In r' availableRanges -> m * 1.2 < r' -> r <= r')
   \/ ((forall r', In r' availableRanges -> r' <= m * 1.2) /\ r = 300)) /\
  ((r <= 5 -> p = 10) /\ (5 < r -> r <= 20 -> p = 100) /\
   (20 < r -> r <= 40 -> p = 500) /\ (40 < r -> r <= 80 -> p = 1000) /\
   (80 < r -> r <= 160 -> p = 10000) /\ (160 < r -> p = 20000)) /\
  In (r, p) [(5, 10); (10, 100); (20, 100); (40, 500); (80, 1000);
             (160, 10000); (300, 20000)] /\
  (m == 18 -> r = 40 /\ p = 500) /\
  autoSelect initialEvents None = (40, 500).
Proof.
  intros evs cut m r p.
  assert (Hr : r = bestRange m) by reflexivity.
  assert (Hp : p = bestPulse r) by reflexivity.
  split; [|split; [|split; [|split; [|split]]]].
  - intros e He. unfold m. rewrite autoMaxDist_min. cbv zeta. rewrite He.
    reflexivity.
  - rewrite Hr. apply bestRange_spec.
  - rewrite Hp. apply bestPulse_table.
  - rewrite Hp.
    destruct (bestRange_spec m) as [[Hin _]|[_ H300]].
    + rewrite <- Hr in Hin. simpl in Hin.
      repeat (destruct Hin as [<-|Hin]; [simpl; tauto|]). destruct Hin.
    + rewrite <- Hr in H300. rewrite H300. simpl. tauto.
  - intro Hm. rewrite Hp.
    assert (H40 : r = 40); [|rewrite H40; split; reflexivity].
    destruct (bestRange_spec m) as [[Hin [Hgt Hmin]]|[Hnone _]].
    + rewrite <- Hr in *.
      assert (Hle : r <= 40) by (apply Hmin; [simpl; tauto|lra]).
      simpl in Hin.
      repeat (destruct Hin as [<-|Hin]; [first [reflexivity|exfalso; lra]|]).
      destruct Hin.
    + exfalso. assert (H : 40 <= m * 1.2) by (apply Hnone; simpl; tauto). lra.
  - reflexivity.
Qed.

(** ** The shot *)

Section Shot.

Variable log10 : Q -> Q.

Lemma traceLoop_length cfg evs eed rnd : forall n i st,
  length (traceLoop log10 cfg evs eed rnd n i st) = n.
Proof.
  induction n as [|n IH]; intros i st; simpl; [reflexivity|].
  destruct (sampleStep cfg evs eed st i) as [st' tv]. simpl.
  rewrite IH. reflexivity.
Qed.

Lemma calculateSingleTrace_length cfg evs cut rnd :
  length (calculateSingleTrace log10 cfg evs cut rnd) = numPoints.
Proof. apply traceLoop_length. Qed.

(** Sample [i + k] of the loop entered at iteration [i]. *)
Lemma traceLoop_nth cfg evs eed rnd : forall n i k,
  (k < n)%nat ->
  nth_error (traceLoop log10 cfg evs eed rnd n i (loopStateAt cfg evs eed i)) k =
  Some (addNoise cfg (noiseAmplitude log10 cfg)
          (snd (sampleStep cfg evs eed (loopStateAt cfg evs eed (i + k)) (i + k)))
          (rnd (i + k)%nat)).
Proof.
  induction n as [|n IH]; intros i k Hk; [lia|].
  cbn [traceLoop].
  destruct (sampleStep cfg evs eed (loopStateAt cfg evs eed i) i)
    as [st' tv] eqn:Hstep.
  destruct k as [|k].
  - rewrite Nat.add_0_r. rewrite Hstep. reflexivity.
  - cbn [nth_error].
    replace st' with (loopStateAt cfg evs eed (S i))
      by (cbn [loopStateAt]; rewrite Hstep; reflexivity).
    rewrite IH by lia.
    replace (S i + k)%nat with (i + S k)%nat by lia. reflexivity.
Qed.

Lemma calculateSingleTrace_nth cfg evs cut rnd i :
  (i < numPoints)%nat ->
  nth_error (calculateSingleTrace log10 cfg evs cut rnd) i =
  Some (addNoise cfg (noiseAmplitude log10 cfg) (traceValueAt cfg evs cut i) (rnd i)).
Proof.
  intro Hi. unfold calculateSingleTrace.
  change initialLoopState
    with (loopStateAt cfg (sortedEvents evs cut)
                      (effectiveEndDistance cfg evs cut) 0).
  rewrite traceLoop_nth by exact Hi. reflexivity.
Qed.

Lemma noiseAmplitude_lower cfg : 0.5 <= noiseAmplitude log10 cfg.
Proof. unfold noiseAmplitude. apply Q.le_max_l. Qed.

(** Whatever [traceValue] is, the sample stays within one noise amplitude
    below the floor. *)
Lemma addNoise_lower cfg amp tv r :
  0.5 <= amp -> 0 <= r -> noiseFloor cfg - amp <= addNoise cfg amp tv r.
Proof.
  intros Hamp Hr. unfold addNoise. cbv zeta.
  assert (Hprod : 0 <= r * amp) by (apply Qmult_le_0_compat; lra).
  assert (Hnoise : (r - 0.5) * amp == r * amp - 0.5 * amp) by ring.
  destruct (Qltb (tv + (r - 0.5) * amp) (noiseFloor cfg)) eqn:E.
  - rewrite Hnoise. lra.
  - apply Qltb_false in E. lra.
Qed.

End Shot.

(** *** Noise amplitude *)

Lemma five_over_neg f : f < 0 -> 5 / f < 0.
Proof.
  intro Hf.
  assert (Hopp : 5 / f == - (5 / - f)) by (field; lra).
  assert (Hpos : 0 < 5 / - f) by (apply Qlt_shift_div_l; lra).
  rewrite Hopp. lra.
Qed.

(** C2 (as the code has it): for a positive pulse width, where
    [Math.log10] returns a finite number, the single-shot noise amplitude
    is max(0.5, 5.0 / f) where f is log10(pulseWidth)/2, replaced by 1
    when it is zero.  It agrees with max(0.5, 5.0 / max(1, f)) when f is
    zero or at least 1; for f strictly between 0 and 1 it is 5.0 / f, above
    5.0, and for negative f it is 0.5.  At pulseWidth = 10 ns, where
    log10 is 1 and f is 0.5, the amplitude is 10.0. *)
Theorem noise_amplitude_formula :
  forall (log10 : Q -> Q) (cfg : SimulationConfig),
  0 < pulseWidth cfg ->
  let f := log10 (pulseWidth cfg) / 2 in
  Math_log10 log10 (pulseWidth cfg) = Fin (log10 (pulseWidth cfg)) /\
  noiseAmplitude log10 cfg == Qmax 0.5 (5 / js_or f 1) /\
  (f == 0 -> noiseAmplitude log10 cfg == 5) /\
  (1 <= f -> noiseAmplitude log10 cfg == Qmax 0.5 (5 / Qmax 1 f)) /\
  (0 < f -> f < 1 ->
   noiseAmplitude log10 cfg == 5 / f /\ 5 < noiseAmplitude log10 cfg) /\
  (f < 0 -> noiseAmplitude log10 cfg == 0.5) /\
  (log10 (pulseWidth cfg) == 1 -> noiseAmplitude log10 cfg == 10).
Proof.
  intros log10 cfg Hpw f.
  assert (Hlog : Math_log10 log10 (pulseWidth cfg) = Fin (log10 (pulseWidth cfg))).
  { unfold Math_log10.
    assert (E1 : Qltb (pulseWidth cfg) 0 = false) by (apply Qltb_false; lra).
    assert (E2 : Qeq_bool (pulseWidth cfg) 0 = false).
    { destruct (Qeq_bool (pulseWidth cfg) 0) eqn:E; [|reflexivity].
      apply Qeq_bool_eq in E. lra. }
    rewrite E1, E2. reflexivity. }
  assert (Hdef : noiseAmplitude log10 cfg == Qmax 0.5 (5 / js_or f 1)).
  { unfold noiseAmplitude, noiseReductionFactor. fold f.
    assert (H5 : baseNoiseAmp == 5) by reflexivity.
    rewrite H5. reflexivity. }
  assert (Hnz : ~ f == 0 -> noiseAmplitude log10 cfg == Qmax 0.5 (5 / f)).
  { intro Hf. rewrite Hdef. unfold js_or.
    destruct (Qeq_bool f 0) eqn:E; [|reflexivity].
    apply Qeq_bool_eq in E. contradiction. }
  split; [exact Hlog|].
  split; [exact Hdef|]. split; [|split; [|split; [|split]]].
  - intro Hf. rewrite Hdef. unfold js_or.
    rewrite (Qeq_eq_bool _ _ Hf). apply Q.max_r. discriminate.
  - intro Hf. rewrite Hnz by lra. rewrite (Q.max_r 1 f Hf). reflexivity.
  - intros Hpos Hlt. rewrite Hnz by lra.
    assert (H5 : 5 < 5 / f) by (apply Qlt_shift_div_l; lra).
    rewrite Q.max_r by lra. split; [reflexivity|exact H5].
  - intro Hneg. rewrite Hnz by lra.
    pose proof (five_over_neg f Hneg). apply Q.max_l. lra.
  - intro Hlog1. rewrite Hnz.
    + assert (Hf : f == 1 / 2) by (unfold f; rewrite Hlog1; reflexivity).
      rewrite Hf. reflexivity.
    + unfold f. rewrite Hlog1. discriminate.
Qed.

(** The initial configuration, with its pulse width of 100 ns, meets the
    premise of C2; with log10(100) = 2 the factor is 1 and the amplitude
    is 5.0. *)
Lemma noise_amplitude_formula_witness :
  0 < pulseWidth initialConfig /\
  Math_log10 log10_magnitude (pulseWidth initialConfig)
  = Fin (log10_magnitude (pulseWidth initialConfig)) /\
  noiseAmplitude log10_magnitude initialConfig
  == Qmax 0.5 (5 / js_or (log10_magnitude (pulseWidth initialConfig) / 2) 1).
Proof.
  assert (Hpw : 0 < pulseWidth initialConfig) by reflexivity.
  split; [exact Hpw|].
  pose proof (noise_amplitude_formula log10_magnitude initialConfig Hpw) as H.
  cbv zeta in H. destruct H as [H1 [H2 _]].
  split; [exact H1|exact H2].
Defined.

(** C2, the claim as written fails: at pulseWidth = 10 ns, with
    log10(10) = 1, the amplitude of the code is 10.0, while
    max(0.5, 5.0 / max(1, log10(pulseWidth)/2)) is 5.0. *)
Lemma noise_amplitude_at_10ns :
  let cfg := mkConfig 20 10 1550 1.4682 1 (-60) true 15 in
  (0 < pulseWidth cfg /\ log10_magnitude (pulseWidth cfg) == 1) /\
  noiseAmplitude log10_magnitude cfg == 10 /\
  Qmax 0.5 (5.0 / Qmax 1 (log10_magnitude (pulseWidth cfg) / 2)) == 5.0 /\
  ~ (forall (log10 : Q -> Q) (c : SimulationConfig),
       0 < pulseWidth c ->
       noiseAmplitude log10 c
       == Qmax 0.5 (5.0 / Qmax 1 (log10 (pulseWidth c) / 2))).
Proof.
  cbv zeta. split; [split; reflexivity|]. split; [reflexivity|].
  split; [reflexivity|].
  intro H.
  specialize (H log10_magnitude (mkConfig 20 10 1550 1.4682 1 (-60) true 15)).
  assert (Hpw : 0 < pulseWidth (mkConfig 20 10 1550 1.4682 1 (-60) true 15))
    by reflexivity.
  specialize (H Hpw). vm_compute in H. discriminate.
Qed.

(** *** The dead-zone denominator *)

Lemma eventDeadZone_zero_pulse cfg : pulseWidth cfg == 0 -> eventDeadZone cfg == 0.
Proof.
  intro Hpw. unfold eventDeadZone, pulseLengthKm, pulseWidthSeconds, Qdiv.
  rewrite Hpw. ring.
Qed.

(** C8: the denominator of the ring-down ratio, [eventDeadZone || 0.001],
    is never zero, for any configuration: it is 0.001 when the dead zone
    has zero length, as with a pulse width of 0, and the dead-zone length
    itself otherwise; the blend inside the window divides by it. *)
Theorem dead_zone_ratio_denominator_nonzero :
  forall (cfg : SimulationConfig),
  ~ deadZoneDenominator cfg == 0 /\
  (eventDeadZone cfg == 0 -> deadZoneDenominator cfg = 0.001) /\
  (pulseWidth cfg == 0 -> deadZoneDenominator cfg = 0.001) /\
  (~ eventDeadZone cfg == 0 -> deadZoneDenominator cfg = eventDeadZone cfg) /\
  (forall t d, d < deadZoneActiveUntil (afterTrigger t) ->
     fst (deadZoneBlend cfg t d) =
     idealPower t
     + ((deadZoneActiveUntil (afterTrigger t) - d) / deadZoneDenominator cfg) ^ 4
       * (powerAtSaturation (afterTrigger t) - idealPower t)).
Proof.
  intro cfg.
  assert (Hzero : eventDeadZone cfg == 0 -> deadZoneDenominator cfg = 0.001).
  { intro Hz. unfold deadZoneDenominator, js_or.
    rewrite (Qeq_eq_bool _ _ Hz). reflexivity. }
  split; [|split; [exact Hzero|split; [|split]]].
  - unfold deadZoneDenominator. apply js_or_nonzero. discriminate.
  - intro Hpw. apply Hzero. apply eventDeadZone_zero_pulse. exact Hpw.
  - intro Hnz. unfold deadZoneDenominator, js_or.
    destruct (Qeq_bool (eventDeadZone cfg) 0) eqn:E; [|reflexivity].
    apply Qeq_bool_eq in E. contradiction.
  - intros t d Hd. unfold deadZoneBlend. cbv zeta.
    apply Qltb_true in Hd. rewrite Hd. reflexivity.
Qed.

(** *** The reflection spike *)

Lemma traceValueAt_unfold cfg evs cut i :
  traceValueAt cfg evs cut i =
  let d := sampleDistance cfg i in
  let t := triggerEvent cfg (sortedEvents evs cut)
             (loopStateAt cfg (sortedEvents evs cut)
                          (effectiveEndDistance cfg evs cut) i) d in
  traceValueOf cfg t (fst (deadZoneBlend cfg t d)) d
               (effectiveEndDistance cfg evs cut).
Proof.
  unfold traceValueAt, sampleStep. cbv zeta.
  destruct (deadZoneBlend cfg _ _) as [b st']. reflexivity.
Qed.

(** C1 (as the code has it): at the sample that triggers an event, not
    past the terminal distance, a reflectance above -65 dB both opens the
    dead-zone window and adds the spike of height reflectance + 75 onto
    that sample, on top of the ring-down blend; a reflectance of -65 dB or
    less does neither.  The synthesizer consults no other threshold. *)
Theorem reflection_spike_threshold :
  forall (log10 : Q -> Q) (cfg : SimulationConfig) (evs : list FiberEvent)
         (cut : option Q) (rnd : nat -> Q) (i : nat) (ev : FiberEvent),
  let sorted := sortedEvents evs cut in
  let effectiveEnd := effectiveEndDistance cfg evs cut in
  let st := loopStateAt cfg sorted effectiveEnd i in
  let d := sampleDistance cfg i in
  let t := triggerEvent cfg sorted st d in
  (i < numPoints)%nat ->
  nth_error sorted (eventIndex st) = Some ev ->
  distance ev <= d ->
  d <= effectiveEnd ->
  justTriggeredEvent t = true /\
  (-65 < reflectance ev ->
     reflectionAdd t = reflectance ev + 75 /\
     deadZoneActiveUntil (afterTrigger t) = distance ev + eventDeadZone cfg /\
     powerAtSaturation (afterTrigger t) = idealPower t + (reflectance ev + 75) /\
     nth_error (calculateSingleTrace log10 cfg evs cut rnd) i =
       Some (addNoise cfg (noiseAmplitude log10 cfg)
               (fst (deadZoneBlend cfg t d) + (reflectance ev + 75)) (rnd i))) /\
  (reflectance ev <= -65 ->
     reflectionAdd t = 0 /\
     deadZoneActiveUntil (afterTrigger t) = deadZoneActiveUntil st /\
     nth_error (calculateSingleTrace log10 cfg evs cut rnd) i =
       Some (addNoise cfg (noiseAmplitude log10 cfg)
               (fst (deadZoneBlend cfg t d) + 0) (rnd i))).
Proof.
  intros log10 cfg evs cut rnd i ev sorted effectiveEnd st d t Hi Hev Hd Hend.
  assert (Hsample :
    nth_error (calculateSingleTrace log10 cfg evs cut rnd) i =
    Some (addNoise cfg (noiseAmplitude log10 cfg)
            (traceValueOf cfg t (fst (deadZoneBlend cfg t d)) d effectiveEnd)
            (rnd i))).
  { rewrite calculateSingleTrace_nth by exact Hi.
    rewrite traceValueAt_unfold. reflexivity. }
  assert (Hpast : pastTerminal d effectiveEnd = false)
    by (apply Qgtb_false; exact Hend).
  apply Qgeb_true in Hd.
  assert (Ht : t =
    if Qgtb (reflectance ev) (-65) then
      mkTriggered
        (mkLoop (currentPower st - loss ev) (S (eventIndex st))
                (distance ev + eventDeadZone cfg)
                (currentPower st - calculateAttenuation (wavelength cfg) * d
                 - loss ev + (reflectance ev + 75)))
        (currentPower st - calculateAttenuation (wavelength cfg) * d - loss ev)
        (reflectance ev + 75) true
    else
      mkTriggered
        (mkLoop (currentPower st - loss ev) (S (eventIndex st))
                (deadZoneActiveUntil st) (powerAtSaturation st))
        (currentPower st - calculateAttenuation (wavelength cfg) * d - loss ev)
        0 true).
  { unfold t, triggerEvent. rewrite Hev, Hd. reflexivity. }
  clearbody t.
  destruct (Qgtb (reflectance ev) (-65)) eqn:Hr; subst t.
  - split; [reflexivity|]. split.
    + intros _. repeat split. rewrite Hsample.
      unfold traceValueOf. rewrite Hpast. reflexivity.
    + intro Hle. apply Qgtb_true in Hr. exfalso. lra.
  - split; [reflexivity|]. split.
    + intro Hgt. apply Qgtb_false in Hr. exfalso. lra.
    + intros _. repeat split. rewrite Hsample.
      unfold traceValueOf. rewrite Hpast. reflexivity.
Qed.

(** A start event of reflectance -62 dB, triggered at sample 0, meets the
    premises of C1. *)
Lemma reflection_spike_threshold_witness :
  let ev := mkEvent "start" T_start 0 0.5 (-62) in
  let t := triggerEvent initialConfig [ev] initialLoopState 0 in
  ((0 < numPoints)%nat /\
   nth_error (sortedEvents [ev] None) 0 = Some ev /\
   distance ev <= sampleDistance initialConfig 0 /\
   sampleDistance initialConfig 0 <= effectiveEndDistance initialConfig [ev] None /\
   -65 < reflectance ev) /\
  nth_error (calculateSingleTrace log10_magnitude initialConfig [ev] None
               (constantRandom 0.5)) 0 =
  Some (addNoise initialConfig (noiseAmplitude log10_magnitude initialConfig)
          (fst (deadZoneBlend initialConfig
                  (triggerEvent initialConfig (sortedEvents [ev] None)
                     initialLoopState (sampleDistance initialConfig 0))
                  (sampleDistance initialConfig 0))
           + (reflectance ev + 75)) 0.5).
Proof.
  cbv zeta.
  assert (H1 : (0 < numPoints)%nat) by (unfold numPoints; lia).
  assert (H2 : nth_error (sortedEvents [mkEvent "start" T_start 0 0.5 (-62)] None) 0
               = Some (mkEvent "start" T_start 0 0.5 (-62))) by reflexivity.
  assert (H3 : distance (mkEvent "start" T_start 0 0.5 (-62))
               <= sampleDistance initialConfig 0) by (vm_compute; discriminate).
  assert (H4 : sampleDistance initialConfig 0
               <= effectiveEndDistance initialConfig
                    [mkEvent "start" T_start 0 0.5 (-62)] None)
    by (vm_compute; discriminate).
  assert (H5 : -65 < reflectance (mkEvent "start" T_start 0 0.5 (-62)))
    by reflexivity.
  split; [repeat split; assumption|].
  exact (proj2 (proj2 (proj2 (proj1 (proj2
    (reflection_spike_threshold log10_magnitude initialConfig
       [mkEvent "start" T_start 0 0.5 (-62)] None (constantRandom 0.5) 0%nat
       (mkEvent "start" T_start 0 0.5 (-62)) H1 H2 H3 H4)) H5)))).
Defined.

(** C1, the claim as written fails: an event with reflectance -62 dB, which
    lies in (-65, -60], gets the spike of height 13 at its triggering
    sample.  With the noise at zero that sample is 25.5 dB: -0.5 of ideal
    power, 13 of ring-down at the start of the window and 13 of peak;
    without the peak it would be 12.5 dB. *)
Lemma spike_added_below_minus_60 :
  let ev := mkEvent "start" T_start 0 0.5 (-62) in
  let t := triggerEvent initialConfig [ev] initialLoopState
             (sampleDistance initialConfig 0) in
  (-65 < reflectance ev /\ reflectance ev <= -60) /\
  (justTriggeredEvent t = true /\ reflectionAdd t == 13) /\
  fst (deadZoneBlend initialConfig t (sampleDistance initialConfig 0)) == 12.5 /\
  exists y0,
    nth_error (calculateSingleTrace log10_magnitude initialConfig [ev] None
                 (constantRandom 0.5)) 0 = Some y0 /\
    y0 == 25.5.
Proof.
  cbv zeta. split; [split; [reflexivity|discriminate]|].
  split; [split; reflexivity|]. split; [reflexivity|].
  eexists. split; [vm_compute; reflexivity|reflexivity].
Qed.

(** *** The terminal distance without an end event *)

Lemma find_isEnd_sorted evs e :
  find isEnd (sortByDistance evs) = Some e -> In e evs /\ type e = T_end.
Proof.
  intro H. apply find_some in H. destruct H as [Hin Hend].
  split; [apply sortByDistance_In; exact Hin|].
  apply EventType_eqb_eq. exact Hend.
Qed.

Lemma sampleDistance_below_range cfg i :
  0 < range cfg -> (i < numPoints)%nat -> sampleDistance cfg i < range cfg.
Proof.
  intros Hr Hi. unfold sampleDistance, stepSize.
  change (inject_Z (Z.of_nat numPoints)) with 4000.
  assert (Hq : inject_Z (Z.of_nat i) < 4000).
  { change 4000 with (inject_Z 4000). rewrite <- Zlt_Qlt.
    unfold numPoints in Hi. lia. }
  set (q := inject_Z (Z.of_nat i)) in *.
  assert (Hp : 0 < (4000 - q) * range cfg) by (apply Qmult_lt_0_compat; lra).
  assert (E : q * (range cfg / 4000)
              == range cfg - (1 # 4000) * ((4000 - q) * range cfg)) by field.
  rewrite E. set (p := (4000 - q) * range cfg) in *. lra.
Qed.

(** C10: without a cut, when the topology has no end event, or only end
    events at distance 0, the terminal distance of the shot is
    [config.range]; every sample distance i * range / 4000 with i < 4000
    is strictly below the range (the range is positive: the component
    only ever sets it to one of 5, 10, 20, 40, 80, 160 and 300 km), so the
    past-terminal test fails at every sample: the sample value before
    noise is the blended value, plus the spike at a triggering sample, and
    never the noise floor forced by that rule. *)
Theorem missing_end_uses_range :
  forall (cfg : SimulationConfig) (evs : list FiberEvent),
  0 < range cfg ->
  (forall e, In e evs -> type e = T_end -> distance e == 0) ->
  effectiveEndDistance cfg evs None = range cfg /\
  forall i, (i < numPoints)%nat ->
    sampleDistance cfg i < range cfg /\
    pastTerminal (sampleDistance cfg i) (effectiveEndDistance cfg evs None) = false /\
    traceValueAt cfg evs None i =
      (let d := sampleDistance cfg i in
       let t := triggerEvent cfg (sortedEvents evs None)
                  (loopStateAt cfg (sortedEvents evs None) (range cfg) i) d in
       let blended := fst (deadZoneBlend cfg t d) in
       if justTriggeredEvent t then blended + reflectionAdd t else blended).
Proof.
  intros cfg evs Hrange Hend.
  assert (Heed : effectiveEndDistance cfg evs None = range cfg).
  { unfold effectiveEndDistance. cbv zeta.
    destruct (find isEnd (sortByDistance evs)) as [e|] eqn:Hf; [|reflexivity].
    apply find_isEnd_sorted in Hf. destruct Hf as [Hin Hty].
    unfold js_or. rewrite (Qeq_eq_bool _ _ (Hend e Hin Hty)). reflexivity. }
  split; [exact Heed|].
  intros i Hi.
  pose proof (sampleDistance_below_range cfg i Hrange Hi) as Hlt.
  assert (Hpast : pastTerminal (sampleDistance cfg i) (range cfg) = false)
    by (apply Qgtb_false, Qlt_le_weak, Hlt).
  split; [exact Hlt|]. rewrite Heed. split; [exact Hpast|].
  rewrite traceValueAt_unfold. cbv zeta. rewrite Heed.
  unfold traceValueOf. rewrite Hpast. reflexivity.
Qed.

(** A topology without end event under the initial configuration meets
    the premises of C10. *)
Lemma missing_end_uses_range_witness :
  let evs := [ mkEvent "start" T_start 0 0.5 (-35);
               mkEvent "e1" T_splice 5.2 0.1 (-99) ] in
  (0 < range initialConfig /\
   forall e, In e evs -> type e = T_end -> distance e == 0) /\
  effectiveEndDistance initialConfig evs None = range initialConfig.
Proof.
  cbv zeta.
  assert (H1 : 0 < range initialConfig) by reflexivity.
  assert (H2 : forall e,
    In e [ mkEvent "start" T_start 0 0.5 (-35);
           mkEvent "e1" T_splice 5.2 0.1 (-99) ] ->
    type e = T_end -> distance e == 0).
  { intros e He Hty. simpl in He.
    destruct He as [<-|[<-|[]]]; simpl in Hty; discriminate. }
  split; [split; assumption|].
  exact (proj1 (missing_end_uses_range initialConfig _ H1 H2)).
Defined.

(** ** The accumulator and the displayed trace *)

Lemma mapi_from_length {A B : Type} (f : A -> nat -> B) l : forall i,
  length (mapi_from f i l) = length l.
Proof.
  induction l as [|a t IH]; intro i; simpl; [reflexivity|].
  rewrite IH. reflexivity.
Qed.

Lemma mapi_from_nth_error {A B : Type} (f : A -> nat -> B) l : forall i k,
  nth_error (mapi_from f i l) k =
  option_map (fun a => f a (i + k)%nat) (nth_error l k).
Proof.
  induction l as [|a t IH]; intros i k.
  - destruct k; reflexivity.
  - destruct k as [|k]; simpl.
    + rewrite Nat.add_0_r. reflexivity.
    + rewrite IH. replace (S i + k)%nat with (i + S k)%nat by lia. reflexivity.
Qed.

Lemma mapi_nth_error {A B : Type} (f : A -> nat -> B) l k :
  nth_error (mapi f l) k = option_map (fun a => f a k) (nth_error l k).
Proof. unfold mapi. rewrite mapi_from_nth_error. reflexivity. Qed.

Lemma nth_error_nth_default (l : list Q) k :
  (k < length l)%nat -> nth_error l k = Some (nth k l 0).
Proof.
  revert k. induction l as [|a t IH]; intros k Hk; simpl in Hk; [lia|].
  destruct k as [|k]; simpl; [reflexivity|]. apply IH. lia.
Qed.

Lemma accumulate_length prev shot :
  length shot = numPoints ->
  (prev = [] \/ length prev = numPoints) ->
  length (accumulate prev shot) = numPoints.
Proof.
  intros Hs [->|Hp]; [exact Hs|].
  destruct prev as [|a t]; [exact Hs|].
  unfold accumulate, mapi. rewrite mapi_from_length. exact Hp.
Qed.

Lemma accumulate_nth prev shot k :
  (k < length prev)%nat ->
  nth k (accumulate prev shot) 0 = nth k prev 0 + nth k shot 0.
Proof.
  intro Hk. destruct prev as [|a t]; [simpl in Hk; lia|].
  unfold accumulate.
  pose proof (mapi_nth_error (fun val i => val + nth i shot 0) (a :: t) k) as H.
  rewrite (nth_error_nth_default (a :: t) k Hk) in H. simpl option_map in H.
  apply (nth_error_nth _ _ 0) in H. exact H.
Qed.

Lemma sumAt_snoc i shots shot :
  sumAt i (shots ++ [shot]) = sumAt i shots + nth i shot 0.
Proof. unfold sumAt. rewrite fold_left_app. reflexivity. Qed.

Lemma displayData_nth_error rg f ys k :
  (k < length ys)%nat ->
  nth_error (displayData rg f ys) k =
  Some (mkPoint (inject_Z (Z.of_nat k) * (rg / inject_Z (Z.of_nat (length ys))))
                (f (nth k ys 0))).
Proof.
  intro Hk. unfold displayData. cbv zeta. rewrite mapi_nth_error.
  rewrite (nth_error_nth_default ys k Hk). reflexivity.
Qed.

Lemma displayData_length rg f ys : length (displayData rg f ys) = length ys.
Proof. unfold displayData, mapi. cbv zeta. apply mapi_from_length. Qed.

Section AccumulatorProofs.

Variable log10 : Q -> Q.

Lemma displayEffect_keeps rnd s :
  accumulatedY (displayEffect log10 rnd s) = accumulatedY s /\
  sampleCount (displayEffect log10 rnd s) = sampleCount s /\
  isSimulating (displayEffect log10 rnd s) = isSimulating s.
Proof.
  unfold displayEffect.
  destruct (Nat.ltb 0 (length (accumulatedY s)) && Nat.ltb 0 (sampleCount s));
    [repeat split|].
  destruct (negb (isSimulating s) && Nat.eqb (length (traceData s)) 0);
    repeat split.
Qed.

Lemma displayEffect_averaging rnd s :
  length (accumulatedY s) = numPoints -> (0 < sampleCount s)%nat ->
  displayEffect log10 rnd s =
  mkApp (config s) (events s) (activeCut s) (isSimulating s)
        (displayData (range (config s))
           (fun v => v / inject_Z (Z.of_nat (sampleCount s))) (accumulatedY s))
        (detectedEvents s) (elapsedTime s) (accumulatedY s) (sampleCount s).
Proof.
  intros Hlen Hcount. unfold displayEffect.
  assert (H1 : Nat.ltb 0 (length (accumulatedY s)) = true)
    by (apply Nat.ltb_lt; rewrite Hlen; unfold numPoints; lia).
  assert (H2 : Nat.ltb 0 (sampleCount s) = true) by (apply Nat.ltb_lt; exact Hcount).
  rewrite H1, H2. reflexivity.
Qed.

Lemma displayEffect_idle rnd st :
  sampleCount st = 0%nat -> isSimulating st = true ->
  displayEffect log10 rnd st = st.
Proof.
  intros Hzero Hsim. unfold displayEffect.
  rewrite Hzero, Hsim, andb_false_r. reflexivity.
Qed.

(** Adding one shot to the accumulator. *)
Lemma accumulate_summed acc shots shot :
  length shot = numPoints ->
  (shots = [] -> acc = []) ->
  (shots <> [] ->
   length acc = numPoints /\
   forall i, (i < numPoints)%nat -> nth i acc 0 == sumAt i shots) ->
  length (accumulate acc shot) = numPoints /\
  forall i, (i < numPoints)%nat ->
    nth i (accumulate acc shot) 0 == sumAt i (shots ++ [shot]).
Proof.
  intros Hshot Hnil Hcons.
  destruct shots as [|x xs].
  - rewrite (Hnil eq_refl). simpl accumulate. split; [exact Hshot|].
    intros i _. unfold sumAt. simpl. lra.
  - assert (Hne : x :: xs <> []) by discriminate.
    destruct (Hcons Hne) as [Hl Hsum]. split.
    + apply accumulate_length; [exact Hshot|right; exact Hl].
    + intros i Hi. rewrite sumAt_snoc.
      rewrite accumulate_nth by (rewrite Hl; exact Hi).
      rewrite (Hsum i Hi). reflexivity.
Qed.

(** Every action keeps the accumulator equal to the sum of the recorded
    shots. *)
Lemma act_summed a s shots :
  Summed s shots -> Summed (act log10 a s) (shotsAfter log10 a s shots).
Proof.
  intros Hs. pose proof Hs as [Hcount [Hnil Hcons]].
  destruct a as [| |delta rnd|cfg evs cut|]; simpl act; simpl shotsAfter.
  - unfold Summed. simpl. split; [reflexivity|]. split; [reflexivity|].
    intro H. contradiction H. reflexivity.
  - exact Hs.
  - unfold loopFrame.
    destruct (isSimulating s) eqn:Hsim; cbn [negb andb]; [|exact Hs].
    destruct (timeLimitReached (config s) delta) eqn:Htime; cbn [negb];
      [exact Hs|].
    set (shot := calculateSingleTrace log10 (config s) (events s) (activeCut s) rnd).
    assert (Hshot : length shot = numPoints) by apply calculateSingleTrace_length.
    destruct (accumulate_summed (accumulatedY s) shots shot Hshot Hnil Hcons)
      as [Hlen Hsum].
    unfold Summed. cbn [accumulatedY sampleCount]. split.
    { rewrite length_app, Hcount. simpl. lia. }
    split.
    { intro H. destruct shots; discriminate H. }
    intros _. split; assumption.
  - exact Hs.
  - exact Hs.
Qed.

Lemma displayEffect_summed rnd s shots :
  Summed s shots ->
  Summed (displayEffect log10 rnd s) shots /\ Displayed (displayEffect log10 rnd s).
Proof.
  intros [Hcount [Hnil Hcons]].
  destruct (displayEffect_keeps rnd s) as [Hacc [Hcnt _]].
  split.
  - unfold Summed. rewrite Hacc, Hcnt.
    split; [exact Hcount|split; [exact Hnil|exact Hcons]].
  - unfold Displayed. rewrite Hcnt. intro Hpos.
    assert (Hne : shots <> []).
    { intro H. rewrite H in Hcount. simpl in Hcount. lia. }
    destruct (Hcons Hne) as [Hlen _].
    rewrite (displayEffect_averaging rnd s Hlen Hpos). reflexivity.
Qed.

Lemma run_invariant : forall l s shots,
  Summed s shots -> Displayed s ->
  Summed (fst (run log10 l (s, shots))) (snd (run log10 l (s, shots))) /\
  Displayed (fst (run log10 l (s, shots))).
Proof.
  induction l as [|ar l IH]; intros s shots Hs Hd.
  - simpl. split; assumption.
  - change (run log10 (ar :: l) (s, shots))
      with (run log10 l (step log10 ar (s, shots))).
    unfold step. cbn [fst snd].
    destruct (displayEffect_summed (snd ar) _ _ (act_summed (fst ar) s shots Hs))
      as [Hs' Hd'].
    apply IH; assumption.
Qed.

End AccumulatorProofs.

Lemma initialAppState_summed : Summed initialAppState [] /\ Displayed initialAppState.
Proof.
  split.
  - unfold Summed. simpl. split; [reflexivity|]. split; [reflexivity|].
    intro H. contradiction H. reflexivity.
  - unfold Displayed. simpl. intro H. inversion H.
Qed.

Lemma act_keeps_traceData (log10 : Q -> Q) a s :
  traceData (act log10 a s) = traceData s.
Proof.
  destruct a as [| |delta rnd|cfg evs cut|]; simpl; try reflexivity.
  unfold loopFrame. destruct (negb (isSimulating s)); [reflexivity|].
  destruct (timeLimitReached (config s) delta); reflexivity.
Qed.

(** Every commit holds the sum of the recorded shots; a commit of the
    display effect also shows their average. *)
Lemma commits_invariant (log10 : Q -> Q) : forall l s shots,
  Summed s shots ->
  forall k s' shots', In (k, (s', shots')) (commits log10 l (s, shots)) ->
  Summed s' shots' /\ (k = ByEffect -> Displayed s').
Proof.
  induction l as [|ar l IH]; intros s shots Hs k s' shots' Hin; [destruct Hin|].
  pose proof (act_summed log10 (fst ar) s shots Hs) as Ha.
  destruct (displayEffect_summed log10 (snd ar) _ _ Ha) as [He Hd].
  cbn [commits fst snd] in Hin. destruct Hin as [Heq|[Heq|Hin]].
  - injection Heq as <- <- <-. split; [exact Ha|]. intro H. discriminate H.
  - unfold step in Heq. cbn [fst snd] in Heq. injection Heq as <- <- <-.
    split; [exact He|]. intros _. exact Hd.
  - unfold step in Hin. cbn [fst snd] in Hin.
    exact (IH _ _ He k s' shots' Hin).
Qed.

Lemma commits_last (log10 : Q -> Q) : forall l sl,
  last (map snd (commits log10 l sl)) sl = run log10 l sl.
Proof.
  induction l as [|ar l IH]; intros sl; [reflexivity|].
  change (run log10 (ar :: l) sl) with (run log10 l (step log10 ar sl)).
  rewrite <- IH. cbn [commits map snd].
  rewrite !last_cons_default. reflexivity.
Qed.

(** C9 (as the code has it): every state the component commits on its way
    from the initial state through starts, stops, animation frames and
    changes of the inputs has a counter equal to the number of shots
    accumulated since the last start and, when that is positive, an
    accumulator equal to their element-wise sum.  In the states committed
    by the display effect, that is once the effect has run on the
    accumulator and the counter of the state, whenever the counter is
    positive the i-th displayed y-value is sum[i] / count.  The commit of
    the action itself, one commit earlier, leaves the displayed trace as
    it was: a frame's new sum and count are committed before the trace
    drawn from them.
    When the counter is 0 the display effect shows a single fresh shot,
    which it does not add to the accumulator, only if the simulation is
    not running and no trace is displayed yet; otherwise it leaves the
    state, and with it the displayed trace, as it was. *)
Theorem displayed_trace_is_average :
  forall (log10 : Q -> Q) (l : list (Action * (nat -> Q))),
  (forall k s shots,
     In (k, (s, shots)) (commits log10 l (initialAppState, [])) ->
     sampleCount s = length shots /\
     ((0 < sampleCount s)%nat ->
      forall i, (i < numPoints)%nat ->
        nth i (accumulatedY s) 0 == sumAt i shots) /\
     (k = ByEffect -> (0 < sampleCount s)%nat ->
      length (traceData s) = numPoints /\
      forall i, (i < numPoints)%nat ->
        exists p, nth_error (traceData s) i = Some p /\
                  y p == sumAt i shots / inject_Z (Z.of_nat (sampleCount s)))) /\
  last (map snd (commits log10 l (initialAppState, []))) (initialAppState, [])
  = run log10 l (initialAppState, []) /\
  (forall (a : Action) (st : AppState),
     traceData (act log10 a st) = traceData st) /\
  (forall (rnd : nat -> Q) (st : AppState), sampleCount st = 0%nat ->
     (isSimulating st = false -> traceData st = [] ->
      traceData (displayEffect log10 rnd st) = staticTrace log10 rnd st /\
      accumulatedY (displayEffect log10 rnd st) = accumulatedY st /\
      sampleCount (displayEffect log10 rnd st) = 0%nat) /\
     (isSimulating st = true \/ traceData st <> [] ->
      displayEffect log10 rnd st = st)).
Proof.
  intros log10 l.
  destruct initialAppState_summed as [Hs0 _].
  split; [|split; [apply commits_last|split; [intros a st; apply act_keeps_traceData|]]].
  - intros k s shots Hin.
    destruct (commits_invariant log10 l initialAppState [] Hs0 k s shots Hin)
      as [[Hcount [Hnil Hcons]] Hd].
    assert (Hne : (0 < sampleCount s)%nat -> shots <> []).
    { intros Hpos H. rewrite H in Hcount. simpl in Hcount. lia. }
    split; [exact Hcount|]. split.
    + intros Hpos. exact (proj2 (Hcons (Hne Hpos))).
    + intros Hk Hpos. destruct (Hcons (Hne Hpos)) as [Hl Hsum].
      pose proof (Hd Hk Hpos) as Htrace.
      split; [rewrite Htrace, displayData_length; exact Hl|].
      intros i Hi.
      rewrite Htrace. rewrite displayData_nth_error by (rewrite Hl; exact Hi).
      eexists. split; [reflexivity|]. cbn [y].
      rewrite (Hsum i Hi). reflexivity.
  - intros rnd st Hzero. unfold displayEffect. rewrite Hzero.
    rewrite andb_false_r. split.
    + intros Hsim Hempty. rewrite Hsim, Hempty. simpl.
      split; [reflexivity|]. split; reflexivity.
    + intros [Hsim|Hshown].
      * rewrite Hsim. reflexivity.
      * destruct (traceData st); [contradiction Hshown; reflexivity|].
        rewrite andb_false_r. reflexivity.
Qed.

Lemma firstYIs_true l v :
  firstYIs l v = true -> exists p, nth_error l 0 = Some p /\ y p == v.
Proof.
  unfold firstYIs. destruct (nth_error l 0) as [p|]; [|discriminate].
  intro H. exists p. split; [reflexivity|]. apply Qeq_bool_eq. exact H.
Qed.

Lemma sessionCheck_true : sessionCheck = true.
Proof. vm_compute. reflexivity. Qed.

(** C9, the claim as written fails when the counter is 0 while a trace is
    already displayed: after the first render, a start, two frames, a stop
    and a second start, the counter is 0, the accumulator is empty and the
    display effect changes nothing.  The displayed trace is still the
    average of the two earlier shots (78.25 dB at sample 0), whereas a
    fresh shot drawn by this run of the effect would show 79.5 dB there. *)
Lemma stale_trace_at_count_zero :
  let s := fst sessionEnd in
  (sampleCount s = 0%nat /\ isSimulating s = true /\ accumulatedY s = []) /\
  displayEffect log10_magnitude (constantRandom 0.5) s = s /\
  (exists p, nth_error (traceData s) 0 = Some p /\ y p == 78.25) /\
  (exists q,
     nth_error (staticTrace log10_magnitude (constantRandom 0.5) s) 0 = Some q /\
     y q == 79.5).
Proof.
  cbv zeta. pose proof sessionCheck_true as H. unfold sessionCheck in H.
  cbv zeta in H.
  apply andb_true_iff in H. destruct H as [H Hfresh].
  apply andb_true_iff in H. destruct H as [H Hshown].
  apply andb_true_iff in H. destruct H as [H Hacc].
  apply andb_true_iff in H. destruct H as [Hcount Hsim].
  apply Nat.eqb_eq in Hcount. apply Nat.eqb_eq in Hacc.
  split; [split; [exact Hcount|split; [exact Hsim|]]|split; [|split]].
  - destruct (accumulatedY (fst sessionEnd)); [reflexivity|discriminate Hacc].
  - apply displayEffect_idle; assumption.
  - apply firstYIs_true. exact Hshown.
  - apply firstYIs_true. exact Hfresh.
Qed.

Lemma frameCommitCheck_true : frameCommitCheck = true.
Proof. vm_compute. reflexivity. Qed.

(** The commit of a frame before the effect: with a counter of 1 and an
    accumulator that starts at 80.75 dB, the displayed trace still starts
    at the 78.25 dB of the earlier acquisition. *)
Example frame_commit_shows_previous_trace :
  sampleCount frameCommit = 1%nat /\
  nth 0 (accumulatedY frameCommit) 0 == 80.75 /\
  (exists p, nth_error (traceData frameCommit) 0 = Some p /\ y p == 78.25) /\
  traceData frameCommit = traceData (fst sessionEnd).
Proof.
  pose proof frameCommitCheck_true as H. unfold frameCommitCheck in H.
  apply andb_true_iff in H. destruct H as [H Hshown].
  apply andb_true_iff in H. destruct H as [Hcount Hacc].
  apply Nat.eqb_eq in Hcount. apply Qeq_bool_eq in Hacc.
  split; [exact Hcount|]. split; [exact Hacc|].
  split; [apply firstYIs_true; exact Hshown|].
  apply act_keeps_traceData.
Qed.

(** ** The graph view *)

Ltac to_order :=
  repeat match goal with
         | H : Qltb _ _ = true |- _ => apply Qltb_true in H
         | H : Qltb _ _ = false |- _ => apply Qltb_false in H
         | H : Qgtb _ _ = true |- _ => apply Qgtb_true in H
         | H : Qgtb _ _ = false |- _ => apply Qgtb_false in H
         | H : Qgeb _ _ = true |- _ => apply Qgeb_true in H
         | H : Qgeb _ _ = false |- _ => apply Qgeb_false in H
         end.

(** The four outcomes of a zoom: the full range, a window pushed against
    the left or the right border, or a window around the old centre. *)
Lemma handleZoom_cases cfg v dir :
  0 < range cfg ->
  let w := view_end v - view_start v in
  let c := view_start v + w * (1 # 2) in
  let s := match dir with ZoomIn => w * (2 # 3) | ZoomOut => w * (3 # 2) end in
  let n := Qmin (range cfg) (Qmax 0.1 s) in
  let v' := handleZoom cfg v dir in
  (range cfg <= n /\ view_start v' == 0 /\ view_end v' == range cfg) \/
  (n < range cfg /\ c - n * (1 # 2) < 0 /\
   view_start v' == 0 /\ view_end v' == n) \/
  (n < range cfg /\ 0 <= c - n * (1 # 2) /\ range cfg < c + n * (1 # 2) /\
   view_start v' == range cfg - n /\ view_end v' == range cfg) \/
  (n < range cfg /\ 0 <= c - n * (1 # 2) /\ c + n * (1 # 2) <= range cfg /\
   view_start v' == c - n * (1 # 2) /\ view_end v' == c + n * (1 # 2)).
Proof.
  intros HR w c s n v'.
  unfold v', handleZoom. cbv zeta. fold w.
  set (s0 := match dir with ZoomIn => w / 1.5 | ZoomOut => w * 1.5 end).
  assert (Hs : s0 == s) by (unfold s0, s; destruct dir; field).
  set (c0 := view_start v + w / 2).
  assert (Hc : c0 == c) by (unfold c0, c; field).
  set (n1 := if Qltb s0 0.1 then 0.1 else s0).
  set (n0 := if Qgtb n1 (range cfg) then range cfg else n1).
  assert (Hn1 : n1 == Qmax 0.1 s).
  { unfold n1. destruct (Qltb s0 0.1) eqn:E; to_order.
    - rewrite Q.max_l by lra. reflexivity.
    - rewrite Q.max_r by lra. exact Hs. }
  assert (Hn : n0 == n).
  { unfold n0, n. destruct (Qgtb n1 (range cfg)) eqn:E; to_order.
    - rewrite Q.min_l by lra. reflexivity.
    - rewrite Q.min_r by lra. exact Hn1. }
  set (h := n0 / 2).
  assert (Hh : h == n * (1 # 2)) by (unfold h; rewrite Hn; field).
  clearbody n0 c0 h. clear Hn1 n1 Hs s0.
  destruct (Qgeb n0 (range cfg)) eqn:E3;
    destruct (Qltb (c0 - h) 0) eqn:E1; cbn [fst snd];
    try (destruct (Qgtb n0 (range cfg)) eqn:E2);
    try (destruct (Qgtb (c0 + h) (range cfg)) eqn:E2');
    cbn [fst snd view_start view_end]; to_order;
    first
      [ left; split; [lra|split; reflexivity]
      | right; left; repeat split; first [lra|reflexivity|assumption]
      | right; right; left; repeat split; first [lra|reflexivity]
      | right; right; right; repeat split; lra ].
Qed.

(** X1: for a positive range, whatever the current window and direction,
    a zoom yields a non-empty window inside [0, range] whose width is the
    scaled width clamped between 0.1 km and the range. *)
Theorem zoom_view_within_range :
  forall (cfg : SimulationConfig) (v : ViewState) (dir : ZoomDirection),
  0 < range cfg ->
  let w := view_end v - view_start v in
  let scaled := match dir with ZoomIn => w / 1.5 | ZoomOut => w * 1.5 end in
  let v' := handleZoom cfg v dir in
  0 <= view_start v' /\ view_start v' < view_end v' /\
  view_end v' <= range cfg /\
  view_end v' - view_start v' == Qmin (range cfg) (Qmax 0.1 scaled).
Proof.
  intros cfg v dir HR w scaled v'.
  pose proof (handleZoom_cases cfg v dir HR) as H. cbv zeta in H.
  fold w in H. fold v' in H.
  assert (Hs : match dir with ZoomIn => w * (2 # 3) | ZoomOut => w * (3 # 2) end
               == scaled) by (unfold scaled; destruct dir; field).
  rewrite Hs in H.
  set (n := Qmin (range cfg) (Qmax 0.1 scaled)) in *.
  assert (Hn : 0 < n).
  { unfold n. apply Q.min_glb_lt; [exact HR|].
    eapply Qlt_le_trans; [|apply Q.le_max_l]. reflexivity. }
  assert (HnR : n <= range cfg) by apply Q.le_min_l.
  clearbody n.
  destruct H as [[H1 [H2 H3]]|[[H1 [H2 [H3 H4]]]|[[H1 [H2 [H3 [H4 H5]]]]
                |[H1 [H2 [H3 [H4 H5]]]]]]];
    repeat split; lra.
Qed.

Lemma zoom_view_within_range_witness :
  0 < range initialConfig /\
  view_end (handleZoom initialConfig (mkView 0 20) ZoomIn)
  - view_start (handleZoom initialConfig (mkView 0 20) ZoomIn)
  == Qmin (range initialConfig) (Qmax 0.1 ((20 - 0) / 1.5)).
Proof.
  assert (H : 0 < range initialConfig) by reflexivity.
  split; [exact H|].
  exact (proj2 (proj2 (proj2
           (zoom_view_within_range initialConfig (mkView 0 20) ZoomIn H)))).
Defined.

(** X2: zooming in and then out again restores a window that lies inside
    [0, range] and is at least 0.15 km wide. *)
Theorem zoom_in_then_out_restores :
  forall (cfg : SimulationConfig) (v : ViewState),
  0 <= view_start v -> view_end v <= range cfg ->
  0.15 <= view_end v - view_start v ->
  let v2 := handleZoom cfg (handleZoom cfg v ZoomIn) ZoomOut in
  view_start v2 == view_start v /\ view_end v2 == view_end v.
Proof.
  intros cfg v H0 HR Hw v2.
  assert (HRpos : 0 < range cfg) by lra.
  pose proof (handleZoom_cases cfg v ZoomIn HRpos) as H1. cbv zeta in H1.
  set (v1 := handleZoom cfg v ZoomIn) in *.
  pose proof (handleZoom_cases cfg v1 ZoomOut HRpos) as H2. cbv zeta in H2.
  fold v2 in H2.
  set (w := view_end v - view_start v) in *.
  assert (Hn1 : Qmin (range cfg) (Qmax 0.1 (w * (2 # 3))) == w * (2 # 3)).
  { assert (Hm : Qmax 0.1 (w * (2 # 3)) == w * (2 # 3))
      by (apply Q.max_r; unfold w in *; lra).
    rewrite Hm. apply Q.min_r. unfold w in *. lra. }
  rewrite Hn1 in H1.
  assert (Hv1 : view_start v1 == view_start v + w * (1 # 6) /\
                view_end v1 == view_end v - w * (1 # 6)).
  { unfold w in *.
    destruct H1 as [[A1 [A2 A3]]|[[A1 [A2 [A3 A4]]]|[[A1 [A2 [A3 [A4 A5]]]]
                  |[A1 [A2 [A3 [A4 A5]]]]]]]; split; lra. }
  destruct Hv1 as [Hs1 He1].
  set (w1 := view_end v1 - view_start v1) in *.
  assert (Hw1 : w1 * (3 # 2) == w) by (unfold w1, w in *; lra).
  assert (Hn2 : Qmin (range cfg) (Qmax 0.1 (w1 * (3 # 2))) == w).
  { rewrite Hw1.
    assert (Hm : Qmax 0.1 w == w) by (apply Q.max_r; unfold w in *; lra).
    rewrite Hm. apply Q.min_r. unfold w in *. lra. }
  rewrite Hn2 in H2. unfold w1, w in *.
  destruct H2 as [[A1 [A2 A3]]|[[A1 [A2 [A3 A4]]]|[[A1 [A2 [A3 [A4 A5]]]]
                |[A1 [A2 [A3 [A4 A5]]]]]]]; split; lra.
Qed.

Lemma zoom_in_then_out_restores_witness :
  (0 <= view_start (mkView 2 8) /\ view_end (mkView 2 8) <= range initialConfig /\
   0.15 <= view_end (mkView 2 8) - view_start (mkView 2 8)) /\
  view_start (handleZoom initialConfig
                (handleZoom initialConfig (mkView 2 8) ZoomIn) ZoomOut) == 2.
Proof.
  assert (H1 : 0 <= view_start (mkView 2 8)) by discriminate.
  assert (H2 : view_end (mkView 2 8) <= range initialConfig) by discriminate.
  assert (H3 : 0.15 <= view_end (mkView 2 8) - view_start (mkView 2 8))
    by discriminate.
  split; [repeat split; assumption|].
  exact (proj1 (zoom_in_then_out_restores initialConfig (mkView 2 8) H1 H2 H3)).
Defined.

(** X3: scrolling keeps the width of a window that is not wider than the
    range and puts it inside [0, range], wherever the slider stands. *)
Theorem scroll_keeps_width_in_range :
  forall (cfg : SimulationConfig) (v : ViewState) (centerPerc : Q),
  view_end v - view_start v <= range cfg ->
  let v' := handleScroll cfg v centerPerc in
  0 <= view_start v' /\ view_end v' <= range cfg /\
  view_end v' - view_start v' == view_end v - view_start v.
Proof.
  intros cfg v p HR v'. unfold v', handleScroll. cbv zeta.
  set (w := view_end v - view_start v) in *.
  set (h := w / 2).
  assert (Hh : w == 2 * h) by (unfold h; field).
  set (c := range cfg * p). clearbody c h.
  destruct (Qltb (c - h) 0) eqn:E1; cbn [fst snd];
    [destruct (Qgtb w (range cfg)) eqn:E2
    |destruct (Qgtb (c + h) (range cfg)) eqn:E2];
    cbn [fst snd view_start view_end]; to_order; repeat split; lra.
Qed.

Lemma scroll_keeps_width_in_range_witness :
  view_end (mkView 2 8) - view_start (mkView 2 8) <= range initialConfig /\
  view_end (handleScroll initialConfig (mkView 2 8) 1) <= range initialConfig.
Proof.
  assert (H : view_end (mkView 2 8) - view_start (mkView 2 8)
              <= range initialConfig) by discriminate.
  split; [exact H|].
  exact (proj1 (proj2 (scroll_keeps_width_in_range initialConfig (mkView 2 8) 1 H))).
Defined.

(** X4: the pointer-to-distance map of the cursor and [kmToPx] are inverse
    to each other up to the scale between the 1000 units of the drawing
    and the rendered width of the chart. *)
Theorem cursor_pixel_round_trip :
  forall (v : ViewState) (rectWidth xPx km : Q),
  ~ viewRange v == 0 -> ~ rectWidth == 0 ->
  kmToPx v (cursorDistance v xPx rectWidth) == xPx * (GRAPH_WIDTH / rectWidth) /\
  cursorDistance v (kmToPx v km * (rectWidth / GRAPH_WIDTH)) rectWidth == km.
Proof.
  intros v rw xPx km Hv Hrw.
  unfold kmToPx, cursorDistance, xScale, GRAPH_WIDTH.
  split; field; auto.
Qed.

Lemma cursor_pixel_round_trip_witness :
  (~ viewRange (mkView 2 8) == 0 /\ ~ 500 == 0) /\
  kmToPx (mkView 2 8) (cursorDistance (mkView 2 8) 250 500)
  == 250 * (GRAPH_WIDTH / 500).
Proof.
  assert (H1 : ~ viewRange (mkView 2 8) == 0) by discriminate.
  assert (H2 : ~ 500 == 0) by discriminate.
  split; [split; assumption|].
  exact (proj1 (cursor_pixel_round_trip (mkView 2 8) 500 250 0 H1 H2)).
Defined.

Lemma arrayGet_in_bounds {A : Type} (l : list A) (i : Z) :
  (0 <= i < Z.of_nat (length l))%Z ->
  exists a, arrayGet l i = Some a /\ nth_error l (Z.to_nat i) = Some a.
Proof.
  intros [H0 H1]. unfold arrayGet.
  destruct (i <? 0)%Z eqn:E; [apply Z.ltb_lt in E; lia|].
  destruct (nth_error l (Z.to_nat i)) as [a|] eqn:Hn.
  - exists a. split; reflexivity.
  - apply nth_error_None in Hn. lia.
Qed.

(** X5: with a range and a chart width that are not zero, on a trace that
    is not empty the cursor always takes the y-value of a point of the
    trace, wherever the pointer is, also left or right of the trace; on an
    empty trace the cursor is left as it was. *)
Theorem cursor_reads_inside_trace :
  forall (cfg : SimulationConfig) (v : ViewState) (trace : list TracePoint)
         (xPx rectWidth : Q) (cursor : option TracePoint),
  ~ range cfg == 0 -> ~ rectWidth == 0 ->
  (trace <> [] ->
   exists p, In p trace /\
     handleChartMouseMove cfg v trace xPx rectWidth cursor
     = Some (mkPoint (cursorDistance v xPx rectWidth) (y p))) /\
  (trace = [] ->
   handleChartMouseMove cfg v trace xPx rectWidth cursor = cursor).
Proof.
  intros cfg v trace xPx rw cursor _ _. split.
  - intro Hne. unfold handleChartMouseMove. cbv zeta.
    set (i := cursorIndex cfg (length trace) (cursorDistance v xPx rw)).
    assert (Hi : (0 <= i < Z.of_nat (length trace))%Z).
    { unfold i, cursorIndex. cbv zeta.
      destruct trace as [|p t]; [contradiction Hne; reflexivity|].
      simpl length. lia. }
    destruct (arrayGet_in_bounds trace i Hi) as [p [Hget Hnth]].
    rewrite Hget. exists p. split; [|reflexivity].
    eapply nth_error_In. exact Hnth.
  - intros ->. unfold handleChartMouseMove, arrayGet. cbv zeta.
    destruct (cursorIndex cfg (length []) (cursorDistance v xPx rw) <? 0)%Z;
      [reflexivity|].
    destruct (Z.to_nat _); reflexivity.
Qed.

Lemma cursor_reads_inside_trace_witness :
  (~ range initialConfig == 0 /\ ~ 1000 == 0) /\
  exists p, In p [mkPoint 0 1; mkPoint 1 2] /\
    handleChartMouseMove initialConfig (mkView 0 20) [mkPoint 0 1; mkPoint 1 2]
      (-5) 1000 None
    = Some (mkPoint (cursorDistance (mkView 0 20) (-5) 1000) (y p)).
Proof.
  assert (H : ~ range initialConfig == 0) by discriminate.
  assert (H' : ~ 1000 == 0) by discriminate.
  split; [split; assumption|].
  apply (proj1 (cursor_reads_inside_trace initialConfig (mkView 0 20)
                  [mkPoint 0 1; mkPoint 1 2] (-5) 1000 None H H')).
  discriminate.
Defined.




(** ** The topology handlers *)

Lemma handleDeleteEvent_In events id0 e :
  In e (handleDeleteEvent events id0) <->
  In e events /\ (id e <> id0 \/ id0 = "start"%string \/ id0 = "end"%string).
Proof.
  unfold handleDeleteEvent.
  destruct (String.eqb id0 "start") eqn:Es.
  - apply String.eqb_eq in Es. simpl. tauto.
  - destruct (String.eqb id0 "end") eqn:Ee; simpl.
    + apply String.eqb_eq in Ee. tauto.
    + apply String.eqb_neq in Es. apply String.eqb_neq in Ee.
      rewrite filter_In, negb_true_iff, String.eqb_neq. tauto.
Qed.

Lemma filter_idempotent {A : Type} (p : A -> bool) (l : list A) :
  filter p (filter p l) = filter p l.
Proof.
  induction l as [|a t IH]; simpl; [reflexivity|].
  destruct (p a) eqn:E; simpl; [rewrite E, IH|]; auto.
Qed.

(** X7: deleting by identifier removes exactly the events with that
    identifier and keeps the others in their order, except that the
    identifiers "start" and "end" are refused: no event with one of these
    two identifiers is ever removed.  Deleting twice is deleting once. *)
Theorem delete_never_removes_start_end :
  forall (events : list FiberEvent) (id0 : string),
  (forall e, In e (handleDeleteEvent events id0) <->
     In e events /\ (id e <> id0 \/ id0 = "start"%string \/ id0 = "end"%string)) /\
  (forall e, In e events -> id e = "start"%string \/ id e = "end"%string ->
     In e (handleDeleteEvent events id0)) /\
  (id0 <> "start"%string -> id0 <> "end"%string ->
   forall e, In e (handleDeleteEvent events id0) -> id e <> id0) /\
  (exists keep, handleDeleteEvent events id0 = filter keep events) /\
  handleDeleteEvent (handleDeleteEvent events id0) id0 = handleDeleteEvent events id0.
Proof.
  intros events id0. split; [|split; [|split; [|split]]].
  - intro e. apply handleDeleteEvent_In.
  - intros e He Hid. apply handleDeleteEvent_In. split; [exact He|].
    destruct (String.eqb (id e) id0) eqn:E.
    + apply String.eqb_eq in E. rewrite <- E. tauto.
    + apply String.eqb_neq in E. tauto.
  - intros Hs He e Hin. apply handleDeleteEvent_In in Hin. tauto.
  - unfold handleDeleteEvent.
    destruct (String.eqb id0 "start" || String.eqb id0 "end").
    + exists (fun _ => true). symmetry. apply forallb_filter_id.
      apply forallb_forall. reflexivity.
    + eexists. reflexivity.
  - unfold handleDeleteEvent.
    destruct (String.eqb id0 "start" || String.eqb id0 "end"); [reflexivity|].
    apply filter_idempotent.
Qed.

Lemma setField_keeps e field value :
  id (setField e field value) = id e /\ type (setField e field value) = type e /\
  getField (setField e field value) field = value.
Proof. destruct field; repeat split. Qed.

Lemma setField_other e field field' value :
  field <> field' -> getField (setField e field value) field' = getField e field'.
Proof. destruct field, field'; intro H; try reflexivity; contradiction H; reflexivity. Qed.

(** X8: an update keeps the number, the order, the identifiers and the
    types of the events; in the result every event with the given
    identifier holds the new value in the written field and its old values
    in the two other fields, and the events with another identifier are
    untouched. *)
Theorem update_event_writes_field :
  forall (events : list FiberEvent) (id0 : string) (field : NumericField) (value : Q),
  let events' := handleUpdateEvent events id0 field value in
  length events' = length events /\
  map id events' = map id events /\
  map type events' = map type events /\
  (forall k e, nth_error events k = Some e ->
     exists e', nth_error events' k = Some e' /\
       (id e = id0 ->
        getField e' field = value /\
        forall field', field <> field' -> getField e' field' = getField e field') /\
       (id e <> id0 -> e' = e)).
Proof.
  intros events id0 field value events'. unfold events', handleUpdateEvent.
  split; [apply length_map|]. split; [|split].
  - rewrite map_map. apply map_ext. intro e.
    destruct (String.eqb (id e) id0); [apply setField_keeps|reflexivity].
  - rewrite map_map. apply map_ext. intro e.
    destruct (String.eqb (id e) id0); [apply setField_keeps|reflexivity].
  - intros k e Hk. rewrite nth_error_map, Hk. simpl.
    eexists. split; [reflexivity|]. split.
    + intro Hid. apply String.eqb_eq in Hid. rewrite Hid. split.
      * apply setField_keeps.
      * intros field' Hne. apply setField_other. exact Hne.
    + intro Hid. apply String.eqb_neq in Hid. rewrite Hid. reflexivity.
Qed.

(** X9: writing the same field of the same identifier twice keeps the last
    value only, and writes to different fields commute. *)
Theorem update_event_last_write_wins :
  forall (events : list FiberEvent) (id0 : string) (field field' : NumericField)
         (v1 v2 : Q),
  handleUpdateEvent (handleUpdateEvent events id0 field v1) id0 field v2
  = handleUpdateEvent events id0 field v2 /\
  (field <> field' ->
   handleUpdateEvent (handleUpdateEvent events id0 field v1) id0 field' v2
   = handleUpdateEvent (handleUpdateEvent events id0 field' v2) id0 field v1).
Proof.
  intros events id0 field field' v1 v2. unfold handleUpdateEvent.
  rewrite !map_map. split.
  - apply map_ext. intro e. destruct (String.eqb (id e) id0) eqn:E.
    + destruct field; simpl; rewrite E; reflexivity.
    + rewrite E. reflexivity.
  - intro Hne. apply map_ext. intro e. destruct (String.eqb (id e) id0) eqn:E.
    + destruct field, field'; simpl; rewrite E; try reflexivity;
        contradiction Hne; reflexivity.
    + rewrite !E. reflexivity.
Qed.

Lemma findIndex_Some {A : Type} (p : A -> bool) (l : list A) : forall i,
  findIndex p l = Some i ->
  exists a post, skipn i l = a :: post /\ p a = true /\
                 forall b, In b (firstn i l) -> p b = false.
Proof.
  induction l as [|a t IH]; intros i H; simpl in H; [discriminate|].
  destruct (p a) eqn:E.
  - injection H as <-. exists a, t. simpl. repeat split; [exact E|tauto].
  - destruct (findIndex p t) as [j|] eqn:Hj; simpl in H; [|discriminate].
    injection H as <-. destruct (IH j eq_refl) as [a' [post [Hs [Hp Hpre]]]].
    exists a', post. simpl. repeat split; [exact Hs|exact Hp|].
    intros b [<-|Hb]; [exact E|apply Hpre; exact Hb].
Qed.

Lemma findIndex_None {A : Type} (p : A -> bool) (l : list A) :
  findIndex p l = None -> forall b, In b l -> p b = false.
Proof.
  induction l as [|a t IH]; intros H b Hb; simpl in *; [contradiction|].
  destruct (p a) eqn:E; [discriminate|].
  destruct (findIndex p t); [discriminate|].
  destruct Hb as [<-|Hb]; [exact E|apply IH; [reflexivity|exact Hb]].
Qed.

Lemma handleAddEvent_split events cut ty rnd newId :
  exists pre post,
    events = pre ++ post /\
    handleAddEvent events cut ty rnd newId
    = pre ++ newEventOf events cut ty rnd newId :: post /\
    (forall e, In e pre -> type e <> T_end) /\
    (post = [] \/ exists e t, post = e :: t /\ type e = T_end).
Proof.
  unfold handleAddEvent. cbv zeta.
  destruct (findIndex isEnd events) as [i|] eqn:Hi.
  - destruct (findIndex_Some isEnd events i Hi) as [a [post [Hs [Hp Hpre]]]].
    exists (firstn i events), (skipn i events).
    split; [symmetry; apply firstn_skipn|]. split; [reflexivity|]. split.
    + intros e He Hty. apply Hpre in He. unfold isEnd in He.
      rewrite Hty in He. discriminate.
    + right. exists a, post. split; [exact Hs|].
      apply EventType_eqb_eq. exact Hp.
  - exists events, []. split; [symmetry; apply app_nil_r|].
    split; [reflexivity|]. split; [|left; reflexivity].
    intros e He Hty. apply (findIndex_None isEnd events Hi) in He.
    unfold isEnd in He. rewrite Hty in He. discriminate.
Qed.

Lemma handleAddEvent_In events cut ty rnd newId e :
  In e (handleAddEvent events cut ty rnd newId) <->
  e = newEventOf events cut ty rnd newId \/ In e events.
Proof.
  destruct (handleAddEvent_split events cut ty rnd newId)
    as [pre [post [He [Hr _]]]].
  rewrite Hr. rewrite He at 3. rewrite !in_app_iff. simpl.
  intuition congruence.
Qed.

(** X10: the add handler keeps all events in their order and puts the new
    event directly before the first event of type end, or last when there
    is none.  The new event has the requested type and the given
    identifier, a loss of 0.05 dB for a splice, 1.5 dB for a degradation
    and 0.5 dB otherwise, and a reflectance of -40 dB for a connector and
    -99 dB otherwise. *)
Theorem add_event_inserts_before_end :
  forall (events : list FiberEvent) (cut : option Q) (ty : EventType) (rnd : Q)
         (newId : string),
  let newEvent := newEventOf events cut ty rnd newId in
  (exists pre post,
     events = pre ++ post /\
     handleAddEvent events cut ty rnd newId = pre ++ newEvent :: post /\
     (forall e, In e pre -> type e <> T_end) /\
     (post = [] \/ exists e t, post = e :: t /\ type e = T_end)) /\
  length (handleAddEvent events cut ty rnd newId) = S (length events) /\
  id newEvent = newId /\ type newEvent = ty /\
  loss newEvent = (if EventType_eqb ty T_splice then 0.05
                   else if EventType_eqb ty T_degradation then 1.5 else 0.5) /\
  reflectance newEvent = (if EventType_eqb ty T_connector then -40 else -99).
Proof.
  intros events cut ty rnd newId newEvent.
  pose proof (handleAddEvent_split events cut ty rnd newId) as Hstruct.
  fold newEvent in Hstruct.
  split; [exact Hstruct|]. split.
  - destruct Hstruct as [pre [post [He [Hr _]]]].
    rewrite Hr, He, !length_app. simpl. lia.
  - repeat split; destruct ty; reflexivity.
Qed.

Lemma toFixed3_near v :
  0 <= v ->
  v - (1 # 2000) <= toFixed3 v /\ toFixed3 v <= v + (1 # 2000) /\
  0 <= toFixed3 v /\
  toFixed3 v == inject_Z (Qfloor (v * 1000 + (1 # 2))) * (1 # 1000).
Proof.
  intro Hv. unfold toFixed3.
  assert (E : Qltb v 0 = false) by (apply Qltb_false; exact Hv).
  rewrite E.
  pose proof (Qfloor_le (v * 1000 + (1 # 2))) as Hlo.
  pose proof (Qlt_floor (v * 1000 + (1 # 2))) as Hhi.
  rewrite inject_Z_plus in Hhi.
  assert (H0 : (0 <= Qfloor (v * 1000 + (1 # 2)))%Z).
  { change 0%Z with (Qfloor 0). apply Qfloor_resp_le. lra. }
  rewrite Zle_Qle in H0.
  set (n := inject_Z (Qfloor (v * 1000 + (1 # 2)))) in *.
  assert (Ht : n / 1000 == n * (1 # 1000)) by field.
  rewrite Ht. change (inject_Z 1) with 1 in Hhi. change (inject_Z 0) with 0 in H0.
  repeat split; lra.
Qed.

(** X11: for a random value in [0, 1) and a fiber length that is not
    negative, the distance of an added event is a whole number of metres,
    not negative, within half a metre of the interval from 10 % to 90 % of
    the fiber length (the cut distance while a cut is active); for a
    length of at least 10 m it lies strictly between 0 and that length. *)
Theorem add_event_distance_inside_fiber :
  forall (events : list FiberEvent) (cut : option Q) (ty : EventType) (rnd : Q)
         (newId : string),
  0 <= rnd -> rnd < 1 -> 0 <= addMaxDist events cut ->
  let maxDist := addMaxDist events cut in
  let d := distance (newEventOf events cut ty rnd newId) in
  (exists n : Z, d == inject_Z n * (1 # 1000)) /\
  0 <= d /\
  maxDist * 0.1 - (1 # 2000) <= d /\ d <= maxDist * 0.9 + (1 # 2000) /\
  (0.01 <= maxDist -> 0 < d /\ d < maxDist).
Proof.
  intros events cut ty rnd newId Hr0 Hr1 Hm maxDist d. fold maxDist in Hm.
  unfold d, newEventOf. cbv zeta. cbn [distance]. fold maxDist.
  set (raw := rnd * (maxDist * 0.8) + maxDist * 0.1).
  assert (Hprod : 0 <= rnd * maxDist) by (apply Qmult_le_0_compat; assumption).
  assert (Hprod' : 0 <= (1 - rnd) * maxDist)
    by (apply Qmult_le_0_compat; [lra|assumption]).
  assert (Eraw : raw == (8 # 10) * (rnd * maxDist) + (1 # 10) * maxDist)
    by (unfold raw; ring).
  assert (Eraw' : raw == (9 # 10) * maxDist - (8 # 10) * ((1 - rnd) * maxDist))
    by (unfold raw; ring).
  set (p := rnd * maxDist) in *. set (q := (1 - rnd) * maxDist) in *.
  assert (Hraw0 : 0 <= raw) by lra.
  destruct (toFixed3_near raw Hraw0) as [Hlo [Hhi [H0 Hn]]].
  split; [eexists; exact Hn|]. split; [exact H0|].
  split; [lra|]. split; [lra|].
  intro Hbig. split.
  - assert (Hf : (1 <= Qfloor (raw * 1000 + (1 # 2)))%Z).
    { apply (Qfloor_resp_le 1 (raw * 1000 + (1 # 2))). lra. }
    rewrite Zle_Qle in Hf. change (inject_Z 1) with 1 in Hf.
    rewrite Hn. lra.
  - lra.
Qed.

Lemma add_event_distance_inside_fiber_witness :
  (0 <= (1 # 2) /\ (1 # 2) < 1 /\ 0 <= addMaxDist initialEvents None) /\
  0 <= distance (newEventOf initialEvents None T_splice (1 # 2) "e3").
Proof.
  assert (H1 : 0 <= (1 # 2)) by discriminate.
  assert (H2 : (1 # 2) < 1) by reflexivity.
  assert (H3 : 0 <= addMaxDist initialEvents None) by discriminate.
  split; [repeat split; assumption|].
  exact (proj1 (proj2 (add_event_distance_inside_fiber initialEvents None
                         T_splice (1 # 2) "e3" H1 H2 H3))).
Defined.

Lemma applyEdit_keeps_protected cut events ed e :
  In e events -> id e = "start"%string \/ id e = "end"%string ->
  exists e', In e' (applyEdit cut events ed) /\ id e' = id e /\ type e' = type e.
Proof.
  intros He Hid. destruct ed as [ty rnd newId|id0 field value|id0]; simpl.
  - exists e. split; [apply handleAddEvent_In; right; exact He|split; reflexivity].
  - exists (if String.eqb (id e) id0 then setField e field value else e).
    split.
    + unfold handleUpdateEvent.
      apply (in_map (fun e => if String.eqb (id e) id0
                              then setField e field value else e)).
      exact He.
    + destruct (String.eqb (id e) id0); [|split; reflexivity].
      destruct (setField_keeps e field value) as [H1 [H2 _]]. split; assumption.
  - exists e. split; [|split; reflexivity].
    apply handleDeleteEvent_In. split; [exact He|].
    destruct (String.eqb (id e) id0) eqn:E.
    + apply String.eqb_eq in E. rewrite <- E. tauto.
    + apply String.eqb_neq in E. tauto.
Qed.

(** X12: no sequence of additions, updates and deletions removes an event
    whose identifier is "start" or "end": after the edits the topology
    still holds an event with that identifier and the same type. *)
Theorem edits_keep_start_and_end :
  forall (cut : option Q) (edits : list Edit) (events : list FiberEvent)
         (e : FiberEvent),
  In e events -> id e = "start"%string \/ id e = "end"%string ->
  exists e', In e' (fold_left (applyEdit cut) edits events) /\
             id e' = id e /\ type e' = type e.
Proof.
  intros cut edits. induction edits as [|ed edits IH]; intros events e He Hid.
  - exists e. simpl. repeat split. exact He.
  - simpl. destruct (applyEdit_keeps_protected cut events ed e He Hid)
      as [e1 [H1 [Hid1 Hty1]]].
    assert (Hid' : id e1 = "start"%string \/ id e1 = "end"%string)
      by (rewrite Hid1; exact Hid).
    destruct (IH (applyEdit cut events ed) e1 H1 Hid') as [e' [H' [Hi' Ht']]].
    exists e'. split; [exact H'|]. split; congruence.
Qed.

Lemma edits_keep_start_and_end_witness :
  (In (mkEvent "end" T_end 18.0 0 (-14)) initialEvents /\
   (id (mkEvent "end" T_end 18.0 0 (-14)) = "start"%string \/
    id (mkEvent "end" T_end 18.0 0 (-14)) = "end"%string)) /\
  exists e',
    In e' (fold_left (applyEdit None)
             [DeleteEvent "end"; UpdateEvent "end" F_distance 25;
              AddEvent T_bend (1 # 2) "b1"; DeleteEvent "e1"] initialEvents) /\
    id e' = "end"%string /\ type e' = T_end.
Proof.
  assert (H1 : In (mkEvent "end" T_end 18.0 0 (-14)) initialEvents)
    by (simpl; tauto).
  assert (H2 : id (mkEvent "end" T_end 18.0 0 (-14)) = "start"%string \/
               id (mkEvent "end" T_end 18.0 0 (-14)) = "end"%string)
    by (right; reflexivity).
  split; [split; assumption|].
  exact (edits_keep_start_and_end None _ initialEvents _ H1 H2).
Defined.

(** ** The analysis table, row by row *)

Lemma analyzeFrom_listing coeff : forall evs i prev tot,
  map (fun r => (rec_type r, rec_location r)) (analyzeFrom coeff i prev tot evs)
  = map (fun e => (type e, distance e)) (filter notStart evs).
Proof.
  induction evs as [|e rest IH]; intros i prev tot; simpl; [reflexivity|].
  unfold notStart at 1. destruct (EventType_eqb (type e) T_start); simpl.
  - apply IH.
  - rewrite IH. reflexivity.
Qed.

Lemma analyzeFrom_rows coeff : forall evs i prev tot r,
  In r (analyzeFrom coeff i prev tot evs) ->
  exists e, (i <= rec_no r)%nat /\ nth_error evs (rec_no r - i) = Some e /\
            notStart e = true /\ r = mkAnalysisRecord (rec_no r) e (rec_cumLoss r).
Proof.
  induction evs as [|e rest IH]; intros i prev tot r Hr; simpl in Hr;
    [contradiction|].
  destruct (EventType_eqb (type e) T_start) eqn:Es.
  - destruct (IH _ _ _ _ Hr) as [e' [Hi [Hn [Hs Heq]]]].
    exists e'. split; [lia|]. split; [|split; assumption].
    replace (rec_no r - i)%nat with (S (rec_no r - S i)) by lia. exact Hn.
  - destruct Hr as [<-|Hr].
    + exists e. simpl. split; [lia|]. rewrite Nat.sub_diag.
      split; [reflexivity|]. split; [|reflexivity].
      unfold notStart. rewrite Es. reflexivity.
    + destruct (IH _ _ _ _ Hr) as [e' [Hi [Hn [Hs Heq]]]].
      exists e'. split; [lia|]. split; [|split; assumption].
      replace (rec_no r - i)%nat with (S (rec_no r - S i)) by lia. exact Hn.
Qed.

(** X13: the analysis table has one row for every event of the analyzer's
    list that is not of type start, in ascending distance, and no row of
    type start; the row numbered n is built from the n-th event of the
    sorted list: its type, its distance, its reflectance if above -60 dB
    and its loss, or the text "> 50.0" for a cut. *)
Theorem analysis_table_lists_non_start_events :
  forall (cfg : SimulationConfig) (evs : list FiberEvent) (cut : option Q),
  let table := analyzeTrace cfg evs cut in
  map (fun r => (rec_type r, rec_location r)) table
  = map (fun e => (type e, distance e)) (filter notStart (actualEvents evs cut)) /\
  length table = length (filter notStart (actualEvents evs cut)) /\
  (forall r, In r table ->
     rec_type r <> T_start /\
     exists e, nth_error (actualEvents evs cut) (rec_no r) = Some e /\
               r = mkAnalysisRecord (rec_no r) e (rec_cumLoss r)).
Proof.
  intros cfg evs cut table. unfold table. rewrite analyzeTrace_unfold.
  pose proof (analyzeFrom_listing (calculateAttenuation (wavelength cfg))
                (actualEvents evs cut) 0 0 0) as Hl.
  split; [exact Hl|]. split.
  - apply (f_equal (@length _)) in Hl. rewrite !length_map in Hl. exact Hl.
  - intros r Hr.
    destruct (analyzeFrom_rows _ _ _ _ _ _ Hr) as [e [_ [Hn [Hs Heq]]]].
    rewrite Nat.sub_0_r in Hn. split.
    + rewrite Heq. simpl. unfold notStart in Hs.
      intro Hty. rewrite Hty in Hs. discriminate.
    + exists e. split; assumption.
Qed.

Lemma analyzeFrom_total coeff : forall evs i prev tot,
  (forall e, In e evs -> notStart e = true) ->
  last (map rec_cumLoss (analyzeFrom coeff i prev tot evs)) tot
  == tot + totalLoss evs + (last (map distance evs) prev - prev) * coeff.
Proof.
  induction evs as [|e rest IH]; intros i prev tot Hns.
  - simpl. ring.
  - assert (He : EventType_eqb (type e) T_start = false).
    { specialize (Hns e (or_introl eq_refl)). unfold notStart in Hns.
      apply negb_true_iff in Hns. exact Hns. }
    cbn [analyzeFrom]. rewrite He. cbv zeta. cbn [map].
    rewrite !last_cons_default. cbn [rec_cumLoss mkAnalysisRecord].
    rewrite IH by (intros e' He'; apply Hns; right; exact He').
    cbn [totalLoss fold_right]. fold (totalLoss rest). ring.
Qed.

(** X14: when the sorted list starts with its only event of type start,
    the cumulative loss of the last row is the sum of the losses of all
    other events plus the attenuation coefficient times the distance from
    the start event to the last event. *)
Theorem end_to_end_loss_closed_form :
  forall (cfg : SimulationConfig) (evs : list FiberEvent) (cut : option Q)
         (s : FiberEvent) (rest : list FiberEvent),
  actualEvents evs cut = s :: rest ->
  type s = T_start ->
  (forall e, In e rest -> type e <> T_start) ->
  last (map rec_cumLoss (analyzeTrace cfg evs cut)) 0
  == totalLoss rest
     + (last (map distance rest) (distance s) - distance s)
       * calculateAttenuation (wavelength cfg).
Proof.
  intros cfg evs cut s rest Hact Hs Hrest.
  rewrite analyzeTrace_unfold, Hact. cbn [analyzeFrom]. rewrite Hs. cbn [EventType_eqb].
  rewrite analyzeFrom_total.
  - ring.
  - intros e He. unfold notStart. apply negb_true_iff.
    destruct (EventType_eqb (type e) T_start) eqn:E; [|reflexivity].
    apply EventType_eqb_eq in E. exfalso. apply (Hrest e He E).
Qed.

Lemma end_to_end_loss_closed_form_witness :
  (actualEvents initialEvents None
   = mkEvent "start" T_start 0 0.5 (-35)
     :: [ mkEvent "e1" T_splice 5.2 0.1 (-99);
          mkEvent "e2" T_connector 12.5 0.5 (-40);
          mkEvent "end" T_end 18.0 0 (-14) ] /\
   type (mkEvent "start" T_start 0 0.5 (-35)) = T_start /\
   forall e, In e [ mkEvent "e1" T_splice 5.2 0.1 (-99);
                    mkEvent "e2" T_connector 12.5 0.5 (-40);
                    mkEvent "end" T_end 18.0 0 (-14) ] -> type e <> T_start) /\
  last (map rec_cumLoss (analyzeTrace initialConfig initialEvents None)) 0
  == totalLoss [ mkEvent "e1" T_splice 5.2 0.1 (-99);
                 mkEvent "e2" T_connector 12.5 0.5 (-40);
                 mkEvent "end" T_end 18.0 0 (-14) ]
     + (last (map distance [ mkEvent "e1" T_splice 5.2 0.1 (-99);
                             mkEvent "e2" T_connector 12.5 0.5 (-40);
                             mkEvent "end" T_end 18.0 0 (-14) ]) 0 - 0)
       * calculateAttenuation (wavelength initialConfig).
Proof.
  assert (H1 : actualEvents initialEvents None
   = mkEvent "start" T_start 0 0.5 (-35)
     :: [ mkEvent "e1" T_splice 5.2 0.1 (-99);
          mkEvent "e2" T_connector 12.5 0.5 (-40);
          mkEvent "end" T_end 18.0 0 (-14) ]) by reflexivity.
  assert (H2 : type (mkEvent "start" T_start 0 0.5 (-35)) = T_start) by reflexivity.
  assert (H3 : forall e, In e [ mkEvent "e1" T_splice 5.2 0.1 (-99);
                    mkEvent "e2" T_connector 12.5 0.5 (-40);
                    mkEvent "end" T_end 18.0 0 (-14) ] -> type e <> T_start).
  { intros e He. simpl in He.
    destruct He as [<-|[<-|[<-|[]]]]; discriminate. }
  split; [split; [exact H1|split; [exact H2|exact H3]]|].
  exact (end_to_end_loss_closed_form initialConfig initialEvents None _ _ H1 H2 H3).
Defined.

(** ** The cut *)

Lemma actualEvents_cut evs d :
  actualEvents evs (Some d)
  = sortByDistance (filter (fun e => Qltb (distance e) d) evs) ++ [analyzerCutEvent d].
Proof.
  unfold actualEvents. apply sortByDistance_snoc.
  apply Forall_forall. intros a Ha. apply filter_In in Ha.
  destruct Ha as [_ Ha]. apply Qltb_true in Ha. exact Ha.
Qed.

Lemma actualEvents_cut_distance evs d e :
  In e (actualEvents evs (Some d)) -> distance e < d \/ e = analyzerCutEvent d.
Proof.
  rewrite actualEvents_cut, in_app_iff, sortByDistance_In, filter_In, Qltb_true.
  simpl. intuition.
Qed.

(** X15: cutting a fiber whose first end event lies at a positive distance
    puts the cut at 60 % of that distance, strictly inside the fiber; the
    same button then repairs the fiber.  With this cut the auto-range
    distance is the cut distance, the end event is no longer in the
    analyzer's list, no row of the table lies beyond the cut and the last
    row is the cut. *)
Theorem cut_fiber_truncates_analysis :
  forall (cfg : SimulationConfig) (events : list FiberEvent) (e : FiberEvent),
  find isEnd events = Some e -> 0 < distance e ->
  let d := distance e * 0.6 in
  handleCutFiber cfg events None = Some d /\
  0 < d /\ d < distance e /\
  handleCutFiber cfg events (handleCutFiber cfg events None) = None /\
  autoMaxDist events (Some d) = d /\
  ~ In e (actualEvents events (Some d)) /\
  (forall r, In r (analyzeTrace cfg events (Some d)) -> rec_location r <= d) /\
  exists pre r, analyzeTrace cfg events (Some d) = pre ++ [r] /\
                rec_type r = T_cut /\ rec_location r = d.
Proof.
  intros cfg events e Hfind Hpos d.
  assert (Hcut : handleCutFiber cfg events None = Some d).
  { unfold handleCutFiber. rewrite Hfind. cbv zeta. unfold js_or.
    destruct (Qeq_bool (distance e) 0) eqn:E; [|reflexivity].
    apply Qeq_bool_eq in E. rewrite E in Hpos. discriminate Hpos. }
  assert (Hd0 : 0 < d) by (unfold d; lra).
  assert (Hd1 : d < distance e) by (unfold d; lra).
  split; [exact Hcut|]. split; [exact Hd0|]. split; [exact Hd1|].
  split; [rewrite Hcut; reflexivity|]. split.
  { unfold autoMaxDist. rewrite Hfind. cbv zeta.
    apply Qltb_true in Hd1. rewrite Hd1. reflexivity. }
  split.
  { intro Hin. apply actualEvents_cut_distance in Hin.
    destruct Hin as [Hlt|Heq]; [lra|].
    rewrite Heq in Hd1. simpl in Hd1. lra. }
  split.
  - intros r Hr. rewrite analyzeTrace_unfold in Hr.
    destruct (analyzeFrom_rows _ _ _ _ _ _ Hr) as [e' [_ [Hn [_ Heq]]]].
    apply nth_error_In in Hn. apply actualEvents_cut_distance in Hn.
    rewrite Heq. simpl. destruct Hn as [Hlt | Hc]; [lra|rewrite Hc; simpl; lra].
  - rewrite analyzeTrace_unfold, actualEvents_cut, analyzeFrom_app.
    cbn [analyzeFrom analyzerCutEvent type EventType_eqb].
    eexists. eexists. split; [reflexivity|]. split; reflexivity.
Qed.

Lemma cut_fiber_truncates_analysis_witness :
  (find isEnd initialEvents = Some (mkEvent "end" T_end 18.0 0 (-14)) /\
   0 < distance (mkEvent "end" T_end 18.0 0 (-14))) /\
  handleCutFiber initialConfig initialEvents None
  = Some (distance (mkEvent "end" T_end 18.0 0 (-14)) * 0.6).
Proof.
  assert (H1 : find isEnd initialEvents = Some (mkEvent "end" T_end 18.0 0 (-14)))
    by reflexivity.
  assert (H2 : 0 < distance (mkEvent "end" T_end 18.0 0 (-14))) by reflexivity.
  split; [split; assumption|].
  exact (proj1 (cut_fiber_truncates_analysis initialConfig initialEvents _ H1 H2)).
Defined.

(** X16: the list the fiber view draws is in ascending distance and holds
    the same events in the same order as the list of the synthesizer: the
    two agree on type, distance, loss and reflectance, also on the
    synthetic cut event; only the identifier of that event differs. *)
Theorem visualization_matches_synthesis :
  forall (events : list FiberEvent) (cut : option Q),
  map (fun e => (type e, distance e, loss e, reflectance e))
      (visualizationEvents events cut)
  = map (fun e => (type e, distance e, loss e, reflectance e))
        (sortedEvents events cut) /\
  StronglySorted dle (visualizationEvents events cut) /\
  visualizationEvents events None = sortedEvents events None.
Proof.
  intros events cut. split; [|split; [|reflexivity]].
  - destruct cut as [d|]; [|reflexivity].
    unfold visualizationEvents, sortedEvents. cbv zeta.
    rewrite sortByDistance_snoc.
    + rewrite filter_sortByDistance, !map_app. reflexivity.
    + apply Forall_forall. intros a Ha. apply filter_In in Ha.
      destruct Ha as [_ Ha]. apply Qltb_true in Ha. exact Ha.
  - apply sortByDistance_sorted.
Qed.

(** ** The physics panel *)

(** X17: for an index of refraction that is not zero, the lengths of the
    physics panel, in metres, are the lengths the synthesizer works with,
    in kilometres: the pulse length, the event dead zone and the sampling
    step. *)
Theorem panel_matches_engine :
  forall (cfg : SimulationConfig),
  ~ ior cfg == 0 ->
  pulseLengthM cfg == pulseLengthKm cfg * 1000 /\
  eventDeadZoneM cfg == eventDeadZone cfg * 1000 /\
  samplingResM cfg == stepSize cfg * 1000 /\
  attenDeadZoneM cfg == eventDeadZoneM cfg * (8 # 3).
Proof.
  intros cfg Hior.
  unfold eventDeadZoneM, attenDeadZoneM, pulseLengthM, speedOfLightFiber,
    pulseWidthS, eventDeadZone, pulseLengthKm, pulseWidthSeconds,
    speedOfLightKmS, samplingResM, stepSize.
  change (inject_Z (Z.of_nat numPoints)) with 4000.
  repeat split; field;
    repeat split; first [exact Hior|discriminate|intro Hx; vm_compute in Hx; discriminate].
Qed.

Lemma panel_matches_engine_witness :
  ~ ior initialConfig == 0 /\
  eventDeadZoneM initialConfig == eventDeadZone initialConfig * 1000.
Proof.
  assert (H : ~ ior initialConfig == 0) by discriminate.
  split; [exact H|].
  exact (proj1 (proj2 (panel_matches_engine initialConfig H))).
Defined.

(** ** More on the shot *)

(** X18: every sample beyond the terminal distance is the noise floor plus
    the noise of that sample, whatever the topology before it. *)
Theorem past_terminal_samples_are_floor_noise :
  forall (log10 : Q -> Q) (cfg : SimulationConfig) (evs : list FiberEvent)
         (cut : option Q) (rnd : nat -> Q) (i : nat),
  (i < numPoints)%nat ->
  effectiveEndDistance cfg evs cut < sampleDistance cfg i ->
  nth_error (calculateSingleTrace log10 cfg evs cut rnd) i
  = Some (noiseFloor cfg + (rnd i - 0.5) * noiseAmplitude log10 cfg).
Proof.
  intros log10 cfg evs cut rnd i Hi Hpast.
  rewrite calculateSingleTrace_nth by exact Hi.
  rewrite traceValueAt_unfold. cbv zeta. unfold traceValueOf.
  assert (E : pastTerminal (sampleDistance cfg i) (effectiveEndDistance cfg evs cut)
              = true) by (apply Qgtb_true; exact Hpast).
  rewrite E. unfold addNoise. cbv zeta.
  destruct (Qltb _ _); reflexivity.
Qed.

Lemma past_terminal_samples_are_floor_noise_witness :
  ((3000 < numPoints)%nat /\
   effectiveEndDistance initialConfig initialEvents (Some 10)
   < sampleDistance initialConfig 3000) /\
  nth_error (calculateSingleTrace log10_magnitude initialConfig initialEvents
               (Some 10) (constantRandom 0.25)) 3000
  = Some (noiseFloor initialConfig
          + (constantRandom 0.25 3000%nat - 0.5)
            * noiseAmplitude log10_magnitude initialConfig).
Proof.
  assert (H1 : (3000 < numPoints)%nat) by (unfold numPoints; lia).
  assert (H2 : effectiveEndDistance initialConfig initialEvents (Some 10)
               < sampleDistance initialConfig 3000) by reflexivity.
  split; [split; assumption|].
  exact (past_terminal_samples_are_floor_noise log10_magnitude initialConfig
           initialEvents (Some 10) (constantRandom 0.25) 3000 H1 H2).
Defined.

Lemma totalLoss_firstn_S : forall evs k ev,
  nth_error evs k = Some ev ->
  totalLoss (firstn (S k) evs) == totalLoss (firstn k evs) + loss ev.
Proof.
  induction evs as [|a t IH]; intros k ev Hk; [destruct k; discriminate|].
  destruct k as [|k].
  - injection Hk as ->. simpl. ring.
  - simpl in Hk. change (firstn (S (S k)) (a :: t)) with (a :: firstn (S k) t).
    change (firstn (S k) (a :: t)) with (a :: firstn k t).
    cbn [totalLoss fold_right]. fold (totalLoss (firstn (S k) t)).
    fold (totalLoss (firstn k t)). rewrite (IH k ev Hk). ring.
Qed.

(** One iteration either leaves the event pointer and the power budget as
    they are or consumes the pending event, which the sample has reached. *)
Lemma sampleStep_state cfg evs eed st i :
  let st' := fst (sampleStep cfg evs eed st i) in
  (eventIndex st' = eventIndex st /\ currentPower st' = currentPower st) \/
  (exists ev, nth_error evs (eventIndex st) = Some ev /\
              distance ev <= sampleDistance cfg i /\
              eventIndex st' = S (eventIndex st) /\
              currentPower st' = currentPower st - loss ev).
Proof.
  cbv zeta. unfold sampleStep. cbv zeta.
  set (d := sampleDistance cfg i).
  assert (Hblend : forall t,
    eventIndex (snd (deadZoneBlend cfg t d)) = eventIndex (afterTrigger t) /\
    currentPower (snd (deadZoneBlend cfg t d)) = currentPower (afterTrigger t)).
  { intro t. unfold deadZoneBlend. cbv zeta.
    destruct (Qltb d (deadZoneActiveUntil (afterTrigger t))); split; reflexivity. }
  specialize (Hblend (triggerEvent cfg evs st d)).
  destruct (deadZoneBlend cfg (triggerEvent cfg evs st d) d) as [b st'] eqn:Hb.
  cbn [fst snd] in *. destruct Hblend as [Hi Hp]. rewrite Hi, Hp.
  unfold triggerEvent. cbv zeta.
  destruct (nth_error evs (eventIndex st)) as [ev|] eqn:Hev;
    [|left; split; reflexivity].
  destruct (Qgeb d (distance ev)) eqn:Hd; [|left; split; reflexivity].
  apply Qgeb_true in Hd. right. exists ev.
  destruct (Qgtb (reflectance ev) (-65)); repeat split; assumption.
Qed.

Lemma loopState_invariant cfg evs eed : forall i,
  let st := loopStateAt cfg evs eed i in
  (eventIndex st <= i)%nat /\ (eventIndex st <= length evs)%nat /\
  currentPower st == - totalLoss (firstn (eventIndex st) evs) /\
  (forall k ev, (k < eventIndex st)%nat -> nth_error evs k = Some ev ->
     exists j, (j < i)%nat /\ distance ev <= sampleDistance cfg j).
Proof.
  induction i as [|i IH]; cbv zeta.
  - simpl. split; [lia|split; [lia|split; [reflexivity|intros k ev Hk; lia]]].
  - cbv zeta in IH. destruct IH as [H1 [H2 [H3 H4]]].
    cbn [loopStateAt].
    pose proof (sampleStep_state cfg evs eed (loopStateAt cfg evs eed i) i) as Hs.
    cbv zeta in Hs.
    destruct Hs as [[Hi Hp]|[ev [Hev [Hd [Hi Hp]]]]]; rewrite Hi, Hp.
    + split; [lia|]. split; [exact H2|]. split; [exact H3|].
      intros k e Hk He. destruct (H4 k e Hk He) as [j [Hj Hdj]].
      exists j. split; [lia|exact Hdj].
    + split; [lia|]. split.
      { assert (Hlt : (eventIndex (loopStateAt cfg evs eed i) < length evs)%nat)
          by (apply nth_error_Some; congruence).
        lia. }
      split.
      { rewrite (totalLoss_firstn_S evs _ ev Hev). rewrite H3. ring. }
      intros k e Hk He.
      destruct (Nat.eq_dec k (eventIndex (loopStateAt cfg evs eed i))) as [->|Hne].
      * rewrite Hev in He. injection He as <-. exists i. split; [lia|exact Hd].
      * assert (Hk' : (k < eventIndex (loopStateAt cfg evs eed i))%nat) by lia.
        destruct (H4 k e Hk' He) as [j [Hj Hdj]].
        exists j. split; [lia|exact Hdj].
Qed.

(** X19: on entry of every iteration of the sample loop the power budget
    is minus the total loss of the events consumed so far; at most one
    event is consumed per sample, the pointer never passes the end of the
    event list, and every consumed event was reached by an earlier
    sample. *)
Theorem power_budget_is_consumed_loss :
  forall (cfg : SimulationConfig) (evs : list FiberEvent) (cut : option Q) (i : nat),
  let sorted := sortedEvents evs cut in
  let st := loopStateAt cfg sorted (effectiveEndDistance cfg evs cut) i in
  (eventIndex st <= i)%nat /\ (eventIndex st <= length sorted)%nat /\
  currentPower st == - totalLoss (firstn (eventIndex st) sorted) /\
  (forall k ev, (k < eventIndex st)%nat -> nth_error sorted k = Some ev ->
     exists j, (j < i)%nat /\ distance ev <= sampleDistance cfg j).
Proof.
  intros cfg evs cut i sorted st.
  exact (loopState_invariant cfg sorted (effectiveEndDistance cfg evs cut) i).
Qed.

Lemma addNoise_compat cfg amp a b r :
  a == b -> addNoise cfg amp a r == addNoise cfg amp b r.
Proof.
  intro H. unfold addNoise. cbv zeta.
  assert (E : Qltb (a + (r - 0.5) * amp) (noiseFloor cfg)
              = Qltb (b + (r - 0.5) * amp) (noiseFloor cfg)).
  { unfold Qltb. f_equal. apply Qleb_comp; [reflexivity|]. rewrite H. reflexivity. }
  rewrite E. destruct (Qltb (b + (r - 0.5) * amp) (noiseFloor cfg));
    [reflexivity|]. rewrite H. reflexivity.
Qed.

(** X20: at a sample that triggers no event, lies outside every dead zone
    and is not beyond the terminal distance, the value before noise is the
    backscatter level: minus the total loss of the events consumed so far,
    minus the attenuation coefficient times the distance. *)
Theorem backscatter_level_between_events :
  forall (log10 : Q -> Q) (cfg : SimulationConfig) (evs : list FiberEvent)
         (cut : option Q) (rnd : nat -> Q) (i : nat),
  let sorted := sortedEvents evs cut in
  let effectiveEnd := effectiveEndDistance cfg evs cut in
  let st := loopStateAt cfg sorted effectiveEnd i in
  let d := sampleDistance cfg i in
  (i < numPoints)%nat ->
  (forall ev, nth_error sorted (eventIndex st) = Some ev -> d < distance ev) ->
  deadZoneActiveUntil st <= d ->
  d <= effectiveEnd ->
  exists v, nth_error (calculateSingleTrace log10 cfg evs cut rnd) i = Some v /\
    v == addNoise cfg (noiseAmplitude log10 cfg)
           (- totalLoss (firstn (eventIndex st) sorted)
            - calculateAttenuation (wavelength cfg) * d) (rnd i).
Proof.
  intros log10 cfg evs cut rnd i sorted effectiveEnd st d Hi Hpend Hdz Hend.
  rewrite calculateSingleTrace_nth by exact Hi.
  eexists. split; [reflexivity|].
  apply addNoise_compat.
  rewrite traceValueAt_unfold. cbv zeta.
  fold sorted. fold effectiveEnd. fold st. fold d.
  assert (Ht : triggerEvent cfg sorted st d
               = mkTriggered st
                   (currentPower st - calculateAttenuation (wavelength cfg) * d)
                   0 false).
  { unfold triggerEvent. cbv zeta.
    destruct (nth_error sorted (eventIndex st)) as [ev|] eqn:Hev; [|reflexivity].
    specialize (Hpend ev eq_refl). apply Qgeb_false in Hpend.
    rewrite Hpend. reflexivity. }
  rewrite Ht. unfold traceValueOf, deadZoneBlend. cbv zeta.
  cbn [afterTrigger justTriggeredEvent idealPower].
  apply Qltb_false in Hdz. rewrite Hdz. cbn [fst].
  assert (Hp : pastTerminal d effectiveEnd = false) by (apply Qgtb_false; exact Hend).
  rewrite Hp.
  destruct (loopState_invariant cfg sorted effectiveEnd i) as [_ [_ [Hc _]]].
  cbv zeta in Hc. fold st in Hc. rewrite Hc. reflexivity.
Qed.

Lemma backscatter_level_between_events_witness :
  ((1000 < numPoints)%nat /\
   (forall ev,
      nth_error (sortedEvents initialEvents None)
        (eventIndex (loopStateAt initialConfig (sortedEvents initialEvents None)
                       (effectiveEndDistance initialConfig initialEvents None) 1000))
      = Some ev -> sampleDistance initialConfig 1000 < distance ev) /\
   deadZoneActiveUntil
     (loopStateAt initialConfig (sortedEvents initialEvents None)
        (effectiveEndDistance initialConfig initialEvents None) 1000)
   <= sampleDistance initialConfig 1000 /\
   sampleDistance initialConfig 1000
   <= effectiveEndDistance initialConfig initialEvents None) /\
  exists v,
    nth_error (calculateSingleTrace log10_magnitude initialConfig initialEvents
                 None (constantRandom 0.5)) 1000 = Some v.
Proof.
  assert (H1 : (1000 < numPoints)%nat) by (unfold numPoints; lia).
  assert (Hidx : eventIndex
                   (loopStateAt initialConfig (sortedEvents initialEvents None)
                      (effectiveEndDistance initialConfig initialEvents None) 1000)
                 = 1%nat) by (vm_compute; reflexivity).
  assert (H2 : forall ev,
      nth_error (sortedEvents initialEvents None)
        (eventIndex (loopStateAt initialConfig (sortedEvents initialEvents None)
                       (effectiveEndDistance initialConfig initialEvents None) 1000))
      = Some ev -> sampleDistance initialConfig 1000 < distance ev).
  { intros ev Hev. rewrite Hidx in Hev. simpl in Hev. injection Hev as <-.
    reflexivity. }
  assert (H3 : deadZoneActiveUntil
     (loopStateAt initialConfig (sortedEvents initialEvents None)
        (effectiveEndDistance initialConfig initialEvents None) 1000)
   <= sampleDistance initialConfig 1000)
    by (apply Qle_bool_iff; vm_compute; reflexivity).
  assert (H4 : sampleDistance initialConfig 1000
   <= effectiveEndDistance initialConfig initialEvents None) by discriminate.
  split; [split; [exact H1|split; [exact H2|split; [exact H3|exact H4]]]|].
  destruct (backscatter_level_between_events log10_magnitude initialConfig
              initialEvents None (constantRandom 0.5) 1000 H1 H2 H3 H4)
    as [v [Hv _]].
  exists v. exact Hv.
Defined.

(** ** The time limit of an acquisition *)

Section TimeLimit.

Variable log10 : Q -> Q.

Lemma displayEffect_keeps_inputs rnd s :
  config (displayEffect log10 rnd s) = config s /\
  events (displayEffect log10 rnd s) = events s /\
  activeCut (displayEffect log10 rnd s) = activeCut s /\
  elapsedTime (displayEffect log10 rnd s) = elapsedTime s /\
  (detectedEvents (displayEffect log10 rnd s) = detectedEvents s \/
   detectedEvents (displayEffect log10 rnd s)
   = analyzeTrace (config s) (events s) (activeCut s)).
Proof.
  unfold displayEffect.
  destruct (Nat.ltb 0 (length (accumulatedY s)) && Nat.ltb 0 (sampleCount s)).
  - repeat split. left. reflexivity.
  - destruct (negb (isSimulating s) && Nat.eqb (length (traceData s)) 0).
    + repeat split. right. reflexivity.
    + repeat split. left. reflexivity.
Qed.

(** What the engine state is after a frame and the display effect. *)
Record FrameFacts (s s' : AppState) : Prop := mkFrameFacts {
  ff_config : config s' = config s;
  ff_events : events s' = events s;
  ff_cut : activeCut s' = activeCut s
}.

Lemma step_frame_running f s shots :
  isSimulating s = true ->
  timeLimitReached (config s) (fst (fst f)) = false ->
  let s' := fst (step log10 (frameAction f) (s, shots)) in
  FrameFacts s s' /\ isSimulating s' = true /\
  sampleCount s' = S (sampleCount s) /\ elapsedTime s' = fst (fst f).
Proof.
  intros Hsim Htime. cbv zeta. unfold step, frameAction. cbn [fst snd act].
  set (s1 := loopFrame log10 (fst (fst f)) (snd (fst f)) s).
  assert (H1 : config s1 = config s /\ events s1 = events s /\
               activeCut s1 = activeCut s /\ isSimulating s1 = true /\
               sampleCount s1 = S (sampleCount s) /\ elapsedTime s1 = fst (fst f)).
  { unfold s1, loopFrame. rewrite Hsim, Htime. cbn [negb].
    repeat split. }
  destruct H1 as [Hc [He [Ha [Hs [Hn Ht]]]]].
  destruct (displayEffect_keeps log10 (snd f) s1) as [_ [Hcnt Hrun]].
  destruct (displayEffect_keeps_inputs (snd f) s1) as [Hc' [He' [Ha' [Ht' _]]]].
  split; [constructor; congruence|]. repeat split; congruence.
Qed.

Lemma step_frame_limit f s shots :
  isSimulating s = true ->
  timeLimitReached (config s) (fst (fst f)) = true ->
  let s' := fst (step log10 (frameAction f) (s, shots)) in
  FrameFacts s s' /\ isSimulating s' = false /\
  sampleCount s' = sampleCount s /\ accumulatedY s' = accumulatedY s /\
  elapsedTime s' = testDuration (config s) /\
  detectedEvents s' = analyzeTrace (config s) (events s) (activeCut s).
Proof.
  intros Hsim Htime. cbv zeta. unfold step, frameAction. cbn [fst snd act].
  set (s1 := loopFrame log10 (fst (fst f)) (snd (fst f)) s).
  assert (H1 : config s1 = config s /\ events s1 = events s /\
               activeCut s1 = activeCut s /\ isSimulating s1 = false /\
               sampleCount s1 = sampleCount s /\
               accumulatedY s1 = accumulatedY s /\
               elapsedTime s1 = testDuration (config s) /\
               detectedEvents s1 = analyzeTrace (config s) (events s) (activeCut s)).
  { unfold s1, loopFrame. rewrite Hsim, Htime. cbn [negb].
    repeat split. }
  destruct H1 as [Hc [He [Ha [Hs [Hn [Hy [Ht Hd]]]]]]].
  destruct (displayEffect_keeps log10 (snd f) s1) as [Hacc [Hcnt Hrun]].
  destruct (displayEffect_keeps_inputs (snd f) s1) as [Hc' [He' [Ha' [Ht' Hd']]]].
  split; [constructor; congruence|].
  repeat split; try congruence.
  destruct Hd' as [Hd'|Hd']; rewrite Hd'; congruence.
Qed.

Lemma step_frame_stopped f s shots :
  isSimulating s = false ->
  detectedEvents s = analyzeTrace (config s) (events s) (activeCut s) ->
  let s' := fst (step log10 (frameAction f) (s, shots)) in
  FrameFacts s s' /\ isSimulating s' = false /\
  sampleCount s' = sampleCount s /\ accumulatedY s' = accumulatedY s /\
  elapsedTime s' = elapsedTime s /\
  detectedEvents s' = analyzeTrace (config s) (events s) (activeCut s).
Proof.
  intros Hsim Hd. cbv zeta. unfold step, frameAction. cbn [fst snd act].
  assert (H1 : loopFrame log10 (fst (fst f)) (snd (fst f)) s = s)
    by (unfold loopFrame; rewrite Hsim; reflexivity).
  rewrite H1.
  destruct (displayEffect_keeps log10 (snd f) s) as [Hacc [Hcnt Hrun]].
  destruct (displayEffect_keeps_inputs (snd f) s) as [Hc' [He' [Ha' [Ht' Hd']]]].
  split; [constructor; congruence|].
  repeat split; try congruence.
  destruct Hd' as [Hd'|Hd']; rewrite Hd'; congruence.
Qed.

Lemma run_frames_running : forall frames p,
  isSimulating (fst p) = true ->
  (forall f, In f frames -> timeLimitReached (config (fst p)) (fst (fst f)) = false) ->
  let s' := fst (run log10 (map frameAction frames) p) in
  FrameFacts (fst p) s' /\ isSimulating s' = true /\
  sampleCount s' = (sampleCount (fst p) + length frames)%nat.
Proof.
  induction frames as [|f frames IH]; intros p Hsim Htime; cbv zeta.
  - simpl. split; [constructor; reflexivity|]. split; [exact Hsim|lia].
  - destruct p as [s shots]. cbn [fst] in *.
    change (run log10 (map frameAction (f :: frames)) (s, shots))
      with (run log10 (map frameAction frames) (step log10 (frameAction f) (s, shots))).
    destruct (step_frame_running f s shots Hsim (Htime f (or_introl eq_refl)))
      as [[Hc He Ha] [Hs [Hn _]]].
    specialize (IH (step log10 (frameAction f) (s, shots)) Hs).
    cbv zeta in IH. destruct IH as [[Hc' He' Ha'] [Hs' Hn']].
    + intros g Hg. rewrite Hc. apply Htime. right. exact Hg.
    + split; [constructor; congruence|]. split; [exact Hs'|].
      rewrite Hn', Hn. simpl. lia.
Qed.

Lemma run_frames_stopped : forall frames p,
  isSimulating (fst p) = false ->
  detectedEvents (fst p)
  = analyzeTrace (config (fst p)) (events (fst p)) (activeCut (fst p)) ->
  let s' := fst (run log10 (map frameAction frames) p) in
  FrameFacts (fst p) s' /\ isSimulating s' = false /\
  sampleCount s' = sampleCount (fst p) /\ accumulatedY s' = accumulatedY (fst p) /\
  elapsedTime s' = elapsedTime (fst p) /\
  detectedEvents s'
  = analyzeTrace (config (fst p)) (events (fst p)) (activeCut (fst p)).
Proof.
  induction frames as [|f frames IH]; intros p Hsim Hd; cbv zeta.
  - simpl. split; [constructor; reflexivity|]. repeat split; assumption.
  - destruct p as [s shots]. cbn [fst] in *.
    change (run log10 (map frameAction (f :: frames)) (s, shots))
      with (run log10 (map frameAction frames) (step log10 (frameAction f) (s, shots))).
    destruct (step_frame_stopped f s shots Hsim Hd)
      as [[Hc He Ha] [Hs [Hn [Hy [Ht Hd1]]]]].
    specialize (IH (step log10 (frameAction f) (s, shots)) Hs).
    cbv zeta in IH. rewrite Hc, He, Ha in IH. specialize (IH Hd1).
    destruct IH as [[Hc' He' Ha'] [Hs' [Hn' [Hy' [Ht' Hd']]]]].
    split; [constructor; congruence|].
    repeat split; congruence.
Qed.

End TimeLimit.

(** X21: with a test duration of 0 (continuous mode) or less an
    acquisition never stops by itself: after a start and any frames,
    whatever their times, the simulation is still running and the counter
    is the number of frames. *)
Theorem continuous_mode_counts_every_frame :
  forall (log10 : Q -> Q) (s : AppState)
         (frames : list (Q * (nat -> Q) * (nat -> Q))),
  testDuration (config s) <= 0 ->
  let s' := fst (run log10 (map frameAction frames) (startSimulation s, [])) in
  isSimulating s' = true /\ sampleCount s' = length frames /\
  config s' = config s.
Proof.
  intros log10 s frames Hdur s'.
  destruct (run_frames_running log10 frames (startSimulation s, []))
    as [[Hc _ _] [Hs Hn]].
  - reflexivity.
  - intros f _. cbn [fst startSimulation config]. unfold timeLimitReached.
    assert (E : Qgtb (testDuration (config s)) 0 = false)
      by (apply Qgtb_false; exact Hdur).
    rewrite E. reflexivity.
  - fold s' in Hc, Hs, Hn. split; [exact Hs|]. split; [exact Hn|exact Hc].
Qed.

Lemma continuous_mode_counts_every_frame_witness :
  testDuration (config (mkApp (mkConfig 20 100 1550 1.4682 1 (-60) true 0)
                          initialEvents None false [] [] 0 [] 0)) <= 0 /\
  sampleCount
    (fst (run log10_magnitude
            (map frameAction [ (100, constantRandom 0, constantRandom 0);
                               (1000, constantRandom 0, constantRandom 0) ])
            (startSimulation
               (mkApp (mkConfig 20 100 1550 1.4682 1 (-60) true 0)
                      initialEvents None false [] [] 0 [] 0), [])))
  = 2%nat.
Proof.
  assert (H : testDuration (config (mkApp (mkConfig 20 100 1550 1.4682 1 (-60) true 0)
                          initialEvents None false [] [] 0 [] 0)) <= 0)
    by discriminate.
  split; [exact H|].
  exact (proj1 (proj2 (continuous_mode_counts_every_frame log10_magnitude _
           [ (100, constantRandom 0, constantRandom 0);
             (1000, constantRandom 0, constantRandom 0) ] H))).
Defined.

(** X22: with a positive test duration, after a start, frames before the
    limit each add one shot; the first frame at or past the limit adds
    none, stops the simulation, sets the elapsed time to the test duration
    and computes the analysis table; the frames after it change none of
    these. *)
Theorem timed_acquisition_stops_at_limit :
  forall (log10 : Q -> Q) (s : AppState)
         (before after : list (Q * (nat -> Q) * (nat -> Q)))
         (limitFrame : Q * (nat -> Q) * (nat -> Q)),
  0 < testDuration (config s) ->
  (forall f, In f before -> fst (fst f) < testDuration (config s)) ->
  testDuration (config s) <= fst (fst limitFrame) ->
  let s' := fst (run log10 (map frameAction (before ++ limitFrame :: after))
                     (startSimulation s, [])) in
  isSimulating s' = false /\ sampleCount s' = length before /\
  elapsedTime s' = testDuration (config s) /\
  detectedEvents s' = analyzeTrace (config s) (events s) (activeCut s).
Proof.
  intros log10 s before after lf Hdur Hbefore Hlimit s'.
  unfold s', run. rewrite map_app, fold_left_app. cbn [map fold_left].
  fold (run log10 (map frameAction before) (startSimulation s, [])).
  set (p1 := run log10 (map frameAction before) (startSimulation s, [])).
  destruct (run_frames_running log10 before (startSimulation s, []))
    as [[Hc He Ha] [Hs Hn]].
  - reflexivity.
  - intros f Hf. cbn [fst startSimulation config]. unfold timeLimitReached.
    assert (E : Qgeb (fst (fst f)) (testDuration (config s)) = false)
      by (apply Qgeb_false; apply Hbefore; exact Hf).
    rewrite E. apply andb_false_r.
  - fold p1 in Hc, He, Ha, Hs, Hn. cbn [fst startSimulation config events activeCut
                                        sampleCount] in Hc, He, Ha, Hn.
    destruct p1 as [s1 shots1]. cbn [fst] in *.
    assert (Htime : timeLimitReached (config s1) (fst (fst lf)) = true).
    { rewrite Hc. unfold timeLimitReached.
      assert (E1 : Qgtb (testDuration (config s)) 0 = true)
        by (apply Qgtb_true; exact Hdur).
      assert (E2 : Qgeb (fst (fst lf)) (testDuration (config s)) = true)
        by (apply Qgeb_true; exact Hlimit).
      rewrite E1, E2. reflexivity. }
    destruct (step_frame_limit log10 lf s1 shots1 Hs Htime)
      as [[Hc2 He2 Ha2] [Hs2 [Hn2 [_ [Ht2 Hd2]]]]].
    set (p2 := step log10 (frameAction lf) (s1, shots1)) in *.
    assert (Hd2' : detectedEvents (fst p2)
                   = analyzeTrace (config (fst p2)) (events (fst p2))
                                  (activeCut (fst p2)))
      by (rewrite Hc2, He2, Ha2; exact Hd2).
    destruct (run_frames_stopped log10 after p2 Hs2 Hd2')
      as [_ [Hs3 [Hn3 [_ [Ht3 Hd3]]]]].
    fold (run log10 (map frameAction after) p2).
    split; [exact Hs3|]. split; [rewrite Hn3, Hn2, Hn; reflexivity|].
    split; [rewrite Ht3, Ht2, Hc; reflexivity|].
    rewrite Hd3, Hc2, He2, Ha2, Hc, He, Ha. reflexivity.
Qed.

Lemma timed_acquisition_stops_at_limit_witness :
  (0 < testDuration (config initialAppState) /\
   (forall f, In f [ (1, constantRandom 0, constantRandom 0) ] ->
      fst (fst f) < testDuration (config initialAppState)) /\
   testDuration (config initialAppState)
   <= fst (fst (16, constantRandom 0, constantRandom 0))) /\
  sampleCount
    (fst (run log10_magnitude
            (map frameAction
               ([ (1, constantRandom 0, constantRandom 0) ]
                ++ (16, constantRandom 0, constantRandom 0)
                   :: [ (17, constantRandom 0, constantRandom 0) ]))
            (startSimulation initialAppState, [])))
  = length [ (1, constantRandom 0, constantRandom 0) ].
Proof.
  assert (H1 : 0 < testDuration (config initialAppState)) by reflexivity.
  assert (H2 : forall f, In f [ (1, constantRandom 0, constantRandom 0) ] ->
      fst (fst f) < testDuration (config initialAppState)).
  { intros f Hf. simpl in Hf. destruct Hf as [<-|[]]. reflexivity. }
  assert (H3 : testDuration (config initialAppState)
               <= fst (fst (16, constantRandom 0, constantRandom 0)))
    by discriminate.
  split; [split; [exact H1|split; [exact H2|exact H3]]|].
  exact (proj1 (proj2 (timed_acquisition_stops_at_limit log10_magnitude
           initialAppState [ (1, constantRandom 0, constantRandom 0) ]
           [ (17, constantRandom 0, constantRandom 0) ]
           (16, constantRandom 0, constantRandom 0) H1 H2 H3))).
Defined.

(** ** The status column *)

Lemma toFixed3_above_08 v : Qgtb (toFixed3 v) 0.8 = true <-> (1601 # 2000) <= v.
Proof.
  unfold toFixed3. destruct (Qltb v 0) eqn:E; to_order.
  - split; intro H; [|exfalso; lra].
    apply Qgtb_true in H.
    assert (H0 : (0 <= Qfloor (- v * 1000 + (1 # 2)))%Z)
      by (apply (Qfloor_resp_le 0 (- v * 1000 + (1 # 2))); lra).
    rewrite Zle_Qle in H0. change (inject_Z 0) with 0 in H0.
    set (n := inject_Z (Qfloor (- v * 1000 + (1 # 2)))) in *.
    assert (Ht : n / 1000 == n * (1 # 1000)) by field.
    rewrite Ht in H. exfalso. lra.
  - pose proof (Qfloor_le (v * 1000 + (1 # 2))) as Hlo.
    set (x := v * 1000 + (1 # 2)) in *.
    assert (Ht : inject_Z (Qfloor x) / 1000 == inject_Z (Qfloor x) * (1 # 1000))
      by field.
    split; intro H.
    + apply Qgtb_true in H. rewrite Ht in H.
      assert (Hz : (800 < Qfloor x)%Z).
      { rewrite Zlt_Qlt. change (inject_Z 800) with 800. lra. }
      assert (Hz' : (801 <= Qfloor x)%Z) by lia.
      rewrite Zle_Qle in Hz'. change (inject_Z 801) with 801 in Hz'.
      unfold x in *. lra.
    + apply Qgtb_true. rewrite Ht.
      assert (Hz : (801 <= Qfloor x)%Z)
        by (apply (Qfloor_resp_le 801 x); unfold x; lra).
      rewrite Zle_Qle in Hz. change (inject_Z 801) with 801 in Hz. lra.
Qed.

(** X23: the status of a table row is END OF FIBER for a cut, and for any
    other event WARN exactly when its loss is at least 0.8005 dB, the
    smallest loss whose three-decimal text exceeds 0.8, and PASS below. *)
Theorem row_status_threshold :
  forall (i : nat) (e : FiberEvent) (cum : Q),
  let r := mkAnalysisRecord i e cum in
  (type e = T_cut -> rowStatus r = EndOfFiber) /\
  (type e <> T_cut ->
   (rowStatus r = Warn <-> (1601 # 2000) <= loss e) /\
   (rowStatus r = Pass <-> loss e < (1601 # 2000))).
Proof.
  intros i e cum r. unfold r, rowStatus, isHighLoss, mkAnalysisRecord.
  cbn [rec_type rec_loss]. split.
  - intros ->. reflexivity.
  - intro Hne.
    assert (E : EventType_eqb (type e) T_cut = false).
    { destruct (EventType_eqb (type e) T_cut) eqn:E; [|reflexivity].
      apply EventType_eqb_eq in E. contradiction. }
    rewrite !E. cbn [negb]. rewrite andb_true_r.
    pose proof (toFixed3_above_08 (loss e)) as Hthr.
    destruct (Qgtb (toFixed3 (loss e)) 0.8) eqn:G.
    + assert (Hge : (1601 # 2000) <= loss e) by (apply Hthr; reflexivity).
      split; split; intro H; try reflexivity; try exact Hge;
        first [discriminate|exfalso; lra].
    + assert (Hlt : loss e < (1601 # 2000)).
      { apply Qnot_le_lt. intro Hge. apply Hthr in Hge. discriminate. }
      split; split; intro H; try reflexivity; try exact Hlt;
        first [discriminate|exfalso; lra].
Qed.

(** ** The auto-mode effect *)

(** X24: the auto-mode effect settles in one application: applied again to
    its own result it changes nothing.  In manual mode it leaves the
    configuration as it is; in auto mode its result carries the selected
    range and pulse width, and it never touches the other settings. *)
Theorem auto_mode_effect_settles :
  forall (cfg : SimulationConfig) (evs : list FiberEvent) (cut : option Q),
  let cfg' := autoModeEffect cfg evs cut in
  autoModeEffect cfg' evs cut = cfg' /\
  (autoMode cfg = false -> cfg' = cfg) /\
  (autoMode cfg = true ->
   range cfg' == fst (autoSelect evs cut) /\
   pulseWidth cfg' == snd (autoSelect evs cut)) /\
  wavelength cfg' = wavelength cfg /\ ior cfg' = ior cfg /\
  averaging cfg' = averaging cfg /\
  noiseFloor cfg' = noiseFloor cfg /\ autoMode cfg' = autoMode cfg /\
  testDuration cfg' = testDuration cfg.
Proof.
  intros cfg evs cut cfg'. unfold cfg', autoModeEffect.
  destruct (autoMode cfg) eqn:Ha.
  - unfold autoSelect. cbv zeta.
    set (r := bestRange (autoMaxDist evs cut)). set (p := bestPulse r).
    destruct (negb (Qeq_bool (range cfg) r) || negb (Qeq_bool (pulseWidth cfg) p))
      eqn:Hc.
    + cbn [autoMode range pulseWidth wavelength ior averaging noiseFloor
           testDuration fst snd].
      rewrite !Qeq_bool_refl. cbn [negb orb].
      repeat split; try reflexivity; congruence.
    + rewrite ?Ha, Hc. apply orb_false_iff in Hc. destruct Hc as [Hr Hp].
      apply negb_false_iff in Hr. apply negb_false_iff in Hp.
      apply Qeq_bool_eq in Hr. apply Qeq_bool_eq in Hp.
      repeat split; try reflexivity; try assumption; congruence.
  - rewrite ?Ha. repeat split; try reflexivity; congruence.
Qed.

(** ** The signal animation *)

Lemma moveSignal_forward top speed s :
  ForwardPulse top s -> ForwardPulse (top - 0.002) (moveSignal speed s).
Proof.
  intros [Ht [Hd Ho]]. unfold ForwardPulse. simpl.
  split; [exact Ht|]. split; [exact Hd|]. lra.
Qed.

Lemma signalFrame_keeps_pulses cfg events cut now dt ids st :
  Forall (ForwardPulse 1) (signalRef st) ->
  Forall (fun s => ForwardPulse (499 # 500) s /\ (6 # 125) < opacity s)
         (sf_signals (signalFrame cfg events cut now dt ids st)).
Proof.
  intro Hall. unfold signalFrame. cbv zeta. cbn [sf_signals].
  set (pushed := if Qgtb now (nextPulseTime st)
                 then signalRef st ++ [mkSignal (ids 0%nat) 0 1 S_pulse 1]
                 else signalRef st).
  assert (Hp : Forall (ForwardPulse 1) pushed).
  { unfold pushed. destruct (Qgtb now (nextPulseTime st)); [|exact Hall].
    apply Forall_app. split; [exact Hall|].
    constructor; [|constructor]. unfold ForwardPulse. simpl.
    split; [reflexivity|]. split; [reflexivity|]. lra. }
  apply Forall_forall. intros s Hs. apply in_map_iff in Hs.
  destruct Hs as [s0 [<- Hs0]]. apply filter_In in Hs0.
  destruct Hs0 as [Hin Halive].
  rewrite Forall_forall in Hp. specialize (Hp s0 Hin).
  destruct (moveSignal_forward 1 (0.05 * (dt / 16)) s0 Hp) as [Ht [Hd Ho]].
  unfold signalAlive in Halive. apply andb_true_iff in Halive.
  destruct Halive as [_ Hop]. apply Qgtb_true in Hop.
  split.
  - unfold ForwardPulse. split; [exact Ht|]. split; [exact Hd|]. lra.
  - simpl. lra.
Qed.

(** X25: the animation never keeps a reflection.  The reflections a frame
    builds are pushed onto the array that [signalRef] pointed to before the
    filter, and the frame then replaces that array by the filtered one:
    after any run of frames from an empty store every stored and rendered
    signal is a pulse moving forward, with an opacity above 0.048 and of at
    most 1, and a frame adds at most one signal to the store. *)
Theorem animation_keeps_only_forward_pulses :
  forall (cfg : SimulationConfig) (events : list FiberEvent) (cut : option Q)
         (frames : list (Q * Q * (nat -> string))) (start : Q),
  let st := runSignalFrames cfg events cut frames (mkSignalStore [] start) in
  Forall (fun s => sig_type s = S_pulse /\ direction s = 1%Z /\
                   (6 # 125) < opacity s /\ opacity s <= 1)
         (signalRef st) /\
  (forall now dt ids,
     let f := signalFrame cfg events cut now dt ids st in
     sf_signals f = signalRef (sf_store f) /\
     Forall (fun s => sig_type s = S_pulse /\ direction s = 1%Z) (sf_signals f) /\
     (length (sf_signals f) <= S (length (signalRef st)))%nat).
Proof.
  intros cfg events cut frames start.
  assert (Hinv : forall st0,
    Forall (ForwardPulse 1) (signalRef st0) /\
    (frames <> [] \/
     Forall (fun s => (6 # 125) < opacity s) (signalRef st0)) ->
    let st := runSignalFrames cfg events cut frames st0 in
    Forall (ForwardPulse 1) (signalRef st) /\
    Forall (fun s => (6 # 125) < opacity s) (signalRef st)).
  { induction frames as [|f frames IH]; intros st0 [H1 H2]; cbv zeta.
    - simpl. split; [exact H1|]. destruct H2 as [H2|H2]; [|exact H2].
      contradiction H2. reflexivity.
    - simpl. apply IH.
      pose proof (signalFrame_keeps_pulses cfg events cut (fst (fst f))
                    (snd (fst f)) (snd f) st0 H1) as Hk.
      change (signalRef (sf_store (signalFrame cfg events cut (fst (fst f))
                                     (snd (fst f)) (snd f) st0)))
        with (sf_signals (signalFrame cfg events cut (fst (fst f))
                                     (snd (fst f)) (snd f) st0)).
      split.
      + eapply Forall_impl; [|exact Hk]. intros s [[Ht [Hd Ho]] _].
        unfold ForwardPulse. split; [exact Ht|]. split; [exact Hd|]. lra.
      + right. eapply Forall_impl; [|exact Hk]. intros s [_ Ho]. exact Ho. }
  intro st. specialize (Hinv (mkSignalStore [] start)). cbv zeta in Hinv.
  fold st in Hinv. destruct Hinv as [H1 H2].
  { simpl. split; [constructor|]. right. constructor. }
  split.
  - apply Forall_forall. intros s Hs.
    rewrite Forall_forall in H1, H2. destruct (H1 s Hs) as [Ht [Hd Ho]].
    repeat split; try assumption. apply H2. exact Hs.
  - intros now dt ids f. split; [reflexivity|]. split.
    + eapply Forall_impl;
        [|exact (signalFrame_keeps_pulses cfg events cut now dt ids st H1)].
      intros s [[Ht [Hd _]] _]. split; assumption.
    + unfold f, signalFrame. cbv zeta. cbn [sf_signals].
      rewrite length_map.
      eapply Nat.le_trans; [apply filter_length_le|].
      destruct (Qgtb now (nextPulseTime st)); [|lia].
      rewrite length_app. simpl. lia.
Qed.

(** A frame in which a pulse crosses the connector at 12.5 km: the
    reflection is built and lands in the abandoned array only. *)
Example reflection_is_built_then_dropped :
  let st := mkSignalStore [mkSignal "p" 62 1 S_pulse 0.9] 1000 in
  let f := signalFrame initialConfig initialEvents None 0 320 (fun _ => "r"%string) st in
  map (fun s => (sig_type s, direction s)) (sf_abandoned f)
  = [(S_pulse, 1%Z); (S_reflection, (-1)%Z)] /\
  map (fun s => (sig_type s, direction s)) (sf_signals f) = [(S_pulse, 1%Z)].
Proof. cbv zeta. split; vm_compute; reflexivity. Qed.

(** ** The shot on numbers with infinities and NaN *)

(** *** Operations on finite numbers whose result stays in range *)

Lemma rangeCheck_small limit q :
  BIG < limit -> Small q -> rangeCheck limit q = Fin q.
Proof.
  intros Hl [H1 H2]. unfold rangeCheck.
  assert (E1 : Qle_bool limit q = false) by (apply Qle_bool_false; lra).
  assert (E2 : Qle_bool q (- limit) = false) by (apply Qle_bool_false; lra).
  rewrite E1, E2. reflexivity.
Qed.

Lemma double_small q : Small q -> double q = Fin q.
Proof. apply rangeCheck_small. reflexivity. Qed.

Lemma toFloat32_small q : Small q -> toFloat32 (Fin q) = Fin q.
Proof. apply rangeCheck_small. reflexivity. Qed.

Lemma jadd_small a b : Small (a + b) -> jadd (Fin a) (Fin b) = Fin (a + b).
Proof. apply double_small. Qed.

Lemma jsub_small a b : Small (a - b) -> jsub (Fin a) (Fin b) = Fin (a - b).
Proof. apply double_small. Qed.

Lemma jmul_small a b : Small (a * b) -> jmul (Fin a) (Fin b) = Fin (a * b).
Proof. apply double_small. Qed.

Lemma jdiv_small a b :
  ~ b == 0 -> Small (a / b) -> jdiv (Fin a) (Fin b) = Fin (a / b).
Proof.
  intros Hb Hs. unfold jdiv.
  destruct (Qeq_bool b 0) eqn:E; [apply Qeq_bool_eq in E; contradiction|].
  apply double_small. exact Hs.
Qed.

Lemma jpow4_small a : Small (a ^ 4) -> jpow4 (Fin a) = Fin (a ^ 4).
Proof. apply double_small. Qed.

Lemma jor_fin a d : jor (Fin a) (Fin d) = Fin (js_or a d).
Proof. unfold jor, js_or. destruct (Qeq_bool a 0); reflexivity. Qed.

(** A factor between 0 and 1 keeps a bound. *)
Lemma scale_bound r v K : 0 <= r -> r <= 1 -> - K <= v -> v <= K ->
  - K <= r * v /\ r * v <= K.
Proof.
  intros H0 H1 Hl Hu.
  assert (Ha : 0 <= r * (K - v)) by (apply Qmult_le_0_compat; lra).
  assert (Hb : 0 <= r * (v + K)) by (apply Qmult_le_0_compat; lra).
  assert (Hc : 0 <= (1 - r) * K) by (apply Qmult_le_0_compat; lra).
  assert (E1 : r * (K - v) == r * K - r * v) by ring.
  assert (E2 : r * (v + K) == r * v + r * K) by ring.
  assert (E3 : (1 - r) * K == K - r * K) by ring.
  rewrite E1 in Ha. rewrite E2 in Hb. rewrite E3 in Hc.
  set (p := r * v) in *. set (q := r * K) in *. split; lra.
Qed.

Lemma pow4_unit r : 0 <= r -> r <= 1 -> 0 <= r ^ 4 /\ r ^ 4 <= 1.
Proof.
  intros H0 H1.
  assert (E : r ^ 4 == (r * r) * (r * r)) by (simpl; ring).
  assert (Hs : 0 <= r * r /\ r * r <= 1).
  { destruct (scale_bound r r 1 H0 H1) as [_ Hu]; [lra|lra|].
    split; [apply Qmult_le_0_compat; lra|exact Hu]. }
  destruct Hs as [Hs0 Hs1].
  destruct (scale_bound (r * r) (r * r) 1 Hs0 Hs1) as [_ Hu]; [lra|lra|].
  rewrite E. split; [apply Qmult_le_0_compat; lra|exact Hu].
Qed.

(** *** The losses consumed so far *)

Lemma totalAbsLoss_nonneg l : 0 <= totalAbsLoss l.
Proof.
  induction l as [|a t IH]; [discriminate|].
  cbn [totalAbsLoss fold_right]. fold (totalAbsLoss t).
  pose proof (Qabs_nonneg (loss a)). lra.
Qed.

Lemma totalLoss_firstn_bound : forall l k,
  - totalAbsLoss l <= totalLoss (firstn k l) /\
  totalLoss (firstn k l) <= totalAbsLoss l.
Proof.
  induction l as [|a t IH]; intros k.
  - destruct k; simpl; split; discriminate.
  - cbn [totalAbsLoss fold_right]. fold (totalAbsLoss t).
    pose proof (Qabs_nonneg (loss a)) as Hn.
    pose proof (Qle_Qabs (loss a)) as Hu.
    pose proof (Qle_Qabs (- loss a)) as Hl. rewrite Qabs_opp in Hl.
    pose proof (totalAbsLoss_nonneg t) as Ht.
    destruct k as [|k].
    + cbn [firstn totalLoss fold_right]. split; lra.
    + cbn [firstn totalLoss fold_right]. fold (totalLoss (firstn k t)).
      destruct (IH k) as [I1 I2]. split; lra.
Qed.

Lemma totalAbsLoss_In l e : In e l ->
  - totalAbsLoss l <= loss e /\ loss e <= totalAbsLoss l.
Proof.
  induction l as [|a t IH]; intros Hin; [destruct Hin|].
  cbn [totalAbsLoss fold_right]. fold (totalAbsLoss t).
  pose proof (Qabs_nonneg (loss a)) as Hn.
  pose proof (totalAbsLoss_nonneg t) as Ht.
  destruct Hin as [->|Hin].
  - pose proof (Qle_Qabs (loss e)) as Hu.
    pose proof (Qle_Qabs (- loss e)) as Hl. rewrite Qabs_opp in Hl.
    split; lra.
  - destruct (IH Hin). split; lra.
Qed.

Lemma totalAbsLoss_insert a l :
  totalAbsLoss (insertByDistance a l) == Qabs (loss a) + totalAbsLoss l.
Proof.
  induction l as [|h t IH]; [reflexivity|].
  cbn [insertByDistance]. destruct (Qle_bool (distance a) (distance h)).
  - reflexivity.
  - cbn [totalAbsLoss fold_right]. fold (totalAbsLoss (insertByDistance a t)).
    fold (totalAbsLoss t). lra.
Qed.

Lemma totalAbsLoss_sort l : totalAbsLoss (sortByDistance l) == totalAbsLoss l.
Proof.
  induction l as [|a t IH]; [reflexivity|].
  cbn [sortByDistance].
  pose proof (totalAbsLoss_insert a (sortByDistance t)) as Hi.
  cbn [totalAbsLoss fold_right]. fold (totalAbsLoss t). lra.
Qed.

Lemma totalAbsLoss_filter (p : FiberEvent -> bool) l :
  totalAbsLoss (filter p l) <= totalAbsLoss l.
Proof.
  induction l as [|a t IH]; [discriminate|].
  pose proof (Qabs_nonneg (loss a)) as Hn.
  cbn [filter]. destruct (p a);
    cbn [totalAbsLoss fold_right]; fold (totalAbsLoss (filter p t));
    fold (totalAbsLoss t); lra.
Qed.

Lemma totalAbsLoss_app l1 l2 :
  totalAbsLoss (l1 ++ l2) == totalAbsLoss l1 + totalAbsLoss l2.
Proof.
  induction l1 as [|a t IH]; [simpl; ring|].
  cbn [app totalAbsLoss fold_right]. fold (totalAbsLoss (t ++ l2)).
  fold (totalAbsLoss t). lra.
Qed.

Lemma totalAbsLoss_sortedEvents evs cut :
  totalAbsLoss (sortedEvents evs cut) <= totalAbsLoss evs + 50.
Proof.
  unfold sortedEvents. cbv zeta.
  pose proof (totalAbsLoss_sort evs) as Hs.
  destruct cut as [d|].
  - pose proof (totalAbsLoss_app
                  (filter (fun e => Qltb (distance e) d) (sortByDistance evs))
                  [synthCutEvent d]) as Ha.
    pose proof (totalAbsLoss_filter (fun e => Qltb (distance e) d)
                  (sortByDistance evs)) as Hf.
    assert (Hc : totalAbsLoss [synthCutEvent d] == 50) by reflexivity.
    lra.
  - lra.
Qed.

Ltac small := unfold Small, BIG; split; lra.

Lemma div_bound x b K :
  0 <= x -> x <= K -> (1 # 1000000) <= b ->
  0 <= x / b /\ x / b <= K * 1000000.
Proof.
  intros H0 HK Hb.
  assert (Hpos : 0 < b) by lra.
  split.
  - apply Qle_shift_div_l; [exact Hpos|lra].
  - apply Qle_shift_div_r; [exact Hpos|].
    assert (Hp : 0 <= K * (1000000 * b - 1)) by (apply Qmult_le_0_compat; lra).
    assert (E : K * (1000000 * b - 1) == K * 1000000 * b - K) by ring.
    rewrite E in Hp. set (p := K * 1000000 * b) in *. lra.
Qed.

Lemma inject_nat_nonneg i : 0 <= inject_Z (Z.of_nat i).
Proof. change 0 with (inject_Z 0). rewrite <- Zle_Qle. lia. Qed.

Lemma inject_nat_succ i :
  inject_Z (Z.of_nat (S i)) == inject_Z (Z.of_nat i) + 1.
Proof. rewrite Nat2Z.inj_succ. unfold Z.succ. rewrite inject_Z_plus. reflexivity. Qed.

Section ModerateShot.

Variable log10 : Q -> Q.
Variable cfg : SimulationConfig.
Variable evs : list FiberEvent.
Variable cut : option Q.

Hypothesis Hrange : 0 < range cfg.
Hypothesis Hpw : 0 < pulseWidth cfg.
Hypothesis Hior : 0 < ior cfg.
Hypothesis Hnf : noiseFloor cfg < 0.
Hypothesis Hmod : ModerateInputs log10 cfg evs cut.

Lemma stepSize_bounds : 0 < stepSize cfg /\ stepSize cfg <= 250.
Proof.
  destruct Hmod as [Hr _]. unfold stepSize.
  change (inject_Z (Z.of_nat numPoints)) with 4000.
  assert (E : range cfg / 4000 == range cfg * (1 # 4000)) by field.
  rewrite E. split; lra.
Qed.

Lemma stepSize_fin : Double.stepSize cfg = Fin (stepSize cfg).
Proof.
  unfold Double.stepSize. apply jdiv_small; [discriminate|].
  fold (stepSize cfg). pose proof stepSize_bounds. small.
Qed.

Lemma sampleDistance_nonneg i : 0 <= sampleDistance cfg i.
Proof.
  unfold sampleDistance. apply Qmult_le_0_compat;
    [apply inject_nat_nonneg|pose proof stepSize_bounds; lra].
Qed.

Lemma sampleDistance_succ i :
  sampleDistance cfg (S i) == sampleDistance cfg i + stepSize cfg.
Proof. unfold sampleDistance. rewrite inject_nat_succ. ring. Qed.

Lemma sampleDistance_fin i :
  (i < numPoints)%nat -> Double.sampleDistance cfg i = Fin (sampleDistance cfg i).
Proof.
  intro Hi. unfold Double.sampleDistance. rewrite stepSize_fin.
  apply jmul_small. fold (sampleDistance cfg i).
  pose proof (sampleDistance_nonneg i).
  pose proof (sampleDistance_below_range cfg i Hrange Hi).
  destruct Hmod as [Hr _]. small.
Qed.

Lemma eventDeadZone_bounds :
  0 < eventDeadZone cfg /\ eventDeadZone cfg <= 450000000.
Proof.
  destruct Hmod as [_ [Hp [Hi _]]].
  assert (E : eventDeadZone cfg
              == (pulseWidth cfg * (449688687 # 1000000000000)) / ior cfg).
  { assert (H9 : 1e-9 == (1 # 1000000000)) by reflexivity.
    unfold eventDeadZone, pulseLengthKm, pulseWidthSeconds, speedOfLightKmS.
    rewrite H9. field. lra. }
  rewrite E.
  destruct (div_bound (pulseWidth cfg * (449688687 # 1000000000000)) (ior cfg) 450
              ltac:(lra) ltac:(lra) Hi) as [_ Hu].
  split; [apply Qlt_shift_div_l; lra|].
  assert (E2 : 450 * 1000000 == 450000000) by reflexivity.
  rewrite E2 in Hu. exact Hu.
Qed.

Lemma eventDeadZone_fin : Double.eventDeadZone cfg = Fin (eventDeadZone cfg).
Proof.
  destruct Hmod as [_ [Hp [Hi _]]].
  assert (H9 : pulseWidthSeconds cfg == pulseWidth cfg * (1 # 1000000000)).
  { assert (E9 : 1e-9 == (1 # 1000000000)) by reflexivity.
    unfold pulseWidthSeconds. rewrite E9. reflexivity. }
  assert (Hc : speedOfLightKmS * pulseWidthSeconds cfg
               == pulseWidth cfg * (299792458 # 1000000000000)).
  { rewrite H9. unfold speedOfLightKmS. ring. }
  destruct (div_bound (speedOfLightKmS * pulseWidthSeconds cfg) (ior cfg) 300
              ltac:(lra) ltac:(lra) Hi) as [Hl0 Hlu].
  fold (pulseLengthKm cfg) in Hl0, Hlu.
  unfold Double.eventDeadZone, Double.pulseLengthKm, Double.pulseWidthSeconds.
  rewrite jmul_small by (fold (pulseWidthSeconds cfg); small).
  fold (pulseWidthSeconds cfg).
  rewrite jmul_small by small.
  rewrite jdiv_small; [| lra | fold (pulseLengthKm cfg); small].
  fold (pulseLengthKm cfg).
  apply jmul_small. small.
Qed.

Lemma deadZoneDenominator_eq : deadZoneDenominator cfg = eventDeadZone cfg.
Proof.
  unfold deadZoneDenominator, js_or.
  destruct (Qeq_bool (eventDeadZone cfg) 0) eqn:E; [|reflexivity].
  apply Qeq_bool_eq in E. pose proof eventDeadZone_bounds. lra.
Qed.

Lemma deadZoneDenominator_fin :
  Double.deadZoneDenominator cfg = Fin (deadZoneDenominator cfg).
Proof.
  unfold Double.deadZoneDenominator. rewrite eventDeadZone_fin. apply jor_fin.
Qed.

Lemma noiseAmplitude_upper :
  noiseAmplitude log10 cfg <= 1000000000000000000000.
Proof.
  destruct Hmod as [_ [_ [_ [_ [_ [_ [_ [Hlog _]]]]]]]].
  unfold noiseAmplitude, noiseReductionFactor.
  set (l := log10 (pulseWidth cfg)) in *.
  assert (E5 : forall x, baseNoiseAmp / x == 5 / x)
    by (intro x; assert (H5 : baseNoiseAmp == 5) by reflexivity;
        rewrite H5; reflexivity).
  rewrite E5. apply Q.max_lub; [discriminate|].
  assert (Eh : l / 2 == l * (1 # 2)) by field.
  unfold js_or. destruct (Qeq_bool (l / 2) 0) eqn:E; [discriminate|].
  destruct Hlog as [Hz|[Hn|Hp]].
  - exfalso. assert (Hq : l / 2 == 0) by (rewrite Eh, Hz; reflexivity).
    apply Qeq_eq_bool in Hq. congruence.
  - assert (Hneg : l / 2 < 0) by (rewrite Eh; lra).
    pose proof (five_over_neg (l / 2) Hneg). lra.
  - apply Qle_shift_div_r; [rewrite Eh; lra|]. rewrite Eh. lra.
Qed.

Lemma noiseAmplitude_fin :
  Double.noiseAmplitude log10 cfg = Fin (noiseAmplitude log10 cfg).
Proof.
  destruct Hmod as [_ [_ [_ [_ [_ [_ [_ [Hlog [HlogL HlogU]]]]]]]]].
  unfold Double.noiseAmplitude, Double.noiseReductionFactor, Math_log10.
  assert (E1 : Qltb (pulseWidth cfg) 0 = false) by (apply Qltb_false; lra).
  assert (E2 : Qeq_bool (pulseWidth cfg) 0 = false).
  { destruct (Qeq_bool (pulseWidth cfg) 0) eqn:E; [|reflexivity].
    apply Qeq_bool_eq in E. lra. }
  rewrite E1, E2.
  set (l := log10 (pulseWidth cfg)) in *.
  assert (Eh : l / 2 == l * (1 # 2)) by field.
  rewrite jdiv_small; [|discriminate|unfold Small, BIG; rewrite Eh; split; lra].
  rewrite jor_fin.
  assert (Hx : ~ js_or (l / 2) 1 == 0) by (apply js_or_nonzero; discriminate).
  assert (Hs : - 1000000000000000000000 <= baseNoiseAmp / js_or (l / 2) 1 /\
               baseNoiseAmp / js_or (l / 2) 1 <= 1000000000000000000000).
  { assert (E5 : forall x, baseNoiseAmp / x == 5 / x)
    by (intro x; assert (H5 : baseNoiseAmp == 5) by reflexivity;
        rewrite H5; reflexivity).
    rewrite E5. unfold js_or.
    destruct (Qeq_bool (l / 2) 0) eqn:E; [split; discriminate|].
    destruct Hlog as [Hz|[Hn|Hp]].
    - exfalso. assert (Hq : l / 2 == 0) by (rewrite Eh, Hz; reflexivity).
      apply Qeq_eq_bool in Hq. congruence.
    - assert (Hneg : l / 2 < 0) by (rewrite Eh; lra).
      pose proof (five_over_neg (l / 2) Hneg) as H5.
      assert (Hopp : 5 / (l / 2) == - (5 / - (l / 2))) by (field; lra).
      assert (Hu : 5 / - (l / 2) <= 1000000000000000000000).
      { apply Qle_shift_div_r; [lra|]. rewrite Eh. lra. }
      split; [|lra]. rewrite Hopp. lra.
    - assert (Hpos : 0 < l / 2) by (rewrite Eh; lra).
      split.
      + assert (0 <= 5 / (l / 2)); [|lra].
        apply Qle_shift_div_l; [exact Hpos|lra].
      + apply Qle_shift_div_r; [exact Hpos|]. rewrite Eh. lra. }
  rewrite jdiv_small; [reflexivity|exact Hx|].
  destruct Hs as [Hs1 Hs2]. small.
Qed.

Lemma sortedEvents_moderate e : In e (sortedEvents evs cut) ->
  (-1000000 <= distance e /\ distance e <= 1000000) /\
  (-1000000 <= reflectance e /\ reflectance e <= 1000000) /\
  (-1000050 <= loss e /\ loss e <= 1000050).
Proof.
  intro Hin.
  destruct Hmod as [_ [_ [_ [_ [Hev [Hloss [Hcut _]]]]]]].
  assert (Hl : -1000050 <= loss e /\ loss e <= 1000050).
  { pose proof (totalAbsLoss_In (sortedEvents evs cut) e Hin) as [H1 H2].
    pose proof (totalAbsLoss_sortedEvents evs cut) as Hs.
    split; lra. }
  rewrite Forall_forall in Hev.
  unfold sortedEvents in Hin. cbv zeta in Hin.
  destruct cut as [d|].
  - apply in_app_or in Hin. destruct Hin as [Hin|[<-|[]]].
    + apply filter_In in Hin. destruct Hin as [Hin _].
      apply (proj1 (sortByDistance_In _ _)) in Hin.
      destruct (Hev e Hin) as [Hd Hr]. split; [exact Hd|split; [exact Hr|exact Hl]].
    + cbn [distance reflectance synthCutEvent].
      split; [exact (Hcut d eq_refl)|]. split; [split; discriminate|exact Hl].
  - apply (proj1 (sortByDistance_In _ _)) in Hin.
    destruct (Hev e Hin) as [Hd Hr]. split; [exact Hd|split; [exact Hr|exact Hl]].
Qed.

Lemma attenuation_bounds i : (i < numPoints)%nat ->
  0 <= calculateAttenuation (wavelength cfg) * sampleDistance cfg i /\
  calculateAttenuation (wavelength cfg) * sampleDistance cfg i <= 350000.
Proof.
  intro Hi. destruct Hmod as [Hr _].
  pose proof (sampleDistance_nonneg i) as H0.
  pose proof (sampleDistance_below_range cfg i Hrange Hi) as H1.
  unfold calculateAttenuation. destruct (Z.eqb (wavelength cfg) 1310); split; lra.
Qed.

Lemma currentPower_moderate i :
  -1000050
  <= currentPower (loopStateAt cfg (sortedEvents evs cut)
                     (effectiveEndDistance cfg evs cut) i) /\
  currentPower (loopStateAt cfg (sortedEvents evs cut)
                  (effectiveEndDistance cfg evs cut) i) <= 1000050.
Proof.
  destruct Hmod as [_ [_ [_ [_ [_ [Hloss _]]]]]].
  pose proof (loopState_invariant cfg (sortedEvents evs cut)
                (effectiveEndDistance cfg evs cut) i) as H.
  cbv zeta in H. destruct H as [_ [_ [Hcp _]]].
  pose proof (totalLoss_firstn_bound (sortedEvents evs cut)
                (eventIndex (loopStateAt cfg (sortedEvents evs cut)
                               (effectiveEndDistance cfg evs cut) i)))
    as [H1 H2].
  pose proof (totalAbsLoss_sortedEvents evs cut) as Hs.
  split; lra.
Qed.

Lemma triggerEvent_moderate st i :
  (i < numPoints)%nat -> ModerateState cfg st i ->
  ModerateTriggered cfg
    (triggerEvent cfg (sortedEvents evs cut) st (sampleDistance cfg i)) i /\
  Double.triggerEvent cfg (sortedEvents evs cut) (finiteState st)
    (Fin (sampleDistance cfg i))
  = finiteTriggered
      (triggerEvent cfg (sortedEvents evs cut) st (sampleDistance cfg i)).
Proof.
  intros Hi [[Hc1 Hc2] [[Hp1 Hp2] Hdz]].
  pose proof (attenuation_bounds i Hi) as [Ha1 Ha2].
  pose proof eventDeadZone_bounds as [He1 He2].
  unfold ModerateTriggered, triggerEvent, Double.triggerEvent. cbv zeta.
  cbn [finiteState Double.currentPower Double.eventIndex
       Double.deadZoneActiveUntil Double.powerAtSaturation].
  set (d := sampleDistance cfg i) in *.
  set (k := calculateAttenuation (wavelength cfg)) in *.
  rewrite (jmul_small k d) by small.
  rewrite (jsub_small (currentPower st) (k * d)) by small.
  destruct (nth_error (sortedEvents evs cut) (eventIndex st)) as [ev|] eqn:Hev.
  2:{ cbn [afterTrigger idealPower reflectionAdd].
      split; [|reflexivity].
      split; [split; assumption|]. split; [exact Hdz|].
      split; split; lra. }
  apply nth_error_In in Hev.
  destruct (sortedEvents_moderate ev Hev) as [[Hd1 Hd2] [[Hr1 Hr2] [Hl1 Hl2]]].
  change (jge (Fin d) (Fin (distance ev))) with (Qgeb d (distance ev)).
  destruct (Qgeb d (distance ev)) eqn:Hreach.
  2:{ cbn [afterTrigger idealPower reflectionAdd].
      split; [|reflexivity].
      split; [split; assumption|]. split; [exact Hdz|].
      split; split; lra. }
  apply Qgeb_true in Hreach.
  rewrite (jsub_small (currentPower st) (loss ev)) by small.
  rewrite (jsub_small (currentPower st - k * d) (loss ev)) by small.
  destruct (Qgtb (reflectance ev) (-65)) eqn:Hrefl.
  - rewrite (jadd_small (reflectance ev) 75) by small.
    rewrite eventDeadZone_fin.
    rewrite (jadd_small (distance ev) (eventDeadZone cfg)) by small.
    rewrite (jadd_small (currentPower st - k * d - loss ev) (reflectance ev + 75))
      by small.
    cbn [afterTrigger idealPower reflectionAdd powerAtSaturation
         deadZoneActiveUntil].
    split; [|reflexivity].
    split; [split; lra|]. split; [lra|]. split; split; lra.
  - cbn [afterTrigger idealPower reflectionAdd powerAtSaturation
         deadZoneActiveUntil].
    split; [|reflexivity].
    split; [split; assumption|]. split; [exact Hdz|].
    split; split; lra.
Qed.


Lemma deadZoneBlend_moderate t i :
  (i < numPoints)%nat -> ModerateTriggered cfg t i ->
  Double.deadZoneBlend cfg (finiteTriggered t) (Fin (sampleDistance cfg i))
  = (Fin (fst (deadZoneBlend cfg t (sampleDistance cfg i))),
     finiteState (snd (deadZoneBlend cfg t (sampleDistance cfg i)))) /\
  (-14700200 <= fst (deadZoneBlend cfg t (sampleDistance cfg i)) /\
   fst (deadZoneBlend cfg t (sampleDistance cfg i)) <= 14700200) /\
  powerAtSaturation (snd (deadZoneBlend cfg t (sampleDistance cfg i)))
  = powerAtSaturation (afterTrigger t) /\
  deadZoneActiveUntil (snd (deadZoneBlend cfg t (sampleDistance cfg i)))
  <= sampleDistance cfg i + eventDeadZone cfg.
Proof.
  intros Hi [[Hp1 Hp2] [Hdz [[Hi1 Hi2] _]]].
  pose proof eventDeadZone_bounds as [He1 He2].
  pose proof (sampleDistance_nonneg i) as Hd0.
  unfold deadZoneBlend, Double.deadZoneBlend. cbv zeta.
  rewrite deadZoneDenominator_fin, deadZoneDenominator_eq.
  cbn [finiteTriggered finiteState Double.afterTrigger Double.idealPower
       Double.currentPower Double.eventIndex Double.deadZoneActiveUntil
       Double.powerAtSaturation].
  set (d := sampleDistance cfg i) in *.
  set (st := afterTrigger t) in *.
  change (jlt (Fin d) (Fin (deadZoneActiveUntil st)))
    with (Qltb d (deadZoneActiveUntil st)).
  destruct (Qltb d (deadZoneActiveUntil st)) eqn:Hin.
  - apply Qltb_true in Hin.
    set (rem := deadZoneActiveUntil st - d) in *.
    assert (Hrem : 0 < rem /\ rem <= eventDeadZone cfg) by (unfold rem; split; lra).
    destruct Hrem as [Hr0 Hr1].
    assert (Hratio : 0 <= rem / eventDeadZone cfg /\ rem / eventDeadZone cfg <= 1).
    { split; [apply Qle_shift_div_l|apply Qle_shift_div_r]; lra. }
    destruct Hratio as [Hq0 Hq1].
    destruct (pow4_unit _ Hq0 Hq1) as [Hf0 Hf1].
    destruct (scale_bound ((rem / eventDeadZone cfg) ^ 4)
                (powerAtSaturation st - idealPower t) 12350100 Hf0 Hf1)
      as [Hs1 Hs2]; [lra|lra|].
    rewrite (jsub_small (deadZoneActiveUntil st) d) by (fold rem; small).
    fold rem.
    rewrite (jdiv_small rem (eventDeadZone cfg)) by (first [lra|small]).
    rewrite jpow4_small by small.
    rewrite (jsub_small (powerAtSaturation st) (idealPower t)) by small.
    rewrite jmul_small by small.
    rewrite jadd_small by small.
    cbn [fst snd]. split; [reflexivity|]. split; [split; lra|].
    split; [reflexivity|exact Hdz].
  - cbn [fst snd powerAtSaturation deadZoneActiveUntil].
    split; [reflexivity|]. split; [split; lra|]. split; [reflexivity|lra].
Qed.

Lemma traceValueOf_moderate t b i :
  ModerateTriggered cfg t i -> -14700200 <= b -> b <= 14700200 ->
  Double.traceValueOf cfg (finiteTriggered t) (Fin b)
    (Fin (sampleDistance cfg i)) (effectiveEndDistance cfg evs cut)
  = Fin (traceValueOf cfg t b (sampleDistance cfg i)
           (effectiveEndDistance cfg evs cut)) /\
  (-100000000
   <= traceValueOf cfg t b (sampleDistance cfg i) (effectiveEndDistance cfg evs cut) /\
   traceValueOf cfg t b (sampleDistance cfg i) (effectiveEndDistance cfg evs cut)
   <= 100000000).
Proof.
  intros [_ [_ [_ [Ha1 Ha2]]]] Hb1 Hb2.
  destruct Hmod as [_ [_ [_ [Hn _]]]].
  unfold traceValueOf, Double.traceValueOf. cbv zeta.
  cbn [finiteTriggered Double.justTriggeredEvent Double.reflectionAdd].
  change (jgt (Fin (sampleDistance cfg i)) (Fin (effectiveEndDistance cfg evs cut)))
    with (pastTerminal (sampleDistance cfg i) (effectiveEndDistance cfg evs cut)).
  destruct (pastTerminal (sampleDistance cfg i) (effectiveEndDistance cfg evs cut)).
  - split; [reflexivity|split; lra].
  - destruct (justTriggeredEvent t).
    + rewrite jadd_small by small. split; [reflexivity|split; lra].
    + split; [reflexivity|split; lra].
Qed.

Lemma sampleStep_moderate st i :
  (i < numPoints)%nat -> ModerateState cfg st i ->
  Double.sampleStep cfg (sortedEvents evs cut) (effectiveEndDistance cfg evs cut)
    (finiteState st) i
  = (finiteState (fst (sampleStep cfg (sortedEvents evs cut)
                         (effectiveEndDistance cfg evs cut) st i)),
     Fin (snd (sampleStep cfg (sortedEvents evs cut)
                 (effectiveEndDistance cfg evs cut) st i))) /\
  (-100000000
   <= snd (sampleStep cfg (sortedEvents evs cut)
             (effectiveEndDistance cfg evs cut) st i) /\
   snd (sampleStep cfg (sortedEvents evs cut)
          (effectiveEndDistance cfg evs cut) st i) <= 100000000) /\
  (-10000000
   <= powerAtSaturation (fst (sampleStep cfg (sortedEvents evs cut)
                                (effectiveEndDistance cfg evs cut) st i)) /\
   powerAtSaturation (fst (sampleStep cfg (sortedEvents evs cut)
                             (effectiveEndDistance cfg evs cut) st i))
   <= 10000000) /\
  deadZoneActiveUntil (fst (sampleStep cfg (sortedEvents evs cut)
                              (effectiveEndDistance cfg evs cut) st i))
  <= sampleDistance cfg (S i) + eventDeadZone cfg.
Proof.
  intros Hi Hst.
  destruct (triggerEvent_moderate st i Hi Hst) as [Ht Hteq].
  destruct (deadZoneBlend_moderate _ i Hi Ht) as [Hbeq [[Hb1 Hb2] [Hpas Hdz]]].
  unfold sampleStep, Double.sampleStep. cbv zeta.
  rewrite (sampleDistance_fin i Hi), Hteq, Hbeq.
  set (t := triggerEvent cfg (sortedEvents evs cut) st (sampleDistance cfg i)) in *.
  destruct (deadZoneBlend cfg t (sampleDistance cfg i)) as [b st'] eqn:Hb.
  cbn [fst snd] in *.
  destruct (traceValueOf_moderate t b i Ht Hb1 Hb2) as [Hveq Hv].
  rewrite Hveq. split; [reflexivity|]. split; [exact Hv|].
  destruct Ht as [Hp _]. split; [rewrite Hpas; exact Hp|].
  pose proof (sampleDistance_succ i) as Hs.
  pose proof stepSize_bounds as [Hs0 _]. lra.
Qed.

Lemma loopState_moderate : forall i, (i <= numPoints)%nat ->
  ModerateState cfg
    (loopStateAt cfg (sortedEvents evs cut) (effectiveEndDistance cfg evs cut) i) i.
Proof.
  induction i as [|i IH]; intro Hi.
  - pose proof eventDeadZone_bounds as [He1 _].
    pose proof (sampleDistance_nonneg 0) as Hd0.
    unfold ModerateState. cbn [loopStateAt initialLoopState currentPower
      powerAtSaturation deadZoneActiveUntil].
    split; [split; discriminate|]. split; [split; discriminate|]. lra.
  - assert (Hlt : (i < numPoints)%nat) by lia.
    destruct (sampleStep_moderate _ i Hlt (IH ltac:(lia))) as [_ [_ [Hp Hdz]]].
    split; [apply currentPower_moderate|].
    cbn [loopStateAt]. split; [exact Hp|exact Hdz].
Qed.

Lemma addNoise_moderate tv r :
  -100000000 <= tv -> tv <= 100000000 -> 0 <= r -> r < 1 ->
  toFloat32 (Double.addNoise cfg (Double.noiseAmplitude log10 cfg) (Fin tv) r)
  = Fin (addNoise cfg (noiseAmplitude log10 cfg) tv r).
Proof.
  intros Ht1 Ht2 Hr0 Hr1.
  destruct Hmod as [_ [_ [_ [Hn _]]]].
  pose proof (noiseAmplitude_lower log10 cfg) as Ha0.
  pose proof noiseAmplitude_upper as Ha1.
  rewrite noiseAmplitude_fin.
  unfold addNoise, Double.addNoise. cbv zeta.
  set (amp := noiseAmplitude log10 cfg) in *.
  assert (Hnoise : - 500000000000000000000 <= (r - 0.5) * amp /\
                   (r - 0.5) * amp <= 500000000000000000000).
  { assert (H1 : 0 <= (1 - r) * amp) by (apply Qmult_le_0_compat; lra).
    assert (H2 : 0 <= r * amp) by (apply Qmult_le_0_compat; lra).
    assert (E1 : (1 - r) * amp == (1 # 2) * amp - (r - 0.5) * amp) by ring.
    assert (E2 : r * amp == (r - 0.5) * amp + (1 # 2) * amp) by ring.
    rewrite E1 in H1. rewrite E2 in H2.
    set (p := (r - 0.5) * amp) in *. split; lra. }
  destruct Hnoise as [Hn1 Hn2].
  rewrite (jsub_small r 0.5) by small.
  rewrite (jmul_small (r - 0.5) amp) by small.
  set (noise := (r - 0.5) * amp) in *.
  rewrite (jadd_small tv noise) by small.
  change (jlt (Fin (tv + noise)) (Fin (noiseFloor cfg)))
    with (Qltb (tv + noise) (noiseFloor cfg)).
  destruct (Qltb (tv + noise) (noiseFloor cfg)).
  - rewrite jadd_small by small. apply toFloat32_small. small.
  - apply toFloat32_small. small.
Qed.

Lemma traceLoop_moderate (rnd : nat -> Q) :
  (forall k, 0 <= rnd k /\ rnd k < 1) ->
  forall n i, (i + n <= numPoints)%nat ->
  Double.traceLoop log10 cfg (sortedEvents evs cut)
    (effectiveEndDistance cfg evs cut) rnd n i
    (finiteState (loopStateAt cfg (sortedEvents evs cut)
                    (effectiveEndDistance cfg evs cut) i))
  = map Fin (traceLoop log10 cfg (sortedEvents evs cut)
               (effectiveEndDistance cfg evs cut) rnd n i
               (loopStateAt cfg (sortedEvents evs cut)
                  (effectiveEndDistance cfg evs cut) i)).
Proof.
  intros Hrnd. induction n as [|n IH]; intros i Hi; [reflexivity|].
  assert (Hlt : (i < numPoints)%nat) by lia.
  destruct (sampleStep_moderate _ i Hlt (loopState_moderate i ltac:(lia)))
    as [Heq [[Hv1 Hv2] _]].
  cbn [traceLoop Double.traceLoop]. rewrite Heq.
  specialize (IH (S i) ltac:(lia)). cbn [loopStateAt] in IH.
  destruct (sampleStep cfg (sortedEvents evs cut)
              (effectiveEndDistance cfg evs cut)
              (loopStateAt cfg (sortedEvents evs cut)
                 (effectiveEndDistance cfg evs cut) i) i) as [st' tv].
  cbn [fst snd] in *. cbn [map].
  rewrite (addNoise_moderate tv (rnd i) Hv1 Hv2 (proj1 (Hrnd i)) (proj2 (Hrnd i))).
  rewrite IH. reflexivity.
Qed.

(** On inputs of moderate size the shot in double arithmetic is the shot
    in exact arithmetic: no operation leaves the finite numbers. *)
Lemma calculateSingleTrace_moderate (rnd : nat -> Q) :
  (forall k, 0 <= rnd k /\ rnd k < 1) ->
  Double.calculateSingleTrace log10 cfg evs cut rnd
  = map Fin (calculateSingleTrace log10 cfg evs cut rnd).
Proof.
  intro Hrnd. unfold Double.calculateSingleTrace, calculateSingleTrace.
  exact (traceLoop_moderate rnd Hrnd numPoints 0 (Nat.le_refl _)).
Qed.

End ModerateShot.

Lemma Double_traceLoop_length log10 cfg evs eed rnd : forall n i st,
  length (Double.traceLoop log10 cfg evs eed rnd n i st) = n.
Proof.
  induction n as [|n IH]; intros i st; simpl; [reflexivity|].
  destruct (Double.sampleStep cfg evs eed st i) as [st' tv]. simpl.
  rewrite IH. reflexivity.
Qed.

(** Outside the premise of C2: for a negative pulse width [Math.log10] is
    NaN, the guard [|| 1] replaces the factor and the amplitude is 5.0; for
    a pulse width of 0 it is minus infinity, 5.0 divided by it is 0 and
    the amplitude is 0.5. *)
Lemma noiseAmplitude_nonpositive_pulse log10 cfg :
  (pulseWidth cfg < 0 ->
   Double.noiseAmplitude log10 cfg = Fin (Qmax 0.5 (baseNoiseAmp / 1))) /\
  (pulseWidth cfg == 0 ->
   Double.noiseAmplitude log10 cfg = Fin (Qmax 0.5 0)).
Proof.
  unfold Double.noiseAmplitude, Double.noiseReductionFactor, Math_log10.
  split; intro H.
  - assert (E : Qltb (pulseWidth cfg) 0 = true) by (apply Qltb_true; exact H).
    rewrite E. change (jdiv NaN (Fin 2)) with NaN.
    change (jor NaN (Fin 1)) with (Fin 1).
    rewrite jdiv_small; [reflexivity|discriminate|].
    unfold Small, BIG. split; discriminate.
  - assert (E1 : Qltb (pulseWidth cfg) 0 = false) by (apply Qltb_false; lra).
    rewrite E1, (Qeq_eq_bool _ _ H). reflexivity.
Qed.

(** C7 (as the code has it): for every valid configuration (range, pulse
    width and index of refraction positive, noise floor negative), every
    topology and cut, and every run of [Math.random] (values in [0, 1)), a
    shot has exactly 4000 samples.  When the inputs are of moderate size
    (range, pulse width and the magnitudes of the noise floor, of every
    distance and reflectance and of the cut distance at most 10^6, the
    magnitudes of the losses summing to at most 10^6, an index of
    refraction of at least 10^-6, log10(pulseWidth) zero or of a magnitude
    between 10^-20 and 10^6), every sample is finite and at least
    [noiseFloor - noiseAmplitude], and the shot is, sample by sample, the
    shot of exact arithmetic. *)
Theorem shot_samples_bounded :
  forall (log10 : Q -> Q) (cfg : SimulationConfig) (evs : list FiberEvent)
         (cut : option Q) (rnd : nat -> Q),
  0 < range cfg -> 0 < pulseWidth cfg -> 0 < ior cfg -> noiseFloor cfg < 0 ->
  (forall k, 0 <= rnd k /\ rnd k < 1) ->
  length (Double.calculateSingleTrace log10 cfg evs cut rnd) = 4000%nat /\
  (ModerateInputs log10 cfg evs cut ->
   Forall (fun s =>
             isFinite s = true /\
             jge s (jsub (Fin (noiseFloor cfg)) (Double.noiseAmplitude log10 cfg))
             = true)
          (Double.calculateSingleTrace log10 cfg evs cut rnd) /\
   Double.calculateSingleTrace log10 cfg evs cut rnd
   = map Fin (calculateSingleTrace log10 cfg evs cut rnd)).
Proof.
  intros log10 cfg evs cut rnd Hrange Hpw Hior Hnf Hrnd.
  split; [apply Double_traceLoop_length|].
  intro Hmod.
  assert (Heq : Double.calculateSingleTrace log10 cfg evs cut rnd
                = map Fin (calculateSingleTrace log10 cfg evs cut rnd))
    by (apply calculateSingleTrace_moderate; assumption).
  assert (Hamp : Double.noiseAmplitude log10 cfg = Fin (noiseAmplitude log10 cfg))
    by (apply (noiseAmplitude_fin log10 cfg evs cut); assumption).
  assert (Ha1 : noiseAmplitude log10 cfg <= 1000000000000000000000)
    by (apply (noiseAmplitude_upper log10 cfg evs cut); assumption).
  pose proof (noiseAmplitude_lower log10 cfg) as Ha0.
  split; [|exact Heq].
  rewrite Heq. apply Forall_forall. intros s Hs.
  apply in_map_iff in Hs. destruct Hs as [v [<- Hv]].
  split; [reflexivity|].
  rewrite Hamp.
  destruct Hmod as [_ [_ [_ [Hn _]]]].
  rewrite jsub_small by small.
  change (Qle_bool (noiseFloor cfg - noiseAmplitude log10 cfg) v = true).
  apply Qle_bool_iff.
  apply In_nth_error in Hv. destruct Hv as [i Hi].
  assert (Hlt : (i < numPoints)%nat).
  { rewrite <- (calculateSingleTrace_length log10 cfg evs cut rnd).
    apply nth_error_Some. congruence. }
  rewrite calculateSingleTrace_nth in Hi by exact Hlt.
  injection Hi as <-.
  apply addNoise_lower; [exact Ha0|apply Hrnd].
Qed.

(** The initial configuration and topology with a cut at 10 km and a
    constant random source meet the premises of C7. *)
Lemma shot_samples_bounded_witness :
  (0 < range initialConfig /\ 0 < pulseWidth initialConfig /\
   0 < ior initialConfig /\ noiseFloor initialConfig < 0) /\
  (forall k, 0 <= constantRandom 0.25 k /\ constantRandom 0.25 k < 1) /\
  ModerateInputs log10_magnitude initialConfig initialEvents (Some 10) /\
  length (Double.calculateSingleTrace log10_magnitude initialConfig
            initialEvents (Some 10) (constantRandom 0.25)) = 4000%nat /\
  Forall (fun s =>
            isFinite s = true /\
            jge s (jsub (Fin (noiseFloor initialConfig))
                        (Double.noiseAmplitude log10_magnitude initialConfig))
            = true)
         (Double.calculateSingleTrace log10_magnitude initialConfig
            initialEvents (Some 10) (constantRandom 0.25)).
Proof.
  assert (Hc : 0 < range initialConfig /\ 0 < pulseWidth initialConfig /\
               0 < ior initialConfig /\ noiseFloor initialConfig < 0)
    by (repeat split; reflexivity).
  assert (Hr : forall k, 0 <= constantRandom 0.25 k /\ constantRandom 0.25 k < 1)
    by (intro k; split; [discriminate|reflexivity]).
  assert (Hm : ModerateInputs log10_magnitude initialConfig initialEvents (Some 10)).
  { unfold ModerateInputs.
    split; [discriminate|]. split; [discriminate|]. split; [discriminate|].
    split; [discriminate|]. split.
    { unfold initialEvents.
      repeat (constructor; [split; split; discriminate|]). constructor. }
    split; [vm_compute; discriminate|]. split.
    { intros d Hd. injection Hd as <-. split; discriminate. }
    split; [right; right; vm_compute; discriminate|].
    split; vm_compute; discriminate. }
  split; [exact Hc|]. split; [exact Hr|]. split; [exact Hm|].
  destruct Hc as [H1 [H2 [H3 H4]]].
  pose proof (shot_samples_bounded log10_magnitude initialConfig initialEvents
                (Some 10) (constantRandom 0.25) H1 H2 H3 H4 Hr) as [Hlen Hfin].
  split; [exact Hlen|exact (proj1 (Hfin Hm))].
Defined.

(** C7, the claim as written fails: under the initial configuration, which
    is valid, with losses of 1e308 dB at the first two events the power
    budget is minus infinity from the second event on; at the connector at
    12.5 km the saturation level and the ideal power are both minus
    infinity, their difference in the ring-down is NaN, and sample 2500 is
    NaN: it is not finite, and the comparison with
    [noiseFloor - noiseAmplitude] is false. *)
Lemma huge_losses_give_nan :
  (0 < range initialConfig /\ 0 < pulseWidth initialConfig /\
   0 < ior initialConfig /\ noiseFloor initialConfig < 0) /\
  (forall k, 0 <= constantRandom 0.5 k /\ constantRandom 0.5 k < 1) /\
  nth_error (Double.calculateSingleTrace log10_magnitude initialConfig
               hugeLossEvents None (constantRandom 0.5)) 2500 = Some NaN /\
  isFinite NaN = false /\
  jge NaN (jsub (Fin (noiseFloor initialConfig))
                (Double.noiseAmplitude log10_magnitude initialConfig)) = false.
Proof.
  split; [repeat split; reflexivity|].
  split; [intro k; split; [discriminate|reflexivity]|].
  split; [vm_compute; reflexivity|]. split; reflexivity.
Qed.
